(** * A bounded message queue with two synchronisation strategies

    Shallow embedding of the producer/consumer queue of [src/queue_manager.c],
    of the checksum of [src/utils.c] and of the message handling of
    [src/producer.c] and of the consumer thread.  [queue_manager.c] holds two
    revisions of every function; the embedding follows the later one (the
    second definitions, from [queue_create] with the [MIN_QUEUE_CAPACITY]
    clamp to the getters that check the lock), which goes with [main.c].
    The terminal handling of [src/utils.c] and the main thread of
    [src/main.c] follow the queue, with conventions of their own.
    The earlier [queue_resize] is embedded as well, in [Earlier].

    Conventions of the embedding:
    - C integers are [Z]; a conversion to an integer type is written out
      ([to_size_t], [to_ulong], [to_int], [to_uchar], [to_ushort]).  The data
      model is LP64: [size_t] and [unsigned long] have 64 bits, [int] has 32.
    - [message_t *] buffers are lists, indexed with stdpp's lookup and
      insert.  An index outside the block is undefined in C; here a read
      gives [zero_message] and a write is lost.  The queue invariant
      ([queue_inv]) keeps every index inside the block.
    - A pointer argument that may be [NULL] is an [option].
    - Everything between [pthread_mutex_lock] and [pthread_mutex_unlock] runs
      as one step, and mutex operations and [sem_post] succeed
      ([PTHREAD_CHECK] ends the process when a mutex operation fails).  What
      a blocking call ([sem_wait], [pthread_cond_wait]) reports, and when the
      signal handler sets [g_terminate_flag], is an input of every function
      that blocks: a list of [event]s.
    - The semaphores are shared with threads that do not hold the mutex: a
      call returns the semaphore operations it did ([sems]) instead of
      semaphore values.
    - Console output is not modelled. *)

From Stdlib Require Import ZArith Lia Bool.
From stdpp Require Import base tactics option list.

Local Open Scope Z_scope.

(** ** Integer types *)

Definition to_uchar (z : Z) : Z := z mod 2 ^ 8.
Definition to_ushort (z : Z) : Z := z mod 2 ^ 16.
Definition to_size_t (z : Z) : Z := z mod 2 ^ 64.
Definition to_ulong (z : Z) : Z := z mod 2 ^ 64.
Definition to_int (z : Z) : Z := (z + 2 ^ 31) mod 2 ^ 32 - 2 ^ 31.

Definition INT_MIN : Z := - 2 ^ 31.
Definition INT_MAX : Z := 2 ^ 31 - 1.

(** ** Constants of [common.h] *)

Definition INITIAL_QUEUE_CAPACITY : Z := 10.
Definition MIN_QUEUE_CAPACITY : Z := 1.
Definition MAX_QUEUE_CAPACITY : Z := 100.
Definition MAX_DATA_SIZE : Z := 256.

(** [errno] value of an interrupted system call (Linux). *)
Definition EINTR : Z := 4.

Inductive sync_mode_t := SYNC_MODE_SEM | SYNC_MODE_CONDVAR.

(** ** Messages *)

Record message_t := Message {
  type : Z;          (* unsigned char *)
  hash : Z;          (* unsigned short *)
  size : Z;          (* unsigned char *)
  data : list Z      (* unsigned char data[MAX_DATA_SIZE] *)
}.

Definition zero_message : message_t :=
  {| type := 0; hash := 0; size := 0; data := replicate (Z.to_nat MAX_DATA_SIZE) 0 |}.

#[export] Instance message_inhabited : Inhabited message_t := populate zero_message.

Definition set_hash (msg : message_t) (h : Z) : message_t :=
  {| type := type msg; hash := h; size := size msg; data := data msg |}.

(** A value a [message_t] object can hold. *)
Record message_ok (msg : message_t) : Prop := {
  type_range : 0 <= type msg < 256;
  hash_range : 0 <= hash msg < 65536;
  size_range : 0 <= size msg < 256;
  data_length : length (data msg) = Z.to_nat MAX_DATA_SIZE;
  data_range : Forall (fun b => 0 <= b < 256) (data msg)
}.

(** ** [calculate_message_hash] ([utils.c])

    [hash] is an [unsigned short]: the sum is computed in [int] (it stays
    below [2^22]) and truncated when it is stored. *)

Definition hash_step (hash byte : Z) : Z :=
  to_ushort (Z.shiftl hash 5 + hash + byte).

(** [for (i = 0; i < msg->size; ++i) hash = (hash << 5) + hash + byte_ptr[i];]
    with [n] iterations left. *)
Fixpoint hash_loop (byte_ptr : list Z) (i n : nat) (hash : Z) : Z :=
  match n with
  | O => hash
  | S n' => hash_loop byte_ptr (S i) n' (hash_step hash (nth i byte_ptr 0))
  end.

Definition calculate_message_hash (msg : message_t) : Z :=
  let hash := 0 in
  let hash := hash_step hash (type msg) in
  let hash := hash_step hash (size msg) in
  let byte_ptr := data msg in
  hash_loop byte_ptr 0 (Z.to_nat (size msg)) hash.

(** The bytes the checksum is said to run over: kind, length, then the first
    [size] payload bytes. *)
Definition hashed_bytes (msg : message_t) : list Z :=
  type msg :: size msg :: firstn (Z.to_nat (size msg)) (data msg).

(** The rolling hash in the words of the specification, section 6:
    [h' = h*33 + h + byte], seeded at 0, truncated to 16 bits. *)
Definition spec_hash_step (h byte : Z) : Z := h * 33 + h + byte.

Definition spec_message_hash (msg : message_t) : Z :=
  to_ushort (fold_left spec_hash_step (hashed_bytes msg) 0).

(** The rolling hash with the step the code takes: [(h << 5) + h + byte],
    which is [h*33 + byte]. *)
Definition rolling_step (h byte : Z) : Z := h * 33 + byte.

Definition rolling_hash (bytes : list Z) : Z :=
  to_ushort (fold_left rolling_step bytes 0).

(** ** Producer and consumer ([producer.c], the consumer thread)

    [producer_make] is the "Create Message" block of [producer_thread_func]:
    [msg] is the uninitialised automatic variable, [rnd] the successive
    results of [rand_r]. *)

Fixpoint fill_data (rnd : list Z) (i n : nat) (data : list Z) : list Z :=
  match n with
  | O => data
  | S n' =>
      fill_data (tl rnd) (S i) n'
        (<[i := to_uchar (Z.rem (hd 0 rnd) 256)]> data)
  end.

Definition producer_make (msg : message_t) (rnd : list Z) : message_t :=
  let type' := to_uchar (Z.rem (hd 0 rnd) 256) in
  let rnd := tl rnd in
  let size' := to_uchar (Z.rem (hd 0 rnd) MAX_DATA_SIZE) in
  let rnd := tl rnd in
  let data' := fill_data rnd 0 (Z.to_nat size') (data msg) in
  let msg := {| type := type'; hash := 0; size := size'; data := data' |} in
  set_hash msg (calculate_message_hash msg).

(** "Process Message (Verify Hash)" of [consumer_thread_func]: [hash_ok]. *)
Definition consumer_check (msg : message_t) : bool :=
  let original_hash := hash msg in
  let msg := set_hash msg 0 in
  let calculated_hash := calculate_message_hash msg in
  original_hash =? calculated_hash.

(** ** The queue ([common.h], [queue_manager.c])

    The fields the mutex protects.  The semaphores and condition variables
    of [queue_t] are objects of the threading library: what a call does to
    the semaphores is returned as a list of [sem_op]s. *)

Record queue_t := Queue {
  messages : list message_t;        (* message_t *messages *)
  capacity : Z;                     (* size_t *)
  count : Z;                        (* size_t *)
  head_idx : Z;                     (* int *)
  tail_idx : Z;                     (* int *)
  added_count_total : Z;            (* unsigned long *)
  extracted_count_total : Z         (* unsigned long *)
}.

Inductive sem_id := empty_slots | full_slots.

Inductive sem_op :=
| SemWait (s : sem_id)     (* a sem_wait that returned 0: one permit taken *)
| SemPost (s : sem_id).    (* a sem_post: one permit given *)

#[export] Instance sem_id_eq_dec : EqDecision sem_id.
Proof. solve_decision. Defined.

(** Permits of [s] a call still holds after the operations of [log]. *)
Fixpoint permits_held (s : sem_id) (log : list sem_op) : Z :=
  match log with
  | [] => 0
  | SemWait s' :: log' =>
      (if decide (s' = s) then 1 else 0) + permits_held s log'
  | SemPost s' :: log' =>
      permits_held s log' - (if decide (s' = s) then 1 else 0)
  end.

(** ** The environment of a call

    [Signal]: SIGINT or SIGTERM is handled ([main_signal_handler] stores 1
    in [g_terminate_flag]) while the caller is inside a blocking call.
    [Return ret errno]: the blocking call in progress returns [ret], with
    [errno] as given.  When the list is used up the caller stays blocked. *)

Inductive event :=
| Signal
| Return (ret errno : Z).

(** How a wait loop is left. *)
Inductive waited :=
| Acquired        (* the wait is over, go on *)
| Terminating     (* EINTR and g_terminate_flag is set *)
| WaitFailed      (* the blocking call failed *)
| Waiting.        (* still inside the blocking call *)

(** [while (sem_wait(s) == -1) { if (errno == EINTR) { if (g_terminate_flag)
    return -1; continue; } else return -1; }]
    The result carries [g_terminate_flag] and the events not yet used. *)
Fixpoint sem_wait_loop (flag : bool) (evs : list event)
  : waited * bool * list event :=
  match evs with
  | [] => (Waiting, flag, [])
  | Signal :: evs' => sem_wait_loop true evs'
  | Return ret errno :: evs' =>
      if ret =? -1 then
        if errno =? EINTR then
          if flag then (Terminating, flag, evs')
          else sem_wait_loop flag evs'
        else (WaitFailed, flag, evs')
      else (Acquired, flag, evs')
  end.

(** Inside [pthread_cond_wait], in
    [while (cond && !g_terminate_flag) { ret = pthread_cond_wait(..);
    if (ret != 0) return -1; }]
    [cond] is the queue test of the loop; the queue the caller finds when it
    wakes is the one it left (what other threads do meanwhile is the
    business of the calls they make, see [run]). *)
Fixpoint cond_parked (cond flag : bool) (evs : list event) : waited * bool :=
  match evs with
  | [] => (Waiting, flag)
  | Signal :: evs' => cond_parked cond true evs'
  | Return ret _ :: evs' =>
      if negb (ret =? 0) then (WaitFailed, flag)
      else if cond && negb flag then cond_parked cond flag evs'
      else (Acquired, flag)
  end.

Definition cond_wait_loop (cond flag : bool) (evs : list event) : waited * bool :=
  if cond && negb flag then cond_parked cond flag evs else (Acquired, flag).

(** What a call leaves behind, next to the queue. *)
Record reply := Reply {
  ret : option Z;              (* value returned; None: the call is blocked *)
  terminate : bool;            (* g_terminate_flag when the call stopped *)
  sems : list sem_op;          (* semaphore operations done, in order *)
  msg_out : option message_t   (* the record stored through [msg] *)
}.

Definition returns (r : Z) (flag : bool) (log : list sem_op) : reply :=
  {| ret := Some r; terminate := flag; sems := log; msg_out := None |}.

Definition blocked (flag : bool) (log : list sem_op) : reply :=
  {| ret := None; terminate := flag; sems := log; msg_out := None |}.

(** ** Critical sections *)

(** [memcpy(&q->messages[q->tail_idx], msg, sizeof(message_t));
     q->tail_idx = (q->tail_idx + 1) % q->capacity;
     q->count++; q->added_count_total++;] *)
Definition enqueue (q : queue_t) (msg : message_t) : queue_t :=
  {| messages := <[Z.to_nat (tail_idx q) := msg]> (messages q);
     capacity := capacity q;
     count := to_size_t (count q + 1);
     head_idx := head_idx q;
     tail_idx := to_int (to_size_t (tail_idx q + 1) mod capacity q);
     added_count_total := to_ulong (added_count_total q + 1);
     extracted_count_total := extracted_count_total q |}.

(** [memcpy(msg, &q->messages[q->head_idx], sizeof(message_t));] *)
Definition front (q : queue_t) : message_t :=
  messages q !!! Z.to_nat (head_idx q).

(** [q->head_idx = (q->head_idx + 1) % q->capacity;
     q->count--; q->extracted_count_total++;] *)
Definition dequeue (q : queue_t) : queue_t :=
  {| messages := messages q;
     capacity := capacity q;
     count := to_size_t (count q - 1);
     head_idx := to_int (to_size_t (head_idx q + 1) mod capacity q);
     tail_idx := tail_idx q;
     added_count_total := added_count_total q;
     extracted_count_total := to_ulong (extracted_count_total q + 1) |}.

(** ** [queue_add] and [queue_remove] *)

Definition queue_add_sem (q : queue_t) (msg : message_t)
    (flag : bool) (evs : list event) : queue_t * reply :=
  match sem_wait_loop flag evs with
  | (Waiting, flag, _) => (q, blocked flag [])
  | (Terminating, flag, _) => (q, returns (-1) flag [])
  | (WaitFailed, flag, _) => (q, returns (-1) flag [])
  | (Acquired, flag, _) =>
      if flag then
        (q, returns (-1) flag [SemWait empty_slots; SemPost empty_slots])
      else if count q >=? capacity q then
        (q, returns (-1) flag [SemWait empty_slots; SemPost empty_slots])
      else
        (enqueue q msg,
         returns 0 flag [SemWait empty_slots; SemPost full_slots])
  end.

Definition queue_remove_sem (q : queue_t)
    (flag : bool) (evs : list event) : queue_t * reply :=
  match sem_wait_loop flag evs with
  | (Waiting, flag, _) => (q, blocked flag [])
  | (Terminating, flag, _) => (q, returns (-1) flag [])
  | (WaitFailed, flag, _) => (q, returns (-1) flag [])
  | (Acquired, flag, _) =>
      if flag then
        (q, returns (-1) flag [SemWait full_slots; SemPost full_slots])
      else if count q =? 0 then
        (q, returns (-1) flag [SemWait full_slots; SemPost full_slots])
      else
        (dequeue q,
         {| ret := Some 0; terminate := flag;
            sems := [SemWait full_slots; SemPost empty_slots];
            msg_out := Some (front q) |})
  end.

Definition queue_add_condvar (q : queue_t) (msg : message_t)
    (flag : bool) (evs : list event) : queue_t * reply :=
  match cond_wait_loop (count q =? capacity q) flag evs with
  | (Waiting, flag) => (q, blocked flag [])
  | (Acquired, flag) =>
      if flag then (q, returns (-1) flag [])
      else if count q >=? capacity q then (q, returns (-1) flag [])
      else (enqueue q msg, returns 0 flag [])
  | (WaitFailed, flag) | (Terminating, flag) => (q, returns (-1) flag [])
  end.

Definition queue_remove_condvar (q : queue_t)
    (flag : bool) (evs : list event) : queue_t * reply :=
  match cond_wait_loop (count q =? 0) flag evs with
  | (Waiting, flag) => (q, blocked flag [])
  | (Acquired, flag) =>
      if flag then (q, returns (-1) flag [])
      else if count q =? 0 then (q, returns (-1) flag [])
      else
        (dequeue q,
         {| ret := Some 0; terminate := flag; sems := [];
            msg_out := Some (front q) |})
  | (WaitFailed, flag) | (Terminating, flag) => (q, returns (-1) flag [])
  end.

(** The dispatchers.  [q] and [msg] may be [NULL]. *)
Definition queue_add (g_sync_mode : sync_mode_t)
    (q : option queue_t) (msg : option message_t)
    (flag : bool) (evs : list event) : option queue_t * reply :=
  match q, msg with
  | Some q, Some msg =>
      let (q', r) :=
        match g_sync_mode with
        | SYNC_MODE_SEM => queue_add_sem q msg flag evs
        | SYNC_MODE_CONDVAR => queue_add_condvar q msg flag evs
        end in
      (Some q', r)
  | _, _ => (q, returns (-1) flag [])
  end.

(** [msg] is the caller's record the result is stored in. *)
Definition queue_remove (g_sync_mode : sync_mode_t)
    (q : option queue_t) (msg : option message_t)
    (flag : bool) (evs : list event) : option queue_t * reply :=
  match q, msg with
  | Some q, Some _ =>
      let (q', r) :=
        match g_sync_mode with
        | SYNC_MODE_SEM => queue_remove_sem q flag evs
        | SYNC_MODE_CONDVAR => queue_remove_condvar q flag evs
        end in
      (Some q', r)
  | _, _ => (q, returns (-1) flag [])
  end.

(** ** [queue_create], [queue_destroy], the getters *)

(** [malloc(n * sizeof(message_t))]: [None] when the allocation fails,
    otherwise a block of [n] records holding whatever was there ([garbage],
    cut or padded to [n] records). *)
Definition malloc (n : Z) (heap : option (list message_t))
  : option (list message_t) :=
  match heap with
  | None => None
  | Some garbage => Some (resize (Z.to_nat n) zero_message garbage)
  end.

(** [struct_ok]: the [malloc] of the [queue_t] itself succeeds; [heap]: the
    block of the buffer; [init_ok]: the mutex and the semaphores or condition
    variables are initialised without error. *)
Definition queue_create (initial_capacity : Z) (mode : sync_mode_t)
    (struct_ok : bool) (heap : option (list message_t)) (init_ok : bool)
  : option queue_t :=
  let initial_capacity :=
    if initial_capacity =? 0 then INITIAL_QUEUE_CAPACITY else initial_capacity in
  let initial_capacity :=
    if initial_capacity <? MIN_QUEUE_CAPACITY then MIN_QUEUE_CAPACITY
    else initial_capacity in
  let initial_capacity :=
    if initial_capacity >? MAX_QUEUE_CAPACITY then MAX_QUEUE_CAPACITY
    else initial_capacity in
  if negb struct_ok then None
  else
    match malloc initial_capacity heap with
    | None => None
    | Some block =>
        if negb init_ok then None
        else
          Some {| messages := block;
                  capacity := initial_capacity;
                  count := 0;
                  head_idx := 0;
                  tail_idx := 0;
                  added_count_total := 0;
                  extracted_count_total := 0 |}
    end.

(** What [queue_destroy] releases, in order. *)
Inductive release :=
| SemDestroy (s : sem_id)
| CondDestroyNotEmpty
| CondDestroyNotFull
| MutexDestroy
| FreeMessages
| FreeQueue.

Definition queue_destroy (q : option queue_t) (mode : sync_mode_t)
  : list release :=
  match q with
  | None => []
  | Some q =>
      match mode with
      | SYNC_MODE_SEM => [SemDestroy empty_slots; SemDestroy full_slots]
      | SYNC_MODE_CONDVAR => [CondDestroyNotEmpty; CondDestroyNotFull]
      end ++ [MutexDestroy; FreeMessages; FreeQueue]
  end.

Definition queue_get_count (q : option queue_t) : Z :=
  match q with None => 0 | Some q => count q end.

Definition queue_get_capacity (q : option queue_t) : Z :=
  match q with None => 0 | Some q => capacity q end.

Definition queue_get_added_total (q : option queue_t) : Z :=
  match q with None => 0 | Some q => added_count_total q end.

Definition queue_get_extracted_total (q : option queue_t) : Z :=
  match q with None => 0 | Some q => extracted_count_total q end.

(** ** [queue_resize] *)

(** The capacity [queue_resize] aims at, for [change <> 0].  For
    [change = INT_MIN] the negation overflows in C; the value taken here,
    [2^31], and the wrapped one both exceed every capacity. *)
Definition new_capacity_of (old_capacity change : Z) : Z :=
  if change >? 0 then
    let new_capacity :=
      if to_size_t change >? to_size_t (MAX_QUEUE_CAPACITY - old_capacity)
      then MAX_QUEUE_CAPACITY
      else to_size_t (old_capacity + to_size_t change) in
    if new_capacity >? MAX_QUEUE_CAPACITY then MAX_QUEUE_CAPACITY
    else new_capacity
  else
    let decrease_amount := to_size_t (- change) in
    let new_capacity :=
      if decrease_amount >=? old_capacity then MIN_QUEUE_CAPACITY
      else to_size_t (old_capacity - decrease_amount) in
    if new_capacity <? MIN_QUEUE_CAPACITY then MIN_QUEUE_CAPACITY
    else new_capacity.

(** [for (i = 0; i < current_count; ++i)
      memcpy(&new_messages_buffer[i],
             &q->messages[(q->head_idx + i) % old_capacity], ..);]
    with [n] iterations left. *)
Fixpoint copy_messages (old : list message_t) (head_idx old_capacity : Z)
    (i n : nat) (new_messages_buffer : list message_t) : list message_t :=
  match n with
  | O => new_messages_buffer
  | S n' =>
      copy_messages old head_idx old_capacity (S i) n'
        (<[i := old !!! Z.to_nat
                   (to_size_t (head_idx + Z.of_nat i) mod old_capacity)]>
           new_messages_buffer)
  end.

(** The shrink loop of the semaphore strategy, with [n] slots still to take
    back: [for (..) while (sem_wait(&q->empty_slots) == -1) {..}].
    The result also counts the permits taken. *)
Fixpoint reclaim_slots (n : nat) (flag : bool) (evs : list event)
  : waited * bool * nat :=
  match n with
  | O => (Acquired, flag, O)
  | S n' =>
      match sem_wait_loop flag evs with
      | (Acquired, flag, evs') =>
          let '(w, flag, taken) := reclaim_slots n' flag evs' in
          (w, flag, S taken)
      | (w, flag, _) => (w, flag, O)
      end
  end.

(** The part of [queue_resize] between the [malloc] and the adjustment of
    the semaphores: the items are copied to the front of the new block, which
    replaces the old one.  [tail_idx] is assigned three times in a row; the
    last assignment is the one modelled. *)
Definition relocated (q : queue_t) (new_capacity : Z)
    (new_messages_buffer : list message_t) : queue_t :=
  let current_count := count q in
  let old_capacity := capacity q in
  {| messages :=
       copy_messages (messages q) (head_idx q) old_capacity
         0 (Z.to_nat current_count) new_messages_buffer;
     capacity := new_capacity;
     count := count q;
     head_idx := 0;
     tail_idx :=
       if (current_count =? new_capacity) && (new_capacity >? 0)
       then 0 else to_int current_count;
     added_count_total := added_count_total q;
     extracted_count_total := extracted_count_total q |}.

(** [heap] is what the one [malloc] of the call finds. *)
Definition queue_resize (g_sync_mode : sync_mode_t)
    (q : option queue_t) (change : Z) (heap : option (list message_t))
    (flag : bool) (evs : list event) : option queue_t * reply :=
  match q with
  | None => (None, returns (-1) flag [])
  | Some q =>
      if change =? 0 then (Some q, returns (-1) flag [])
      else
        let old_capacity := capacity q in
        let current_count := count q in
        let new_capacity := new_capacity_of old_capacity change in
        if new_capacity =? old_capacity then (Some q, returns 0 flag [])
        else if new_capacity <? current_count then (Some q, returns (-1) flag [])
        else
          match malloc new_capacity heap with
          | None => (Some q, returns (-1) flag [])
          | Some new_messages_buffer =>
              let q := relocated q new_capacity new_messages_buffer in
              match g_sync_mode with
              | SYNC_MODE_SEM =>
                  if new_capacity >? old_capacity then
                    let added_slots := to_size_t (new_capacity - old_capacity) in
                    (Some q,
                     returns 0 flag
                       (replicate (Z.to_nat added_slots) (SemPost empty_slots)))
                  else
                    let removed_slots := to_size_t (old_capacity - new_capacity) in
                    match reclaim_slots (Z.to_nat removed_slots) flag evs with
                    | (Acquired, flag, taken) =>
                        (Some q,
                         returns 0 flag (replicate taken (SemWait empty_slots)))
                    | (Waiting, flag, taken) =>
                        (Some q,
                         blocked flag (replicate taken (SemWait empty_slots)))
                    | (Terminating, flag, taken) | (WaitFailed, flag, taken) =>
                        (Some q,
                         returns (-1) flag (replicate taken (SemWait empty_slots)))
                    end
              | SYNC_MODE_CONDVAR => (Some q, returns 0 flag [])
              end
          end
  end.

(** ** Executions

    The calls of an execution in the order in which they take the mutex, each
    with the events it meets while it blocks.  The queue fields change only
    under the mutex, so this order decides them, with any number of threads;
    with one producer and one consumer it is also the order of the calls of
    each of them.  A [queue_add] or [queue_remove] that is still blocked when
    its events end has changed nothing: the thread that resumes it makes the
    call again later in the list, which is where [sem_wait] returns or where
    the [while] of the condition wait tests the queue again.  A
    [queue_resize] blocked in its shrink loop has replaced the buffer and
    keeps the mutex until it returns; the lists in which other calls follow
    it describe more than the program can do.  [Interrupt] is the signal
    handler running between two calls. *)

Inductive call :=
| Add (msg : message_t) (evs : list event)
| Remove (evs : list event)
| Resize (change : Z) (heap : option (list message_t)) (evs : list event)
| Interrupt.

Record session := Session {
  g_queue : queue_t;
  g_terminate_flag : bool;
  produced : list message_t;   (* passed to the queue_add calls that returned 0 *)
  consumed : list message_t    (* returned by the queue_remove calls that returned 0 *)
}.

Definition start (q : queue_t) : session :=
  {| g_queue := q; g_terminate_flag := false; produced := []; consumed := [] |}.

Definition step (g_sync_mode : sync_mode_t) (s : session) (c : call) : session :=
  match c with
  | Add msg evs =>
      match queue_add g_sync_mode (Some (g_queue s)) (Some msg)
              (g_terminate_flag s) evs with
      | (Some q, r) =>
          {| g_queue := q;
             g_terminate_flag := terminate r;
             produced :=
               if decide (ret r = Some 0) then produced s ++ [msg] else produced s;
             consumed := consumed s |}
      | (None, _) => s
      end
  | Remove evs =>
      match queue_remove g_sync_mode (Some (g_queue s)) (Some zero_message)
              (g_terminate_flag s) evs with
      | (Some q, r) =>
          {| g_queue := q;
             g_terminate_flag := terminate r;
             produced := produced s;
             consumed :=
               match ret r, msg_out r with
               | Some 0, Some m => consumed s ++ [m]
               | _, _ => consumed s
               end |}
      | (None, _) => s
      end
  | Resize change heap evs =>
      match queue_resize g_sync_mode (Some (g_queue s)) change heap
              (g_terminate_flag s) evs with
      | (Some q, r) =>
          {| g_queue := q;
             g_terminate_flag := terminate r;
             produced := produced s;
             consumed := consumed s |}
      | (None, _) => s
      end
  | Interrupt =>
      {| g_queue := g_queue s;
         g_terminate_flag := true;
         produced := produced s;
         consumed := consumed s |}
  end.

Definition run (g_sync_mode : sync_mode_t) (calls : list call) (s : session)
  : session :=
  fold_left (step g_sync_mode) calls s.

(** ** Invariant and logical contents *)

(** Index of the [i]-th oldest item. *)
Definition slot (q : queue_t) (i : nat) : nat :=
  Z.to_nat ((head_idx q + Z.of_nat i) mod capacity q).

(** The items held, oldest first. *)
Definition contents (q : queue_t) : list message_t :=
  map (fun i => messages q !!! slot q i) (seq 0 (Z.to_nat (count q))).

Record queue_inv (q : queue_t) : Prop := {
  inv_capacity : MIN_QUEUE_CAPACITY <= capacity q <= MAX_QUEUE_CAPACITY;
  inv_count : 0 <= count q <= capacity q;
  inv_head : 0 <= head_idx q < capacity q;
  inv_tail : tail_idx q = (head_idx q + count q) mod capacity q;
  inv_block : Z.of_nat (length (messages q)) = capacity q;
  inv_added : 0 <= added_count_total q < 2 ^ 64;
  inv_extracted : 0 <= extracted_count_total q < 2 ^ 64;
  inv_totals :
    to_ulong (added_count_total q - extracted_count_total q) = count q
}.

(** The target capacity in the words of the specification, section 4.1:
    [capacity + delta] clamped to [[MIN_CAPACITY, MAX_CAPACITY]]. *)
Definition clamped_capacity (capacity delta : Z) : Z :=
  Z.max MIN_QUEUE_CAPACITY (Z.min MAX_QUEUE_CAPACITY (capacity + delta)).

(** What holds of a session between two calls. *)
Record session_inv (s : session) : Prop := {
  sess_queue : queue_inv (g_queue s);
  sess_fifo : produced s = consumed s ++ contents (g_queue s);
  sess_added :
    added_count_total (g_queue s) = to_ulong (Z.of_nat (length (produced s)));
  sess_extracted :
    extracted_count_total (g_queue s) = to_ulong (Z.of_nat (length (consumed s)))
}.

(** [n] successive [queue_remove] calls on a queue nobody else touches, with
    the termination flag clear and each wait answered at once: the records
    they store, in order. *)
Fixpoint dequeue_all (mode : sync_mode_t) (n : nat) (q : queue_t)
  : list message_t :=
  match n with
  | O => []
  | S n' =>
      match queue_remove mode (Some q) (Some zero_message) false [Return 0 0] with
      | (Some q', r) =>
          match msg_out r with
          | Some m => m :: dequeue_all mode n' q'
          | None => []
          end
      | (None, _) => []
      end
  end.

(** The records handed to [queue_add] in a list of calls. *)
Definition added_messages (calls : list call) : list message_t :=
  flat_map (fun c => match c with Add msg _ => [msg] | _ => [] end) calls.

(** [msg] is what a producer builds, from some stack content and some random
    numbers. *)
Definition made_by_producer (msg : message_t) : Prop :=
  exists stack rnd, msg = producer_make stack rnd.

(** ** Sample data *)

Definition sample_message (t : Z) : message_t :=
  {| type := t; hash := 0; size := 0; data := replicate 256 0 |}.

(** The wait of a call answered at once. *)
Definition at_once : list event := [Return 0 0].

(** A queue of capacity 5 as [queue_create] returns it. *)
Definition sample_created : queue_t :=
  {| messages := replicate 5 zero_message;
     capacity := 5;
     count := 0;
     head_idx := 0;
     tail_idx := 0;
     added_count_total := 0;
     extracted_count_total := 0 |}.

(** Capacity 5 holding A, B, C (types 65, 66, 67). *)
Definition sample_calls : list call :=
  [Add (sample_message 65) at_once;
   Add (sample_message 66) at_once;
   Add (sample_message 67) at_once].

Definition sample_queue : queue_t :=
  g_queue (run SYNC_MODE_CONDVAR sample_calls (start sample_created)).

(** A queue of the smallest capacity, as [queue_create] returns it. *)
Definition sample_smallest : queue_t :=
  {| messages := [zero_message];
     capacity := 1;
     count := 0;
     head_idx := 0;
     tail_idx := 0;
     added_count_total := 0;
     extracted_count_total := 0 |}.

(** ** Semaphore values

    [queue_create] initialises [empty_slots] to the capacity and
    [full_slots] to 0.  The value of a semaphore after a list of operations
    is its initial value less the permits taken and not given back. *)

Definition sem_value (init : Z) (s : sem_id) (log : list sem_op) : Z :=
  init - permits_held s log.

(** What a call of an execution answers; [Interrupt] is no call. *)
Definition call_reply (g_sync_mode : sync_mode_t) (s : session) (c : call)
  : option reply :=
  match c with
  | Add msg evs =>
      Some (snd (queue_add g_sync_mode (Some (g_queue s)) (Some msg)
                   (g_terminate_flag s) evs))
  | Remove evs =>
      Some (snd (queue_remove g_sync_mode (Some (g_queue s))
                   (Some zero_message) (g_terminate_flag s) evs))
  | Resize change heap evs =>
      Some (snd (queue_resize g_sync_mode (Some (g_queue s)) change heap
                   (g_terminate_flag s) evs))
  | Interrupt => None
  end.

(** The semaphore operations of the calls of an execution, in order. *)
Fixpoint sem_trace (g_sync_mode : sync_mode_t) (calls : list call)
    (s : session) : list sem_op :=
  match calls with
  | [] => []
  | c :: calls' =>
      match call_reply g_sync_mode s c with
      | Some r => sems r
      | None => []
      end ++ sem_trace g_sync_mode calls' (step g_sync_mode s c)
  end.

(** No [queue_resize] of the execution stops short (blocked, or returning
    -1) after it has changed the capacity. *)
Fixpoint resizes_settled (g_sync_mode : sync_mode_t) (calls : list call)
    (s : session) : bool :=
  match calls with
  | [] => true
  | c :: calls' =>
      match c with
      | Resize change heap evs =>
          bool_decide (ret (snd (queue_resize g_sync_mode (Some (g_queue s))
                                   change heap (g_terminate_flag s) evs))
                       = Some 0)
          || (capacity (g_queue (step g_sync_mode s c)) =? capacity (g_queue s))
      | _ => true
      end && resizes_settled g_sync_mode calls' (step g_sync_mode s c)
  end.

(** ** Pauses of the worker threads

    [long delay_us = (rand_r(&seed) % 400000L) + 100000L;] in the producer,
    [+ 200000L] in the consumer; then
    [tv_sec = delay_us / 1000000L; tv_nsec = (delay_us % 1000000L) * 1000L].
    The result is [(tv_sec, tv_nsec)]; [r] is what [rand_r] returned. *)

Definition delay_req (delay_us : Z) : Z * Z :=
  (Z.quot delay_us 1000000, Z.rem delay_us 1000000 * 1000).

Definition producer_delay (r : Z) : Z * Z :=
  delay_req (Z.rem r 400000 + 100000).

Definition consumer_delay (r : Z) : Z * Z :=
  delay_req (Z.rem r 400000 + 200000).

(** ** Records altered on the way *)

Definition set_type (msg : message_t) (t : Z) : message_t :=
  {| type := t; hash := hash msg; size := size msg; data := data msg |}.

(** [msg] with payload byte [i] replaced by [b]. *)
Definition set_data_byte (msg : message_t) (i : nat) (b : Z) : message_t :=
  {| type := type msg; hash := hash msg; size := size msg;
     data := <[i := b]> (data msg) |}.

(** [RESIZE_STEP] of [common.h]: the keys [+] and [-] of the main loop call
    [queue_resize(g_queue, RESIZE_STEP)] and [queue_resize(g_queue,
    -RESIZE_STEP)]. *)
Definition RESIZE_STEP : Z := 1.

(** * The terminal ([utils.c])

    [setup_terminal_noecho_nonblock], [restore_terminal] and [kbhit] act on
    what standard input refers to and on three statics of [utils.c].  The
    calls they make are the environment: each may fail, and a call that
    fails changes nothing.  [tcsetattr] that succeeds makes the attributes
    those passed; [fcntl(F_SETFL)] that succeeds makes the file status flags
    the argument (the arguments used here are flags read with [F_GETFL],
    with or without [O_NONBLOCK] added).  [tcflag_t] has 32 bits. *)

From Stdlib Require Import Ascii.

Definition to_tcflag_t (z : Z) : Z := z mod 2 ^ 32.

Definition EXIT_SUCCESS : Z := 0.
Definition EXIT_FAILURE : Z := 1.

(** The constants of [<termios.h>] and [<fcntl.h>] the code names. *)
Class platform := Platform {
  ICANON : Z;
  ECHO : Z;
  VMIN : nat;
  VTIME : nat;
  O_NONBLOCK : Z
}.

(** Their values on Linux. *)
Definition linux : platform :=
  {| ICANON := 2; ECHO := 8; VMIN := 6; VTIME := 5; O_NONBLOCK := 2048 |}.

Record termios := Termios {
  c_iflag : Z;
  c_oflag : Z;
  c_cflag : Z;
  c_lflag : Z;
  c_cc : list Z
}.

(** What [STDIN_FILENO] refers to. *)
Record tty := Tty {
  isatty : bool;
  attributes : termios;        (* read by tcgetattr, set by tcsetattr *)
  file_status_flags : Z        (* read by F_GETFL, set by F_SETFL *)
}.

(** [static struct termios original_termios; static int terminal_modified;
    static int original_fcntl_flags;] *)
Record utils_static := UtilsStatic {
  original_termios : termios;
  terminal_modified : Z;
  original_fcntl_flags : Z
}.

Definition tcgetattr (ok : bool) (stdin : tty) (termios_p : termios)
  : Z * termios :=
  if ok then (0, attributes stdin) else (-1, termios_p).

Definition tcsetattr (ok : bool) (termios_p : termios) (stdin : tty)
  : Z * tty :=
  if ok
  then (0, {| isatty := isatty stdin;
              attributes := termios_p;
              file_status_flags := file_status_flags stdin |})
  else (-1, stdin).

Definition fcntl_F_GETFL (ok : bool) (stdin : tty) : Z :=
  if ok then file_status_flags stdin else -1.

Definition fcntl_F_SETFL (ok : bool) (arg : Z) (stdin : tty) : Z * tty :=
  if ok
  then (0, {| isatty := isatty stdin;
              attributes := attributes stdin;
              file_status_flags := arg |})
  else (-1, stdin).

(** Which calls of [setup_terminal_noecho_nonblock] succeed; [undo_ok] is
    the [tcsetattr] that puts [original_termios] back before [exit]. *)
Record setup_env := SetupEnv {
  tcgetattr_ok : bool;
  tcsetattr_ok : bool;
  F_GETFL_ok : bool;
  F_SETFL_ok : bool;
  undo_ok : bool
}.

(** How a function that may call [exit] ends. *)
Inductive finished :=
| Returned
| Exited (status : Z).

(** [new_termios.c_lflag &= ~(unsigned long)(ICANON | ECHO);] *)
Definition clear_canonical_echo `{platform} (c_lflag : Z) : Z :=
  to_tcflag_t
    (Z.land c_lflag (to_ulong (Z.lnot (to_ulong (Z.lor ICANON ECHO))))).

Definition setup_terminal_noecho_nonblock `{platform} (env : setup_env)
    (st : utils_static) (stdin : tty) : finished * utils_static * tty :=
  if negb (isatty stdin) then (Returned, st, stdin)
  else
    let '(ret, original) :=
      tcgetattr (tcgetattr_ok env) stdin (original_termios st) in
    let st := {| original_termios := original;
                 terminal_modified := terminal_modified st;
                 original_fcntl_flags := original_fcntl_flags st |} in
    if ret =? -1 then (Exited EXIT_FAILURE, st, stdin)
    else
      let new_termios := original_termios st in
      let new_termios :=
        {| c_iflag := c_iflag new_termios;
           c_oflag := c_oflag new_termios;
           c_cflag := c_cflag new_termios;
           c_lflag := clear_canonical_echo (c_lflag new_termios);
           c_cc := <[VTIME := 0]> (<[VMIN := 0]> (c_cc new_termios)) |} in
      let '(ret, stdin) := tcsetattr (tcsetattr_ok env) new_termios stdin in
      if ret =? -1 then (Exited EXIT_FAILURE, st, stdin)
      else
        let st := {| original_termios := original_termios st;
                     terminal_modified := terminal_modified st;
                     original_fcntl_flags :=
                       fcntl_F_GETFL (F_GETFL_ok env) stdin |} in
        if original_fcntl_flags st =? -1 then
          let '(_, stdin) :=
            tcsetattr (undo_ok env) (original_termios st) stdin in
          (Exited EXIT_FAILURE, st, stdin)
        else
          let '(ret, stdin) :=
            fcntl_F_SETFL (F_SETFL_ok env)
              (Z.lor (original_fcntl_flags st) O_NONBLOCK) stdin in
          if ret =? -1 then
            let '(_, stdin) :=
              tcsetattr (undo_ok env) (original_termios st) stdin in
            (Exited EXIT_FAILURE, st, stdin)
          else
            (Returned,
             {| original_termios := original_termios st;
                terminal_modified := 1;
                original_fcntl_flags := original_fcntl_flags st |},
             stdin).

(** Which calls of [restore_terminal] succeed. *)
Record restore_env := RestoreEnv {
  restore_F_SETFL_ok : bool;
  restore_tcsetattr_ok : bool
}.

Definition restore_terminal (env : restore_env) (st : utils_static)
    (stdin : tty) : utils_static * tty :=
  if negb (terminal_modified st =? 0) && isatty stdin then
    let '(_, stdin) :=
      fcntl_F_SETFL (restore_F_SETFL_ok env) (original_fcntl_flags st) stdin in
    let '(_, stdin) :=
      tcsetattr (restore_tcsetattr_ok env) (original_termios st) stdin in
    ({| original_termios := original_termios st;
        terminal_modified := 0;
        original_fcntl_flags := original_fcntl_flags st |},
     stdin)
  else (st, stdin).

(** What [read(STDIN_FILENO, &c, 1)] finds. *)
Inductive read_result :=
| ReadByte (c : ascii)       (* n == 1 *)
| ReadNothing                (* n == 0 *)
| ReadFailed (errno : Z).    (* n == -1 *)

(** [kbhit]: the value returned, and the byte pushed back on [stdin] with
    [ungetc], which the [getchar] that follows returns.  The first component
    of the result tells whether [read] was called. *)
Definition kbhit (st : utils_static) (r : read_result) (ungetc_ok : bool)
  : bool * Z * option ascii :=
  if terminal_modified st =? 0 then (false, 0, None)
  else
    match r with
    | ReadByte c => if ungetc_ok then (true, 1, Some c) else (true, 0, None)
    | ReadNothing => (true, 0, None)
    | ReadFailed errno => (true, 0, None)
    end.

(** A terminal in canonical mode with echo, open for reading and writing,
    the statics before [main] runs, and an environment in which every call
    succeeds. *)
Definition sample_termios : termios :=
  {| c_iflag := 17664; c_oflag := 5; c_cflag := 191; c_lflag := 35387;
     c_cc := replicate 32 1 |}.

Definition sample_tty : tty :=
  {| isatty := true; attributes := sample_termios; file_status_flags := 2 |}.

Definition sample_utils : utils_static :=
  {| original_termios := Termios 0 0 0 0 (replicate 32 0);
     terminal_modified := 0;
     original_fcntl_flags := 0 |}.

Definition all_succeed : setup_env :=
  {| tcgetattr_ok := true; tcsetattr_ok := true; F_GETFL_ok := true;
     F_SETFL_ok := true; undo_ok := true |}.

(** * The main thread ([main.c])

    The state is the globals and statics of [main.c], the statics of
    [utils.c] and the terminal.  The calls the main thread makes on threads,
    on the synchronisation objects of the queue and on the queue's memory are
    returned in order.  What [pthread_create], [pthread_cancel],
    [pthread_join], [malloc] and the blocking calls of [queue_resize] answer
    is an input. *)

Definition MAX_PRODUCERS : Z := 10.
Definition MAX_CONSUMERS : Z := 10.

(** The queue and the flag after calls of the worker threads, in mutex
    order, and signals. *)
Definition shared_after (g_sync_mode : sync_mode_t) (calls : list call)
    (q : queue_t) (flag : bool) : queue_t * bool :=
  let shared := run g_sync_mode calls (Session q flag [] []) in
  (g_queue shared, g_terminate_flag shared).

Module Main.

Inductive start_routine := producer_thread_func | consumer_thread_func.

Inductive action :=
| PthreadCreate (f : start_routine) (id : Z) (thread : Z) (ret : Z)
| FreeArgs
| PthreadCancel (thread : Z) (ret : Z)
| PthreadJoin (thread : Z) (ret : Z)
| Sem (op : sem_op)
| MutexTrylock (ret : Z)
| CondBroadcastNotEmpty
| CondBroadcastNotFull
| MutexUnlock
| Release (r : release).

Record state := State {
  g_terminate_flag : bool;
  g_sync_mode : sync_mode_t;
  producer_threads : list Z;          (* pthread_t [MAX_PRODUCERS] *)
  producer_created_count : Z;
  consumer_threads : list Z;          (* pthread_t [MAX_CONSUMERS] *)
  consumer_created_count : Z;
  g_queue : option queue_t;
  utils : utils_static;
  stdin : tty
}.

Definition set_flag (flag : bool) (s : state) : state :=
  {| g_terminate_flag := flag;
     g_sync_mode := g_sync_mode s;
     producer_threads := producer_threads s;
     producer_created_count := producer_created_count s;
     consumer_threads := consumer_threads s;
     consumer_created_count := consumer_created_count s;
     g_queue := g_queue s;
     utils := utils s;
     stdin := stdin s |}.

Definition set_producers (threads : list Z) (created_count : Z) (s : state)
  : state :=
  {| g_terminate_flag := g_terminate_flag s;
     g_sync_mode := g_sync_mode s;
     producer_threads := threads;
     producer_created_count := created_count;
     consumer_threads := consumer_threads s;
     consumer_created_count := consumer_created_count s;
     g_queue := g_queue s;
     utils := utils s;
     stdin := stdin s |}.

Definition set_consumers (threads : list Z) (created_count : Z) (s : state)
  : state :=
  {| g_terminate_flag := g_terminate_flag s;
     g_sync_mode := g_sync_mode s;
     producer_threads := producer_threads s;
     producer_created_count := producer_created_count s;
     consumer_threads := threads;
     consumer_created_count := created_count;
     g_queue := g_queue s;
     utils := utils s;
     stdin := stdin s |}.

Definition set_queue (q : option queue_t) (flag : bool) (s : state) : state :=
  {| g_terminate_flag := flag;
     g_sync_mode := g_sync_mode s;
     producer_threads := producer_threads s;
     producer_created_count := producer_created_count s;
     consumer_threads := consumer_threads s;
     consumer_created_count := consumer_created_count s;
     g_queue := q;
     utils := utils s;
     stdin := stdin s |}.

Definition set_terminal (t : utils_static * tty) (s : state) : state :=
  {| g_terminate_flag := g_terminate_flag s;
     g_sync_mode := g_sync_mode s;
     producer_threads := producer_threads s;
     producer_created_count := producer_created_count s;
     consumer_threads := consumer_threads s;
     consumer_created_count := consumer_created_count s;
     g_queue := g_queue s;
     utils := fst t;
     stdin := snd t |}.

(** What the calls of one command answer.  [pthread_create] stores
    [create_thread] through its first argument; when it fails the value
    stored is unspecified, so it is an input in that case too. *)
Record command_env := CommandEnv {
  args_ok : bool;                         (* malloc(sizeof(thread_args_t)) *)
  create_ret : Z;
  create_thread : Z;
  cancel_ret : Z;
  join_ret : Z;
  resize_heap : option (list message_t);
  resize_evs : list event
}.

(** Where the main thread is. *)
Inductive progress :=
| Looping        (* in the command loop *)
| LoopLeft       (* g_terminate_flag was found set *)
| Aborted        (* abort() *)
| Blocked.       (* inside queue_resize, waiting *)

(** One [queue_resize(g_queue, change)] of the main thread. *)
Definition resize_command (change : Z) (env : command_env) (s : state)
  : progress * state * list action :=
  let '(q, r) :=
    queue_resize (g_sync_mode s) (g_queue s) change (resize_heap env)
      (g_terminate_flag s) (resize_evs env) in
  (match ret r with Some _ => Looping | None => Blocked end,
   set_queue q (terminate r) s,
   map Sem (sems r)).

(** [case 'p':] *)
Definition add_producer (env : command_env) (s : state)
  : progress * state * list action :=
  if producer_created_count s <? MAX_PRODUCERS then
    if negb (args_ok env) then (Aborted, s, [])
    else
      let id := producer_created_count s + 1 in
      let ret := create_ret env in
      let threads :=
        <[Z.to_nat (producer_created_count s) := create_thread env]>
          (producer_threads s) in
      if ret =? 0 then
        (Looping,
         set_producers threads (producer_created_count s + 1) s,
         [PthreadCreate producer_thread_func id (create_thread env) ret])
      else
        (Looping,
         set_producers threads (producer_created_count s) s,
         [PthreadCreate producer_thread_func id (create_thread env) ret;
          FreeArgs])
  else (Looping, s, []).

(** [case 'c':] *)
Definition add_consumer (env : command_env) (s : state)
  : progress * state * list action :=
  if consumer_created_count s <? MAX_CONSUMERS then
    if negb (args_ok env) then (Aborted, s, [])
    else
      let id := consumer_created_count s + 1 in
      let ret := create_ret env in
      let threads :=
        <[Z.to_nat (consumer_created_count s) := create_thread env]>
          (consumer_threads s) in
      if ret =? 0 then
        (Looping,
         set_consumers threads (consumer_created_count s + 1) s,
         [PthreadCreate consumer_thread_func id (create_thread env) ret])
      else
        (Looping,
         set_consumers threads (consumer_created_count s) s,
         [PthreadCreate consumer_thread_func id (create_thread env) ret;
          FreeArgs])
  else (Looping, s, []).

(** [case 'P':] *)
Definition remove_last_producer (env : command_env) (s : state)
  : progress * state * list action :=
  if producer_created_count s >? 0 then
    let target_idx := producer_created_count s - 1 in
    let thread_to_cancel := producer_threads s !!! Z.to_nat target_idx in
    let cancel_ret := cancel_ret env in
    if cancel_ret =? 0 then
      let join_ret := join_ret env in
      if join_ret =? 0 then
        (Looping,
         set_producers (producer_threads s) (producer_created_count s - 1) s,
         [PthreadCancel thread_to_cancel cancel_ret;
          PthreadJoin thread_to_cancel join_ret])
      else
        (Looping, s,
         [PthreadCancel thread_to_cancel cancel_ret;
          PthreadJoin thread_to_cancel join_ret])
    else (Looping, s, [PthreadCancel thread_to_cancel cancel_ret])
  else (Looping, s, []).

(** [case 'C':] *)
Definition remove_last_consumer (env : command_env) (s : state)
  : progress * state * list action :=
  if consumer_created_count s >? 0 then
    let target_idx := consumer_created_count s - 1 in
    let thread_to_cancel := consumer_threads s !!! Z.to_nat target_idx in
    let cancel_ret := cancel_ret env in
    if cancel_ret =? 0 then
      let join_ret := join_ret env in
      if join_ret =? 0 then
        (Looping,
         set_consumers (consumer_threads s) (consumer_created_count s - 1) s,
         [PthreadCancel thread_to_cancel cancel_ret;
          PthreadJoin thread_to_cancel join_ret])
      else
        (Looping, s,
         [PthreadCancel thread_to_cancel cancel_ret;
          PthreadJoin thread_to_cancel join_ret])
    else (Looping, s, [PthreadCancel thread_to_cancel cancel_ret])
  else (Looping, s, []).

(** The [switch (command)] of the main loop; [case 's':] only prints. *)
Definition handle_command (command : ascii) (env : command_env) (s : state)
  : progress * state * list action :=
  match command with
  | "p"%char => add_producer env s
  | "c"%char => add_consumer env s
  | "P"%char => remove_last_producer env s
  | "C"%char => remove_last_consumer env s
  | "+"%char => resize_command RESIZE_STEP env s
  | "-"%char => resize_command (- RESIZE_STEP) env s
  | "s"%char => (Looping, s, [])
  | "q"%char => (Looping, set_flag true s, [])
  | _ => (Looping, s, [])
  end.

(** What happens between two tests of [while (!g_terminate_flag)]: the loop
    body runs once ([Poll], with what [kbhit] meets and what the calls of
    the command answer), or the worker threads and the signal handler act on
    the queue and the flag ([Workers], the calls in mutex order). *)
Inductive input :=
| Poll (r : read_result) (ungetc_ok : bool) (env : command_env)
| Workers (calls : list call).

Definition workers (calls : list call) (s : state) : state :=
  match g_queue s with
  | None => s
  | Some q =>
      let shared := shared_after (g_sync_mode s) calls q (g_terminate_flag s) in
      set_queue (Some (fst shared)) (snd shared) s
  end.

(** [while (!g_terminate_flag) { if (kbhit()) { command = (char)getchar();
    switch (command) ... } nanosleep(...); }] *)
Fixpoint main_loop (inputs : list input) (s : state)
  : progress * state * list action :=
  if g_terminate_flag s then (LoopLeft, s, [])
  else
    match inputs with
    | [] => (Looping, s, [])
    | Workers calls :: inputs' => main_loop inputs' (workers calls s)
    | Poll r ungetc_ok env :: inputs' =>
        match kbhit (utils s) r ungetc_ok with
        | (_, 1, Some command) =>
            match handle_command command env s with
            | (Looping, s, actions) =>
                let '(p, s, actions') := main_loop inputs' s in
                (p, s, actions ++ actions')
            | stopped => stopped
            end
        | _ => main_loop inputs' s
        end
    end.

(** What the calls of [cleanup_threads] answer; the joins by array index. *)
Record cleanup_env := CleanupEnv {
  cleanup_restore : restore_env;
  trylock_ret : Z;
  producer_join_ret : nat -> Z;
  consumer_join_ret : nat -> Z
}.

(** [for (int i = 0; i < created_count; ++i) pthread_join(threads[i], NULL);] *)
Definition join_all (threads : list Z) (created_count : Z)
    (join_ret : nat -> Z) : list action :=
  map (fun i => PthreadJoin (threads !!! i) (join_ret i))
    (seq 0 (Z.to_nat created_count)).

Definition cleanup_threads (env : cleanup_env) (s : state)
  : state * list action :=
  let s := set_terminal (restore_terminal (cleanup_restore env) (utils s) (stdin s)) s in
  let s := set_flag true s in
  let wake :=
    match g_queue s with
    | None => []
    | Some _ =>
        match g_sync_mode s with
        | SYNC_MODE_CONDVAR =>
            let ret_lock := trylock_ret env in
            if ret_lock =? 0
            then [MutexTrylock ret_lock; CondBroadcastNotEmpty;
                  CondBroadcastNotFull; MutexUnlock]
            else [MutexTrylock ret_lock]
        | SYNC_MODE_SEM =>
            concat
              (replicate (Z.to_nat (MAX_PRODUCERS + MAX_CONSUMERS + 5))
                 [Sem (SemPost empty_slots); Sem (SemPost full_slots)])
        end
    end in
  let joined_producers :=
    join_all (producer_threads s) (producer_created_count s)
      (producer_join_ret env) in
  let s := set_producers (producer_threads s) 0 s in
  let joined_consumers :=
    join_all (consumer_threads s) (consumer_created_count s)
      (consumer_join_ret env) in
  let s := set_consumers (consumer_threads s) 0 s in
  let destroyed := map Release (queue_destroy (g_queue s) (g_sync_mode s)) in
  let s := set_queue None (g_terminate_flag s) s in
  (s, wake ++ joined_producers ++ joined_consumers ++ destroyed).

(** What the calls of [main] outside the loop answer. *)
Record main_env := MainEnv {
  setup : setup_env;
  struct_ok : bool;                        (* queue_create: the queue_t *)
  heap : option (list message_t);          (* queue_create: the buffer *)
  init_ok : bool;                          (* queue_create: mutex, semaphores *)
  early_restore : restore_env;             (* restore_terminal in main *)
  handlers_ok : bool;                      (* sigemptyset, sigaction *)
  atexit_ok : bool;
  cleanup : cleanup_env
}.

(** How the process ends; [Running]: it has not ended. *)
Inductive ending :=
| Exit (status : Z)
| Abort
| Running.

(** The state when [main] starts: the initialisers of the globals and
    statics.  [original] is the zero-filled [original_termios], whose size
    depends on the platform; [terminal] is what standard input refers to. *)
Definition initial (original : termios) (terminal : tty) : state :=
  {| g_terminate_flag := false;
     g_sync_mode := SYNC_MODE_SEM;
     producer_threads := replicate (Z.to_nat MAX_PRODUCERS) 0;
     producer_created_count := 0;
     consumer_threads := replicate (Z.to_nat MAX_CONSUMERS) 0;
     consumer_created_count := 0;
     g_queue := None;
     utils := {| original_termios := original;
                 terminal_modified := 0;
                 original_fcntl_flags := 0 |};
     stdin := terminal |}.

(** [main] from "Determine synchronization mode" on, with [mode] the mode
    asked for on the command line, and the [atexit] handler when [main]
    returns from the loop. *)
Definition main `{platform} (mode : sync_mode_t) (env : main_env)
    (inputs : list input) (s : state) : ending * state * list action :=
  let s :=
    {| g_terminate_flag := g_terminate_flag s;
       g_sync_mode := mode;
       producer_threads := producer_threads s;
       producer_created_count := producer_created_count s;
       consumer_threads := consumer_threads s;
       consumer_created_count := consumer_created_count s;
       g_queue := g_queue s;
       utils := utils s;
       stdin := stdin s |} in
  match setup_terminal_noecho_nonblock (setup env) (utils s) (stdin s) with
  | (Exited status, st, terminal) =>
      (Exit status, set_terminal (st, terminal) s, [])
  | (Returned, st, terminal) =>
      let s := set_terminal (st, terminal) s in
      let s :=
        set_queue
          (queue_create INITIAL_QUEUE_CAPACITY (g_sync_mode s)
             (struct_ok env) (heap env) (init_ok env))
          (g_terminate_flag s) s in
      match g_queue s with
      | None =>
          (Exit EXIT_FAILURE,
           set_terminal
             (restore_terminal (early_restore env) (utils s) (stdin s)) s,
           [])
      | Some _ =>
          if negb (handlers_ok env) then (Exit EXIT_FAILURE, s, [])
          else if negb (atexit_ok env) then
            (Exit EXIT_FAILURE,
             set_terminal
               (restore_terminal (early_restore env) (utils s) (stdin s)) s,
             map Release (queue_destroy (g_queue s) (g_sync_mode s)))
          else
            match main_loop inputs s with
            | (LoopLeft, s, actions) =>
                let '(s, actions') := cleanup_threads (cleanup env) s in
                (Exit EXIT_SUCCESS, s, actions ++ actions')
            | (Aborted, s, actions) => (Abort, s, actions)
            | (_, s, actions) => (Running, s, actions)
            end
      end
  end.

(** ** The thread tables

    The threads a table holds are its first [created_count] entries. *)

Record table_ok (s : state) : Prop := {
  producers_bound : 0 <= producer_created_count s <= MAX_PRODUCERS;
  producers_array : length (producer_threads s) = Z.to_nat MAX_PRODUCERS;
  consumers_bound : 0 <= consumer_created_count s <= MAX_CONSUMERS;
  consumers_array : length (consumer_threads s) = Z.to_nat MAX_CONSUMERS
}.

Definition live_producers (s : state) : list Z :=
  take (Z.to_nat (producer_created_count s)) (producer_threads s).

Definition live_consumers (s : state) : list Z :=
  take (Z.to_nat (consumer_created_count s)) (consumer_threads s).

Definition live (s : state) : list Z := live_producers s ++ live_consumers s.

(** The threads of the [pthread_create] calls that returned 0. *)
Definition created (actions : list action) : list Z :=
  omap (fun a => match a with
                 | PthreadCreate _ _ thread ret =>
                     if ret =? 0 then Some thread else None
                 | _ => None
                 end) actions.

(** The threads of the [pthread_join] calls that returned 0. *)
Definition joined (actions : list action) : list Z :=
  omap (fun a => match a with
                 | PthreadJoin thread ret =>
                     if ret =? 0 then Some thread else None
                 | _ => None
                 end) actions.

(** The threads of all [pthread_join] calls. *)
Definition join_calls (actions : list action) : list Z :=
  omap (fun a => match a with
                 | PthreadJoin thread _ => Some thread
                 | _ => None
                 end) actions.

(** What was released. *)
Definition released (actions : list action) : list release :=
  omap (fun a => match a with Release r => Some r | _ => None end) actions.

(** The [id] given to a new thread is the index of its entry plus 1, inside
    the table. *)
Definition create_in_bounds (a : action) : Prop :=
  match a with
  | PthreadCreate producer_thread_func id _ _ => 1 <= id <= MAX_PRODUCERS
  | PthreadCreate consumer_thread_func id _ _ => 1 <= id <= MAX_CONSUMERS
  | _ => True
  end.

(** What one or more turns of the main loop keep. *)
Definition turn_ok (s : state) (r : progress * state * list action) : Prop :=
  let '(_, s', actions) := r in
  table_ok s' /\
  Permutation (created actions ++ live s) (joined actions ++ live s') /\
  Forall create_in_bounds actions /\
  utils s' = utils s /\
  stdin s' = stdin s /\
  g_sync_mode s' = g_sync_mode s.

(** The inputs without the turns of the loop body. *)
Fixpoint only_workers (inputs : list input) : list input :=
  match inputs with
  | [] => []
  | Workers calls :: inputs' => Workers calls :: only_workers inputs'
  | Poll _ _ _ :: inputs' => only_workers inputs'
  end.

(** A command environment in which every call succeeds and [pthread_create]
    stores [thread]. *)
Definition succeeding (thread : Z) : command_env :=
  {| args_ok := true; create_ret := 0; create_thread := thread;
     cancel_ret := 0; join_ret := 0;
     resize_heap := Some []; resize_evs := [] |}.

Definition key (command : ascii) (thread : Z) : input :=
  Poll (ReadByte command) true (succeeding thread).

Definition sample_cleanup : cleanup_env :=
  {| cleanup_restore := RestoreEnv true true;
     trylock_ret := 0;
     producer_join_ret := fun _ => 0;
     consumer_join_ret := fun _ => 0 |}.

Definition sample_main_env : main_env :=
  {| setup := all_succeed;
     struct_ok := true;
     heap := Some [];
     init_ok := true;
     early_restore := RestoreEnv true true;
     handlers_ok := true;
     atexit_ok := true;
     cleanup := sample_cleanup |}.

(** The state once [main] has set up the terminal and created a queue, and
    the keys p, c, p, P, q with threads 101, 201 and 102 created. *)
Definition sample_started : state :=
  {| g_terminate_flag := false;
     g_sync_mode := SYNC_MODE_SEM;
     producer_threads := replicate 10 0;
     producer_created_count := 0;
     consumer_threads := replicate 10 0;
     consumer_created_count := 0;
     g_queue := Some sample_created;
     utils := {| original_termios := sample_termios;
                 terminal_modified := 1;
                 original_fcntl_flags := 2 |};
     stdin := sample_tty |}.

Definition sample_inputs : list input :=
  [key "p" 101; key "c" 201; key "p" 102; key "P" 0; key "q" 0].

(** Standard input that is no terminal. *)
Definition sample_pipe : tty :=
  {| isatty := false; attributes := sample_termios; file_status_flags := 0 |}.

End Main.

(** * The earlier revision of [queue_resize]

    [queue_manager.c] defines every function twice.  The first
    [queue_resize] (lines 291-378) keeps the block and the indices: it calls
    [realloc] and takes [head_idx] and [tail_idx] modulo the new capacity,
    and its shrink loop calls [sem_wait] again after [EINTR] whether
    [g_terminate_flag] is set or not.  The statements of [queue_add] and
    [queue_remove] between lock and unlock are the same in the two revisions
    (lines 151-154 and 183-186, 625-628 and 674-677): [enqueue], [front] and
    [dequeue]. *)

Module Earlier.

(** [while (sem_wait(&q->empty_slots) == -1) {
       if (errno == EINTR) { if (g_terminate_flag) { } continue; }
       else { ..; goto unlock_and_fail; } }]
    The body of [if (g_terminate_flag)] is empty. *)
Fixpoint sem_wait_loop (flag : bool) (evs : list event)
  : waited * bool * list event :=
  match evs with
  | [] => (Waiting, flag, [])
  | Signal :: evs' => sem_wait_loop true evs'
  | Return ret errno :: evs' =>
      if ret =? -1 then
        if errno =? EINTR then sem_wait_loop flag evs'
        else (WaitFailed, flag, evs')
      else (Acquired, flag, evs')
  end.

(** [for (size_t i = 0; i < removed_slots; ++i) while (sem_wait(..) == -1) ..]
    with [n] slots still to take back; the result counts the permits taken. *)
Fixpoint reclaim_slots (n : nat) (flag : bool) (evs : list event)
  : waited * bool * nat :=
  match n with
  | O => (Acquired, flag, O)
  | S n' =>
      match sem_wait_loop flag evs with
      | (Acquired, flag, evs') =>
          let '(w, flag, taken) := reclaim_slots n' flag evs' in
          (w, flag, S taken)
      | (w, flag, _) => (w, flag, O)
      end
  end.

(** The capacity aimed at, for [change <> 0]; [(size_t)(-change)] as in
    [new_capacity_of]. *)
Definition new_capacity_of (current_capacity change : Z) : Z :=
  if change >? 0 then
    let new_capacity := to_size_t (current_capacity + to_size_t change) in
    if new_capacity >? MAX_QUEUE_CAPACITY then MAX_QUEUE_CAPACITY
    else new_capacity
  else
    let decrease_amount := to_size_t (- change) in
    let new_capacity :=
      if decrease_amount >=? current_capacity then MIN_QUEUE_CAPACITY
      else to_size_t (current_capacity - decrease_amount) in
    if new_capacity <? MIN_QUEUE_CAPACITY then MIN_QUEUE_CAPACITY
    else new_capacity.

(** [realloc(q->messages, new_capacity * sizeof(message_t))]: [None] when it
    fails, and the old block stays; otherwise a block of [n] records that
    begins with the records of the old block, as many as fit, followed by
    whatever was there ([garbage]). *)
Definition realloc (old : list message_t) (n : Z)
    (heap : option (list message_t)) : option (list message_t) :=
  match heap with
  | None => None
  | Some garbage => Some (resize (Z.to_nat n) zero_message (old ++ garbage))
  end.

Definition queue_resize (g_sync_mode : sync_mode_t)
    (q : option queue_t) (change : Z) (heap : option (list message_t))
    (flag : bool) (evs : list event) : option queue_t * reply :=
  match q with
  | None => (None, returns (-1) flag [])
  | Some q =>
      if change =? 0 then (Some q, returns (-1) flag [])
      else
        let current_capacity := capacity q in
        let current_count := count q in
        let new_capacity := new_capacity_of current_capacity change in
        if new_capacity =? current_capacity then (Some q, returns 0 flag [])
        else if (new_capacity <? current_capacity)
                && (new_capacity <? current_count)
        then (Some q, returns (-1) flag [])
        else
          match realloc (messages q) new_capacity heap with
          | None => (Some q, returns (-1) flag [])
          | Some new_buffer =>
              let old_capacity := capacity q in
              let q :=
                {| messages := new_buffer;
                   capacity := new_capacity;
                   count := count q;
                   head_idx := to_int (to_size_t (head_idx q) mod new_capacity);
                   tail_idx := to_int (to_size_t (tail_idx q) mod new_capacity);
                   added_count_total := added_count_total q;
                   extracted_count_total := extracted_count_total q |} in
              match g_sync_mode with
              | SYNC_MODE_SEM =>
                  if new_capacity >? old_capacity then
                    let added_slots := to_size_t (new_capacity - old_capacity) in
                    (Some q,
                     returns 0 flag
                       (replicate (Z.to_nat added_slots) (SemPost empty_slots)))
                  else
                    let removed_slots := to_size_t (old_capacity - new_capacity) in
                    match reclaim_slots (Z.to_nat removed_slots) flag evs with
                    | (Acquired, flag, taken) =>
                        (Some q,
                         returns 0 flag (replicate taken (SemWait empty_slots)))
                    | (Waiting, flag, taken) =>
                        (Some q,
                         blocked flag (replicate taken (SemWait empty_slots)))
                    | (WaitFailed, flag, taken) | (Terminating, flag, taken) =>
                        (* [Terminating] is no result of this loop *)
                        (Some q,
                         returns (-1) flag (replicate taken (SemWait empty_slots)))
                    end
              | SYNC_MODE_CONDVAR => (Some q, returns 0 flag [])
              end
          end
  end.

End Earlier.

(** A queue of capacity 5 whose items wrap around the end of the block: 1,
    2, 3 are added and removed, then 4, 5, 6, 7 are added, into slots 3, 4,
    0 and 1. *)
Definition wrapped_calls : list call :=
  [Add (sample_message 1) at_once; Add (sample_message 2) at_once;
   Add (sample_message 3) at_once;
   Remove at_once; Remove at_once; Remove at_once;
   Add (sample_message 4) at_once; Add (sample_message 5) at_once;
   Add (sample_message 6) at_once; Add (sample_message 7) at_once].

Definition wrapped_queue : queue_t :=
  g_queue (run SYNC_MODE_SEM wrapped_calls (start sample_created)).

(** * Proofs *)

(** ** Integer conversions on values in range *)

Arguments to_uchar : simpl never.
Arguments to_ushort : simpl never.
Arguments to_size_t : simpl never.
Arguments to_ulong : simpl never.
Arguments to_int : simpl never.

Lemma to_size_t_small z : 0 <= z < 2 ^ 64 -> to_size_t z = z.
Proof. intros H. unfold to_size_t. apply Z.mod_small. exact H. Qed.

Lemma to_ulong_small z : 0 <= z < 2 ^ 64 -> to_ulong z = z.
Proof. intros H. unfold to_ulong. apply Z.mod_small. exact H. Qed.

Lemma to_int_small z : - 2 ^ 31 <= z < 2 ^ 31 -> to_int z = z.
Proof.
  intros H. unfold to_int.
  rewrite Z.mod_small; lia.
Qed.

Lemma to_ushort_idem z : to_ushort (to_ushort z) = to_ushort z.
Proof. unfold to_ushort. apply Z.mod_mod. lia. Qed.

(** ** The checksum *)

Lemma hash_step_rolling h b : hash_step h b = to_ushort (rolling_step h b).
Proof.
  unfold hash_step, rolling_step. f_equal.
  rewrite Z.shiftl_mul_pow2 by lia. lia.
Qed.

Lemma hash_step_to_ushort h b : hash_step (to_ushort h) b = hash_step h b.
Proof.
  rewrite !hash_step_rolling. unfold rolling_step, to_ushort.
  rewrite Z.add_mod by lia.
  rewrite Z.mul_mod_idemp_l by lia.
  rewrite <- Z.add_mod by lia. reflexivity.
Qed.

(** The loop reads [byte_ptr[i]], [byte_ptr[i+1]], ... *)
Lemma hash_loop_fold byte_ptr n : forall i h,
  hash_loop byte_ptr i n h =
  fold_left hash_step (map (fun k => nth k byte_ptr 0) (seq i n)) h.
Proof.
  induction n as [|n IH]; intros i h; simpl.
  - reflexivity.
  - apply IH.
Qed.

Lemma read_prefix (l : list Z) n : forall i,
  (i + n <= length l)%nat ->
  map (fun k => nth k l 0) (seq i n) = firstn n (skipn i l).
Proof.
  induction n as [|n IH]; intros i Hlen; simpl.
  - reflexivity.
  - destruct (skipn i l) as [|x rest] eqn:Hskip.
    + assert (length (skipn i l) = 0%nat) as Hz by (rewrite Hskip; reflexivity).
      rewrite length_skipn in Hz. lia.
    + simpl. f_equal.
      * rewrite <- (firstn_skipn i l) at 1.
        rewrite app_nth2 by (rewrite length_firstn; lia).
        rewrite length_firstn, Hskip.
        replace (i - Init.Nat.min i (length l))%nat with 0%nat by lia.
        reflexivity.
      * rewrite IH by lia. f_equal.
        replace (S i) with (1 + i)%nat by lia.
        rewrite <- skipn_skipn, Hskip. reflexivity.
Qed.

Lemma fold_hash_step_rolling bytes : forall h,
  fold_left hash_step bytes (to_ushort h) =
  to_ushort (fold_left rolling_step bytes h).
Proof.
  induction bytes as [|b bytes IH]; intros h; simpl.
  - reflexivity.
  - rewrite hash_step_to_ushort, hash_step_rolling. apply IH.
Qed.

Lemma calculate_message_hash_fold msg :
  calculate_message_hash msg =
  fold_left hash_step
    (type msg :: size msg ::
       map (fun k => nth k (data msg) 0) (seq 0 (Z.to_nat (size msg)))) 0.
Proof.
  unfold calculate_message_hash. rewrite hash_loop_fold. reflexivity.
Qed.

Lemma calculate_message_hash_rolling msg :
  size msg <= Z.of_nat (length (data msg)) ->
  calculate_message_hash msg = rolling_hash (hashed_bytes msg).
Proof.
  intros Hsize. rewrite calculate_message_hash_fold.
  rewrite read_prefix by lia. simpl skipn.
  unfold rolling_hash, hashed_bytes.
  rewrite <- fold_hash_step_rolling. reflexivity.
Qed.

Lemma calculate_message_hash_set_hash msg h :
  calculate_message_hash (set_hash msg h) = calculate_message_hash msg.
Proof. reflexivity. Qed.

Lemma calculate_message_hash_range msg :
  0 <= calculate_message_hash msg < 65536.
Proof.
  rewrite calculate_message_hash_fold.
  match goal with |- context [fold_left hash_step ?l 0] =>
    pose proof (fold_hash_step_rolling l 0) as Hfold end.
  change (to_ushort 0) with 0 in Hfold. rewrite Hfold.
  unfold to_ushort. apply Z.mod_pos_bound. lia.
Qed.

(** Reading below [n] only sees the first [n] bytes. *)
Lemma read_firstn (l1 l2 : list Z) n :
  firstn n l1 = firstn n l2 ->
  map (fun k => nth k l1 0) (seq 0 n) = map (fun k => nth k l2 0) (seq 0 n).
Proof.
  intros Heq. apply map_ext_in. intros k Hk. apply in_seq in Hk.
  rewrite <- (firstn_skipn n l1), <- (firstn_skipn n l2).
  destruct (Nat.lt_ge_cases k (length (firstn n l1))) as [Hin | Hout].
  - rewrite !app_nth1 by (rewrite <- ?Heq; exact Hin).
    rewrite Heq. reflexivity.
  - (* both lists are shorter than [n]: each is its own prefix *)
    assert (length l1 < n)%nat as H1 by (rewrite length_firstn in Hout; lia).
    assert (length l2 < n)%nat as H2.
    { assert (length (firstn n l2) = length (firstn n l1)) as Hl
        by (rewrite Heq; reflexivity).
      rewrite !length_firstn in Hl. lia. }
    rewrite !firstn_skipn.
    rewrite firstn_all2 in Heq by lia.
    rewrite (firstn_all2 l2) in Heq by lia.
    rewrite Heq. reflexivity.
Qed.

Lemma calculate_message_hash_agree m1 m2 :
  type m1 = type m2 ->
  size m1 = size m2 ->
  firstn (Z.to_nat (size m1)) (data m1) = firstn (Z.to_nat (size m1)) (data m2) ->
  calculate_message_hash m1 = calculate_message_hash m2.
Proof.
  intros Ht Hs Hd. rewrite !calculate_message_hash_fold.
  rewrite <- Ht, <- Hs. rewrite (read_firstn _ _ _ Hd). reflexivity.
Qed.

Lemma consumer_check_producer_make msg rnd :
  consumer_check (producer_make msg rnd) = true.
Proof.
  unfold consumer_check, producer_make.
  rewrite calculate_message_hash_set_hash. simpl hash.
  apply Z.eqb_eq.
  apply calculate_message_hash_agree; reflexivity.
Qed.

(** ** Ring arithmetic *)

Lemma slots_differ h c i j :
  0 <= i < j -> j < c -> (h + i) mod c <> (h + j) mod c.
Proof.
  intros Hij Hjc Heq.
  assert (((h + j) - (h + i)) mod c = 0) as Hz.
  { rewrite Zminus_mod, Heq, Z.sub_diag. apply Z.mod_0_l. lia. }
  replace (h + j - (h + i)) with (j - i) in Hz by lia.
  rewrite Z.mod_small in Hz; lia.
Qed.

Lemma next_index idx cap :
  MIN_QUEUE_CAPACITY <= cap <= MAX_QUEUE_CAPACITY ->
  0 <= idx < cap ->
  to_int (to_size_t (idx + 1) mod cap) = (idx + 1) mod cap.
Proof.
  unfold MIN_QUEUE_CAPACITY, MAX_QUEUE_CAPACITY. intros Hcap Hidx.
  rewrite to_size_t_small by lia.
  apply to_int_small.
  pose proof (Z.mod_pos_bound (idx + 1) cap). lia.
Qed.

Lemma mod_index_range h cap :
  MIN_QUEUE_CAPACITY <= cap -> 0 <= h mod cap < cap.
Proof. unfold MIN_QUEUE_CAPACITY. intros. apply Z.mod_pos_bound. lia. Qed.

(** ** The invariant is kept *)

Lemma slot_in_block q i :
  queue_inv q -> (slot q i < length (messages q))%nat.
Proof.
  intros [Hcap _ _ _ Hblock _ _ _]. unfold slot.
  pose proof (mod_index_range (head_idx q + Z.of_nat i) (capacity q)
                ltac:(lia)).
  lia.
Qed.

Lemma enqueue_inv q msg :
  queue_inv q -> count q < capacity q -> queue_inv (enqueue q msg).
Proof.
  intros [Hcap Hcount Hhead Htail Hblock Hadd Hext Htot] Hroom.
  pose proof Hcap as Hcap'. unfold MIN_QUEUE_CAPACITY, MAX_QUEUE_CAPACITY in Hcap'.
  assert (0 <= tail_idx q < capacity q) as Htl
    by (rewrite Htail; apply mod_index_range; lia).
  constructor; simpl.
  - exact Hcap.
  - rewrite to_size_t_small by lia. lia.
  - exact Hhead.
  - rewrite next_index by assumption.
    rewrite to_size_t_small by lia.
    rewrite Htail, Zplus_mod_idemp_l. f_equal. lia.
  - rewrite length_insert. exact Hblock.
  - unfold to_ulong. apply Z.mod_pos_bound. lia.
  - exact Hext.
  - rewrite (to_size_t_small (count q + 1)) by lia.
    unfold to_ulong in *.
    rewrite Zminus_mod_idemp_l.
    replace (added_count_total q + 1 - extracted_count_total q)
      with ((added_count_total q - extracted_count_total q) + 1) by lia.
    rewrite <- Zplus_mod_idemp_l, Htot.
    apply Z.mod_small. lia.
Qed.

Lemma dequeue_inv q :
  queue_inv q -> count q <> 0 -> queue_inv (dequeue q).
Proof.
  intros [Hcap Hcount Hhead Htail Hblock Hadd Hext Htot] Hsome.
  pose proof Hcap as Hcap'. unfold MIN_QUEUE_CAPACITY, MAX_QUEUE_CAPACITY in Hcap'.
  constructor; simpl.
  - exact Hcap.
  - rewrite to_size_t_small by lia. lia.
  - rewrite next_index by assumption. apply mod_index_range. lia.
  - rewrite next_index by assumption.
    rewrite to_size_t_small by lia.
    rewrite Htail, Zplus_mod_idemp_l. f_equal. lia.
  - exact Hblock.
  - exact Hadd.
  - unfold to_ulong. apply Z.mod_pos_bound. lia.
  - rewrite (to_size_t_small (count q - 1)) by lia.
    unfold to_ulong in *.
    rewrite Zminus_mod_idemp_r.
    replace (added_count_total q - (extracted_count_total q + 1))
      with ((added_count_total q - extracted_count_total q) - 1) by lia.
    rewrite <- Zminus_mod_idemp_l, Htot.
    apply Z.mod_small. lia.
Qed.

(** ** Logical contents *)

Lemma contents_length q : length (contents q) = Z.to_nat (count q).
Proof. unfold contents. rewrite length_map, length_seq. reflexivity. Qed.

Lemma contents_enqueue q msg :
  queue_inv q -> count q < capacity q ->
  contents (enqueue q msg) = contents q ++ [msg].
Proof.
  intros Hinv Hroom.
  pose proof Hinv as [Hcap Hcount Hhead Htail Hblock Hadd Hext Htot].
  pose proof Hcap as Hcap'. unfold MIN_QUEUE_CAPACITY, MAX_QUEUE_CAPACITY in Hcap'.
  unfold contents. simpl count.
  rewrite to_size_t_small by lia.
  replace (Z.to_nat (count q + 1)) with (Z.to_nat (count q) + 1)%nat by lia.
  rewrite seq_app, map_app. simpl.
  assert (Z.to_nat (tail_idx q) = slot q (Z.to_nat (count q))) as Htl.
  { unfold slot. rewrite Htail. f_equal. f_equal. lia. }
  f_equal.
  - apply map_ext_in. intros i Hi. apply in_seq in Hi.
    unfold slot at 1. simpl head_idx. simpl capacity. fold (slot q i).
    rewrite Htl. apply list_lookup_total_insert_ne.
    unfold slot. intros Heq. apply Z2Nat.inj in Heq.
    + symmetry in Heq. revert Heq. apply slots_differ; lia.
    + apply mod_index_range. lia.
    + apply mod_index_range. lia.
  - f_equal. unfold slot at 1. simpl head_idx. simpl capacity.
    fold (slot q (Z.to_nat (count q))). rewrite Htl.
    apply list_lookup_total_insert_eq. apply slot_in_block. exact Hinv.
Qed.

Lemma contents_dequeue q :
  queue_inv q -> count q <> 0 ->
  contents q = front q :: contents (dequeue q).
Proof.
  intros Hinv Hsome.
  pose proof Hinv as [Hcap Hcount Hhead Htail Hblock Hadd Hext Htot].
  pose proof Hcap as Hcap'. unfold MIN_QUEUE_CAPACITY, MAX_QUEUE_CAPACITY in Hcap'.
  unfold contents. simpl count.
  rewrite to_size_t_small by lia.
  replace (Z.to_nat (count q)) with (S (Z.to_nat (count q - 1))) by lia.
  simpl seq. simpl map. f_equal.
  - unfold front, slot. f_equal. f_equal.
    rewrite Z.add_0_r. apply Z.mod_small. exact Hhead.
  - rewrite <- seq_shift, map_map.
    apply map_ext. intros i.
    unfold slot. simpl head_idx. simpl capacity. simpl messages.
    rewrite next_index by assumption.
    rewrite Zplus_mod_idemp_l. f_equal. f_equal. f_equal. lia.
Qed.

(** ** Resizing *)

Lemma new_capacity_range old change :
  MIN_QUEUE_CAPACITY <= old <= MAX_QUEUE_CAPACITY ->
  MIN_QUEUE_CAPACITY <= new_capacity_of old change <= MAX_QUEUE_CAPACITY.
Proof.
  unfold new_capacity_of, MIN_QUEUE_CAPACITY, MAX_QUEUE_CAPACITY. intros Hold.
  rewrite (to_size_t_small (100 - old)) by lia.
  pose proof (Z.mod_pos_bound change (2 ^ 64) ltac:(lia)) as Hc.
  pose proof (Z.mod_pos_bound (- change) (2 ^ 64) ltac:(lia)) as Hd.
  fold (to_size_t change) in Hc. fold (to_size_t (- change)) in Hd.
  destruct (change >? 0).
  - destruct (Z.gtb_spec (to_size_t change) (100 - old)).
    + simpl. lia.
    + rewrite (to_size_t_small (old + _)) by lia.
      destruct (Z.gtb_spec (old + to_size_t change) 100); lia.
  - destruct (Z.geb_spec (to_size_t (- change)) old).
    + simpl. lia.
    + rewrite (to_size_t_small (old - _)) by lia.
      destruct (Z.ltb_spec (old - to_size_t (- change)) 1); lia.
Qed.

(** The code computes the clamped sum of the specification. *)
Lemma new_capacity_clamped old change :
  MIN_QUEUE_CAPACITY <= old <= MAX_QUEUE_CAPACITY ->
  INT_MIN <= change <= INT_MAX ->
  new_capacity_of old change = clamped_capacity old change.
Proof.
  unfold new_capacity_of, clamped_capacity, INT_MIN, INT_MAX,
    MIN_QUEUE_CAPACITY, MAX_QUEUE_CAPACITY.
  intros Hold Hchange.
  rewrite (to_size_t_small (100 - old)) by lia.
  destruct (Z.gtb_spec change 0).
  - rewrite (to_size_t_small change) by lia.
    destruct (Z.gtb_spec change (100 - old)).
    + simpl. lia.
    + rewrite (to_size_t_small (old + change)) by lia.
      destruct (Z.gtb_spec (old + change) 100); lia.
  - rewrite (to_size_t_small (- change)) by lia.
    destruct (Z.geb_spec (- change) old).
    + simpl. lia.
    + rewrite (to_size_t_small (old - - change)) by lia.
      destruct (Z.ltb_spec (old - - change) 1); lia.
Qed.

Lemma copy_messages_length old h c n : forall i new,
  length (copy_messages old h c i n new) = length new.
Proof.
  induction n as [|n IH]; intros i new; simpl.
  - reflexivity.
  - rewrite IH, length_insert. reflexivity.
Qed.

Lemma copy_messages_lookup old h c n : forall i new j,
  (i + n <= length new)%nat ->
  copy_messages old h c i n new !!! j =
  if decide (i <= j < i + n)%nat
  then old !!! Z.to_nat (to_size_t (h + Z.of_nat j) mod c)
  else new !!! j.
Proof.
  induction n as [|n IH]; intros i new j Hlen; simpl.
  - case_decide; [lia | reflexivity].
  - rewrite IH by (rewrite length_insert; lia).
    destruct (decide (j = i)) as [-> | Hne].
    + rewrite decide_False by lia. rewrite decide_True by lia.
      apply list_lookup_total_insert_eq. lia.
    + rewrite list_lookup_total_insert_ne by congruence.
      repeat case_decide; try lia; reflexivity.
Qed.

Lemma malloc_length n heap block :
  malloc n heap = Some block -> length block = Z.to_nat n.
Proof.
  unfold malloc. destruct heap as [garbage|]; [| discriminate].
  intros [= <-]. apply length_resize.
Qed.

Lemma relocated_inv q n block :
  queue_inv q ->
  MIN_QUEUE_CAPACITY <= n <= MAX_QUEUE_CAPACITY ->
  count q <= n ->
  length block = Z.to_nat n ->
  queue_inv (relocated q n block).
Proof.
  intros [Hcap Hcount Hhead Htail Hblock Hadd Hext Htot] Hn Hfit Hlen.
  pose proof Hn as Hn'. unfold MIN_QUEUE_CAPACITY, MAX_QUEUE_CAPACITY in Hn'.
  constructor; simpl.
  - exact Hn.
  - lia.
  - lia.
  - destruct (Z.eqb_spec (count q) n) as [-> | Hne].
    + replace (n >? 0) with true by (symmetry; apply Z.gtb_lt; lia).
      simpl. rewrite Z.mod_same; lia.
    + simpl. rewrite to_int_small by lia.
      rewrite Z.mod_small; lia.
  - rewrite copy_messages_length, Hlen. lia.
  - exact Hadd.
  - exact Hext.
  - exact Htot.
Qed.

Lemma contents_relocated q n block :
  queue_inv q ->
  MIN_QUEUE_CAPACITY <= n <= MAX_QUEUE_CAPACITY ->
  count q <= n ->
  length block = Z.to_nat n ->
  contents (relocated q n block) = contents q.
Proof.
  intros [Hcap Hcount Hhead Htail Hblock Hadd Hext Htot] Hn Hfit Hlen.
  pose proof Hn as Hn'. unfold MIN_QUEUE_CAPACITY, MAX_QUEUE_CAPACITY in Hn'.
  pose proof Hcap as Hcap'. unfold MIN_QUEUE_CAPACITY, MAX_QUEUE_CAPACITY in Hcap'.
  unfold contents. simpl count.
  apply map_ext_in. intros i Hi. apply in_seq in Hi.
  unfold slot at 1. simpl.
  rewrite Z.mod_small by lia. rewrite Z.add_0_l, Nat2Z.id.
  rewrite copy_messages_lookup by lia.
  rewrite decide_True by lia.
  rewrite to_size_t_small by lia. reflexivity.
Qed.

(** The first [count] records of the new block are the items, oldest
    first. *)
Lemma relocated_block q n block :
  queue_inv q ->
  MIN_QUEUE_CAPACITY <= n <= MAX_QUEUE_CAPACITY ->
  count q <= n ->
  length block = Z.to_nat n ->
  firstn (Z.to_nat (count q)) (messages (relocated q n block)) = contents q.
Proof.
  intros Hinv Hn Hfit Hlen.
  pose proof Hinv as [Hcap Hcount Hhead Htail Hblock Hadd Hext Htot].
  pose proof Hn as Hn'. unfold MIN_QUEUE_CAPACITY, MAX_QUEUE_CAPACITY in Hn'.
  pose proof Hcap as Hcap'. unfold MIN_QUEUE_CAPACITY, MAX_QUEUE_CAPACITY in Hcap'.
  apply list_eq. intros i.
  destruct (decide (i < Z.to_nat (count q))%nat) as [Hi | Hi].
  - rewrite lookup_take_lt by exact Hi.
    assert (i < length (messages (relocated q n block)))%nat as Hin.
    { simpl. rewrite copy_messages_length. lia. }
    rewrite (list_lookup_lookup_total_lt _ _ Hin).
    unfold contents. rewrite list_lookup_fmap.
    rewrite lookup_seq_lt by exact Hi. simpl.
    rewrite copy_messages_lookup by lia.
    rewrite decide_True by lia.
    rewrite to_size_t_small by lia. reflexivity.
  - rewrite lookup_take_ge by lia.
    symmetry. apply lookup_ge_None. rewrite contents_length. lia.
Qed.

(** ** What a call can do to the queue *)

Lemma queue_add_sem_cases q msg flag evs :
  forall q' r, queue_add_sem q msg flag evs = (q', r) ->
  (q' = q /\ ret r <> Some 0 /\ msg_out r = None) \/
  (q' = enqueue q msg /\ ret r = Some 0 /\ count q < capacity q /\
   terminate r = false).
Proof.
  intros q' r. unfold queue_add_sem.
  destruct (sem_wait_loop flag evs) as [[w f] rest].
  destruct w; try (intros [= <- <-]; left; repeat split; discriminate).
  destruct f; try (intros [= <- <-]; left; repeat split; discriminate).
  destruct (Z.geb_spec (count q) (capacity q));
    intros [= <- <-]; [left | right]; repeat split; try discriminate; lia.
Qed.

Lemma queue_add_condvar_cases q msg flag evs :
  forall q' r, queue_add_condvar q msg flag evs = (q', r) ->
  (q' = q /\ ret r <> Some 0 /\ msg_out r = None) \/
  (q' = enqueue q msg /\ ret r = Some 0 /\ count q < capacity q /\
   terminate r = false).
Proof.
  intros q' r. unfold queue_add_condvar.
  destruct (cond_wait_loop (count q =? capacity q) flag evs) as [w f].
  destruct w; try (intros [= <- <-]; left; repeat split; discriminate).
  destruct f; try (intros [= <- <-]; left; repeat split; discriminate).
  destruct (Z.geb_spec (count q) (capacity q));
    intros [= <- <-]; [left | right]; repeat split; try discriminate; lia.
Qed.

Lemma queue_remove_sem_cases q flag evs :
  forall q' r, queue_remove_sem q flag evs = (q', r) ->
  (q' = q /\ ret r <> Some 0 /\ msg_out r = None) \/
  (q' = dequeue q /\ ret r = Some 0 /\ msg_out r = Some (front q) /\
   count q <> 0 /\ terminate r = false).
Proof.
  intros q' r. unfold queue_remove_sem.
  destruct (sem_wait_loop flag evs) as [[w f] rest].
  destruct w; try (intros [= <- <-]; left; repeat split; discriminate).
  destruct f; try (intros [= <- <-]; left; repeat split; discriminate).
  destruct (Z.eqb_spec (count q) 0);
    intros [= <- <-]; [left | right]; repeat split; try discriminate; lia.
Qed.

Lemma queue_remove_condvar_cases q flag evs :
  forall q' r, queue_remove_condvar q flag evs = (q', r) ->
  (q' = q /\ ret r <> Some 0 /\ msg_out r = None) \/
  (q' = dequeue q /\ ret r = Some 0 /\ msg_out r = Some (front q) /\
   count q <> 0 /\ terminate r = false).
Proof.
  intros q' r. unfold queue_remove_condvar.
  destruct (cond_wait_loop (count q =? 0) flag evs) as [w f].
  destruct w; try (intros [= <- <-]; left; repeat split; discriminate).
  destruct f; try (intros [= <- <-]; left; repeat split; discriminate).
  destruct (Z.eqb_spec (count q) 0);
    intros [= <- <-]; [left | right]; repeat split; try discriminate; lia.
Qed.

Lemma queue_add_cases mode q msg flag evs :
  exists q' r,
    queue_add mode (Some q) (Some msg) flag evs = (Some q', r) /\
    ((q' = q /\ ret r <> Some 0 /\ msg_out r = None) \/
     (q' = enqueue q msg /\ ret r = Some 0 /\ count q < capacity q /\
      terminate r = false)).
Proof.
  unfold queue_add. destruct mode.
  - destruct (queue_add_sem q msg flag evs) as [q' r] eqn:Hcall.
    exists q', r. split; [reflexivity |].
    eapply queue_add_sem_cases; eassumption.
  - destruct (queue_add_condvar q msg flag evs) as [q' r] eqn:Hcall.
    exists q', r. split; [reflexivity |].
    eapply queue_add_condvar_cases; eassumption.
Qed.

Lemma queue_remove_cases mode q msg flag evs :
  exists q' r,
    queue_remove mode (Some q) (Some msg) flag evs = (Some q', r) /\
    ((q' = q /\ ret r <> Some 0 /\ msg_out r = None) \/
     (q' = dequeue q /\ ret r = Some 0 /\ msg_out r = Some (front q) /\
      count q <> 0 /\ terminate r = false)).
Proof.
  unfold queue_remove. destruct mode.
  - destruct (queue_remove_sem q flag evs) as [q' r] eqn:Hcall.
    exists q', r. split; [reflexivity |].
    eapply queue_remove_sem_cases; eassumption.
  - destruct (queue_remove_condvar q flag evs) as [q' r] eqn:Hcall.
    exists q', r. split; [reflexivity |].
    eapply queue_remove_condvar_cases; eassumption.
Qed.

(** [queue_resize] leaves the queue as it was or relocates it. *)
Lemma queue_resize_cases mode q change heap flag evs :
  exists q' r,
    queue_resize mode (Some q) change heap flag evs = (Some q', r) /\
    (q' = q \/
     exists block,
       malloc (new_capacity_of (capacity q) change) heap = Some block /\
       change <> 0 /\
       new_capacity_of (capacity q) change <> capacity q /\
       count q <= new_capacity_of (capacity q) change /\
       q' = relocated q (new_capacity_of (capacity q) change) block).
Proof.
  unfold queue_resize.
  destruct (Z.eqb_spec change 0) as [Hz | Hnz]; [eauto |].
  destruct (Z.eqb_spec (new_capacity_of (capacity q) change) (capacity q))
    as [Hsame | Hdiff]; [eauto |].
  destruct (Z.ltb_spec (new_capacity_of (capacity q) change) (count q))
    as [Hsmall | Hfit]; [eauto |].
  destruct (malloc (new_capacity_of (capacity q) change) heap)
    as [block|] eqn:Hblock; [| eauto].
  cbv zeta.
  assert (forall r : reply,
    exists q' r',
      (Some (relocated q (new_capacity_of (capacity q) change) block), r)
        = (Some q', r') /\
      (q' = q \/
       exists block0,
         Some block = Some block0 /\
         change <> 0 /\
         new_capacity_of (capacity q) change <> capacity q /\
         count q <= new_capacity_of (capacity q) change /\
         q' = relocated q (new_capacity_of (capacity q) change) block0))
    as Hmoved.
  { intros r. eexists _, r. split; [reflexivity |]. right.
    exists block. repeat split; assumption. }
  destruct mode; [| apply Hmoved].
  destruct (new_capacity_of (capacity q) change >? capacity q);
    [apply Hmoved |].
  destruct (reclaim_slots _ flag evs) as [[w f] taken].
  destruct w; apply Hmoved.
Qed.

(** An accepted change relocates the queue, whatever the call returns. *)
Lemma queue_resize_accepted mode q change heap block flag evs :
  change <> 0 ->
  new_capacity_of (capacity q) change <> capacity q ->
  count q <= new_capacity_of (capacity q) change ->
  malloc (new_capacity_of (capacity q) change) heap = Some block ->
  exists r,
    queue_resize mode (Some q) change heap flag evs
    = (Some (relocated q (new_capacity_of (capacity q) change) block), r).
Proof.
  intros Hnz Hdiff Hfit Hblock. unfold queue_resize.
  destruct (Z.eqb_spec change 0); [contradiction |].
  destruct (Z.eqb_spec (new_capacity_of (capacity q) change) (capacity q));
    [contradiction |].
  destruct (Z.ltb_spec (new_capacity_of (capacity q) change) (count q));
    [lia |].
  rewrite Hblock. cbv zeta.
  destruct mode; [| eauto].
  destruct (new_capacity_of (capacity q) change >? capacity q); [eauto |].
  destruct (reclaim_slots _ flag evs) as [[w f] taken].
  destruct w; eauto.
Qed.

(** ** Termination *)









(** ** Sessions *)

Lemma queue_create_inv initial_capacity mode struct_ok heap init_ok q :
  queue_create initial_capacity mode struct_ok heap init_ok = Some q ->
  queue_inv q /\ count q = 0 /\
  added_count_total q = 0 /\ extracted_count_total q = 0.
Proof.
  unfold queue_create.
  set (c0 := if initial_capacity =? 0 then INITIAL_QUEUE_CAPACITY
             else initial_capacity).
  set (c1 := if c0 <? MIN_QUEUE_CAPACITY then MIN_QUEUE_CAPACITY else c0).
  set (c2 := if c1 >? MAX_QUEUE_CAPACITY then MAX_QUEUE_CAPACITY else c1).
  assert (MIN_QUEUE_CAPACITY <= c2 <= MAX_QUEUE_CAPACITY) as Hc2.
  { unfold c2, c1, MIN_QUEUE_CAPACITY, MAX_QUEUE_CAPACITY.
    destruct (Z.ltb_spec c0 1);
      match goal with |- context [?a >? 100] =>
        destruct (Z.gtb_spec a 100) end; lia. }
  destruct struct_ok; simpl; [| discriminate].
  destruct heap as [garbage|]; simpl; [| discriminate].
  destruct init_ok; simpl; [| discriminate].
  intros [= <-]. unfold MIN_QUEUE_CAPACITY, MAX_QUEUE_CAPACITY in Hc2.
  repeat split; simpl; try reflexivity; try lia;
    try (unfold MIN_QUEUE_CAPACITY, MAX_QUEUE_CAPACITY; lia).
  rewrite length_resize. lia.
Qed.

Lemma start_inv q :
  queue_inv q -> count q = 0 ->
  added_count_total q = 0 -> extracted_count_total q = 0 ->
  session_inv (start q).
Proof.
  intros Hinv Hcount Hadd Hext. constructor; simpl.
  - exact Hinv.
  - unfold contents. rewrite Hcount. reflexivity.
  - rewrite Hadd. reflexivity.
  - rewrite Hext. reflexivity.
Qed.

Lemma step_inv mode s c : session_inv s -> session_inv (step mode s c).
Proof.
  intros [Hq Hfifo Hadd Hext]. destruct c as [msg evs | evs | change heap evs |];
    unfold step.
  - destruct (queue_add_cases mode (g_queue s) msg (g_terminate_flag s) evs)
      as (q' & r & -> & [(-> & Hret & _) | (-> & Hret & Hroom & _)]).
    + rewrite decide_False by exact Hret. constructor; assumption.
    + rewrite decide_True by exact Hret. constructor; simpl.
      * apply enqueue_inv; assumption.
      * rewrite contents_enqueue by assumption.
        rewrite Hfifo, app_assoc. reflexivity.
      * rewrite Hadd, length_app, Nat2Z.inj_add. simpl.
        unfold to_ulong. apply Zplus_mod_idemp_l.
      * exact Hext.
  - destruct (queue_remove_cases mode (g_queue s) zero_message
                (g_terminate_flag s) evs)
      as (q' & r & -> & [(-> & Hret & Hout) | (-> & Hret & Hout & Hsome & _)]).
    + rewrite Hout.
      replace (match ret r with
               | Some 0 | _ => consumed s
               end) with (consumed s)
        by (destruct (ret r) as [[| |]|]; reflexivity).
      constructor; assumption.
    + rewrite Hret, Hout. constructor; simpl.
      * apply dequeue_inv; assumption.
      * rewrite Hfifo, (contents_dequeue (g_queue s)) by assumption.
        rewrite <- app_assoc. reflexivity.
      * exact Hadd.
      * rewrite Hext, length_app, Nat2Z.inj_add. simpl.
        unfold to_ulong. apply Zplus_mod_idemp_l.
  - destruct (queue_resize_cases mode (g_queue s) change heap
                (g_terminate_flag s) evs)
      as (q' & r & -> & [-> | (block & Hblock & _ & _ & Hfit & ->)]).
    + constructor; assumption.
    + pose proof (new_capacity_range (capacity (g_queue s)) change
                    (inv_capacity _ Hq)) as Hrange.
      apply malloc_length in Hblock.
      constructor; simpl.
      * apply relocated_inv; assumption.
      * rewrite contents_relocated by assumption. exact Hfifo.
      * exact Hadd.
      * exact Hext.
  - constructor; assumption.
Qed.

(** A [queue_add] or [queue_remove] that is still blocked has changed
    neither the queue nor the two histories. *)
Lemma step_blocked mode s c :
  match c with
  | Add msg evs =>
      ret (snd (queue_add mode (Some (g_queue s)) (Some msg)
                  (g_terminate_flag s) evs)) = None
  | Remove evs =>
      ret (snd (queue_remove mode (Some (g_queue s)) (Some zero_message)
                  (g_terminate_flag s) evs)) = None
  | _ => False
  end ->
  g_queue (step mode s c) = g_queue s /\
  produced (step mode s c) = produced s /\
  consumed (step mode s c) = consumed s.
Proof.
  destruct c as [msg evs | evs | change heap evs |]; unfold step;
    try contradiction.
  - destruct (queue_add_cases mode (g_queue s) msg (g_terminate_flag s) evs)
      as (q' & r & -> & [(-> & Hret & _) | (_ & Hret & _)]); simpl.
    + intros _. rewrite decide_False by exact Hret. repeat split.
    + rewrite Hret. discriminate.
  - destruct (queue_remove_cases mode (g_queue s) zero_message
                (g_terminate_flag s) evs)
      as (q' & r & -> & [(-> & Hret & Hout) | (_ & Hret & _)]); simpl.
    + intros Hblocked. rewrite Hblocked. repeat split.
    + rewrite Hret. discriminate.
Qed.

Lemma run_inv mode calls : forall s,
  session_inv s -> session_inv (run mode calls s).
Proof.
  unfold run. induction calls as [|c calls IH]; intros s Hs; simpl.
  - exact Hs.
  - apply IH, step_inv, Hs.
Qed.

Lemma created_run_inv initial_capacity mode struct_ok heap init_ok q0 calls :
  queue_create initial_capacity mode struct_ok heap init_ok = Some q0 ->
  session_inv (run mode calls (start q0)).
Proof.
  intros Hcreate.
  destruct (queue_create_inv _ _ _ _ _ _ Hcreate) as (Hinv & Hc & Ha & He).
  apply run_inv, start_inv; assumption.
Qed.

(** ** Helper facts for the statements below *)

Lemma dequeue_all_contents mode n : forall q,
  queue_inv q -> (n <= Z.to_nat (count q))%nat ->
  dequeue_all mode n q = firstn n (contents q).
Proof.
  induction n as [|n IH]; intros q Hinv Hn; [reflexivity |].
  assert (count q <> 0) as Hsome by lia.
  assert (queue_remove mode (Some q) (Some zero_message) false [Return 0 0]
          = (Some (dequeue q),
             {| ret := Some 0; terminate := false;
                sems := match mode with
                        | SYNC_MODE_SEM => [SemWait full_slots; SemPost empty_slots]
                        | SYNC_MODE_CONDVAR => []
                        end;
                msg_out := Some (front q) |})) as Hcall.
  { unfold queue_remove, queue_remove_sem, queue_remove_condvar, cond_wait_loop.
    destruct mode; simpl; destruct (Z.eqb_spec (count q) 0); try lia;
      reflexivity. }
  cbn [dequeue_all]. rewrite Hcall. cbn [msg_out].
  rewrite (contents_dequeue q) by assumption. simpl firstn. f_equal.
  apply IH.
  - apply dequeue_inv; assumption.
  - pose proof (inv_capacity q Hinv) as Hcap.
    pose proof (inv_count q Hinv) as Hcount.
    unfold MIN_QUEUE_CAPACITY, MAX_QUEUE_CAPACITY in Hcap.
    simpl count. rewrite to_size_t_small by lia. lia.
Qed.

Lemma step_produced mode s c :
  produced (step mode s c) = produced s \/
  exists msg evs, c = Add msg evs /\ produced (step mode s c) = produced s ++ [msg].
Proof.
  destruct c as [msg evs | evs | change heap evs |]; unfold step.
  - destruct (queue_add_cases mode (g_queue s) msg (g_terminate_flag s) evs)
      as (q' & r & -> & _). simpl.
    case_decide; [right | left]; eauto.
  - destruct (queue_remove_cases mode (g_queue s) zero_message
                (g_terminate_flag s) evs) as (q' & r & -> & _).
    left. reflexivity.
  - destruct (queue_resize_cases mode (g_queue s) change heap
                (g_terminate_flag s) evs) as (q' & r & -> & _).
    left. reflexivity.
  - left. reflexivity.
Qed.

Lemma run_produced (P : message_t -> Prop) mode calls : forall s,
  Forall P (produced s) ->
  Forall P (added_messages calls) ->
  Forall P (produced (run mode calls s)).
Proof.
  unfold run. induction calls as [|c calls IH]; intros s Hs Hcalls; simpl.
  - exact Hs.
  - unfold added_messages in Hcalls. simpl in Hcalls.
    apply Forall_app in Hcalls as [Hc Hrest].
    apply IH; [| exact Hrest].
    destruct (step_produced mode s c) as [-> | (msg & evs & -> & ->)].
    + exact Hs.
    + apply Forall_app. split; [exact Hs | exact Hc].
Qed.

Lemma sem_wait_loop_resume flag pre : forall f rest more,
  sem_wait_loop flag pre = (Waiting, f, rest) ->
  sem_wait_loop flag (pre ++ more) = sem_wait_loop f more.
Proof.
  revert flag. induction pre as [|ev pre IH]; intros flag f rest more; simpl.
  - intros [= <- _]. reflexivity.
  - destruct ev as [|r e].
    + apply IH.
    + destruct (r =? -1); [| discriminate].
      destruct (e =? EINTR); [| discriminate].
      destruct flag; [discriminate |]. apply IH.
Qed.

Lemma sem_wait_loop_done flag pre : forall w f rest more,
  sem_wait_loop flag pre = (w, f, rest) -> w <> Waiting ->
  sem_wait_loop flag (pre ++ more) = (w, f, rest ++ more).
Proof.
  revert flag. induction pre as [|ev pre IH]; intros flag w f rest more; simpl.
  - intros [= <- _ _] Hw. congruence.
  - destruct ev as [|r e].
    + apply IH.
    + destruct (r =? -1); [| intros [= <- <- <-]; reflexivity].
      destruct (e =? EINTR); [| intros [= <- <- <-]; reflexivity].
      destruct flag; [intros [= <- <- <-]; reflexivity |]. apply IH.
Qed.

Lemma reclaim_slots_waiting n : forall flag pre f taken,
  reclaim_slots n flag pre = (Waiting, f, taken) -> (taken < n)%nat.
Proof.
  induction n as [|n IH]; intros flag pre f taken; simpl.
  - discriminate.
  - destruct (sem_wait_loop flag pre) as [[w f0] rest].
    destruct w; try (intros [= _ <-]; lia).
    destruct (reclaim_slots n f0 rest) as [[w' f'] taken'] eqn:Hrec.
    intros [= -> _ <-]. apply IH in Hrec. lia.
Qed.

(** An interrupted wait with the flag set ends the shrink loop. *)
Lemma reclaim_slots_interrupted n : forall flag pre f taken post,
  reclaim_slots n flag pre = (Waiting, f, taken) ->
  f = true ->
  reclaim_slots n flag (pre ++ Return (-1) EINTR :: post)
  = (Terminating, true, taken).
Proof.
  induction n as [|n IH]; intros flag pre f taken post; simpl.
  - discriminate.
  - destruct (sem_wait_loop flag pre) as [[w f0] rest] eqn:Hwait.
    destruct w.
    + destruct (reclaim_slots n f0 rest) as [[w' f'] taken'] eqn:Hrec.
      intros [= -> -> <-] ->.
      rewrite (sem_wait_loop_done _ _ _ _ _ (Return (-1) EINTR :: post) Hwait)
        by discriminate.
      rewrite (IH _ _ _ _ post Hrec eq_refl). reflexivity.
    + discriminate.
    + discriminate.
    + intros [= -> <-] ->.
      rewrite (sem_wait_loop_resume _ _ _ _ (Return (-1) EINTR :: post) Hwait).
      reflexivity.
Qed.

(** With the flag clear the interrupted wait is made again. *)
Lemma reclaim_slots_retried n : forall flag pre taken,
  reclaim_slots n flag pre = (Waiting, false, taken) ->
  reclaim_slots n flag (pre ++ [Return (-1) EINTR]) = (Waiting, false, taken).
Proof.
  induction n as [|n IH]; intros flag pre taken; simpl.
  - discriminate.
  - destruct (sem_wait_loop flag pre) as [[w f0] rest] eqn:Hwait.
    destruct w.
    + destruct (reclaim_slots n f0 rest) as [[w' f'] taken'] eqn:Hrec.
      intros [= -> -> <-].
      rewrite (sem_wait_loop_done _ _ _ _ _ [Return (-1) EINTR] Hwait)
        by discriminate.
      rewrite (IH _ _ _ Hrec). reflexivity.
    + discriminate.
    + discriminate.
    + intros [= -> <-].
      rewrite (sem_wait_loop_resume _ _ _ _ [Return (-1) EINTR] Hwait).
      reflexivity.
Qed.

Lemma shrink_wait_retried q change heap flag pre :
  let parked := queue_resize SYNC_MODE_SEM (Some q) change heap flag pre in
  ret (snd parked) = None ->
  terminate (snd parked) = false ->
  queue_resize SYNC_MODE_SEM (Some q) change heap flag
    (pre ++ [Return (-1) EINTR])
  = parked.
Proof.
  unfold queue_resize.
  destruct (change =? 0); [discriminate |].
  destruct (new_capacity_of (capacity q) change =? capacity q);
    [discriminate |].
  destruct (new_capacity_of (capacity q) change <? count q); [discriminate |].
  destruct (malloc (new_capacity_of (capacity q) change) heap)
    as [new_messages_buffer|]; [| discriminate].
  cbv zeta.
  destruct (new_capacity_of (capacity q) change >? capacity q);
    [discriminate |].
  destruct (reclaim_slots _ flag pre) as [[w f] taken] eqn:Hpre.
  destruct w; try discriminate.
  simpl. intros _ ->.
  rewrite (reclaim_slots_retried _ _ _ _ Hpre).
  reflexivity.
Qed.

(** Closed instances of [queue_inv] and of bounds, by evaluation. *)
Ltac by_evaluation :=
  try constructor; vm_compute; repeat split; try discriminate; reflexivity.

Lemma sample_message_ok t : 0 <= t < 256 -> message_ok (sample_message t).
Proof.
  intros Ht. constructor; cbn [sample_message type hash size data].
  - exact Ht.
  - lia.
  - lia.
  - reflexivity.
  - apply Forall_replicate. lia.
Qed.

(** ** The scenarios of section 8 of the specification *)

(** Capacity 5 holding A, B, C: [queue_resize(q, -2)] returns 0 and three
    removals give A, B, C. *)
Example shrink_keeps_abc :
  let '(q, r) :=
    queue_resize SYNC_MODE_CONDVAR (Some sample_queue) (-2) (Some []) false [] in
  ret r = Some 0 /\
  option_map capacity q = Some 3 /\
  option_map (fun q => map type (dequeue_all SYNC_MODE_CONDVAR 3 q)) q
  = Some [65; 66; 67].
Proof. vm_compute. repeat split. Qed.

(** Capacity 1 holding one item: a second [queue_add] blocks; once the
    flag is set and the cleanup posts the semaphore it returns -1 and the
    count is still 1. *)
Example blocked_add_is_cancelled :
  let full := fst (queue_add_sem sample_smallest (sample_message 65) false at_once) in
  count full = 1 /\
  ret (snd (queue_add_sem full (sample_message 66) false [])) = None /\
  ret (snd (queue_add_sem full (sample_message 66) false [Signal; Return 0 0]))
  = Some (-1) /\
  count (fst (queue_add_sem full (sample_message 66) false [Signal; Return 0 0]))
  = 1.
Proof. vm_compute. repeat split. Qed.

(** A full queue in the condition-variable strategy: [queue_add] waits
    through wake-ups that change nothing. *)
Example full_queue_blocks_add :
  let full := fst (queue_add_condvar sample_smallest (sample_message 65) false []) in
  ret (snd (queue_add_condvar full (sample_message 66) false
              [Return 0 0; Return 0 0]))
  = None.
Proof. vm_compute. reflexivity. Qed.

(** ** Calls whose wait is answered at once *)

Lemma queue_add_at_once mode q msg errno evs :
  count q < capacity q ->
  queue_add mode (Some q) (Some msg) false (Return 0 errno :: evs)
  = (Some (enqueue q msg),
     returns 0 false
       match mode with
       | SYNC_MODE_SEM => [SemWait empty_slots; SemPost full_slots]
       | SYNC_MODE_CONDVAR => []
       end).
Proof.
  intros Hroom.
  unfold queue_add, queue_add_sem, queue_add_condvar, cond_wait_loop.
  cbn [sem_wait_loop]. change (0 =? -1) with false. cbv iota.
  rewrite (proj2 (Z.eqb_neq (count q) (capacity q))) by lia.
  rewrite Z.geb_leb, (proj2 (Z.leb_gt (capacity q) (count q))) by lia.
  destruct mode; reflexivity.
Qed.

Lemma queue_remove_at_once mode q receiver errno evs :
  count q <> 0 ->
  queue_remove mode (Some q) (Some receiver) false (Return 0 errno :: evs)
  = (Some (dequeue q),
     {| ret := Some 0; terminate := false;
        sems := match mode with
                | SYNC_MODE_SEM => [SemWait full_slots; SemPost empty_slots]
                | SYNC_MODE_CONDVAR => []
                end;
        msg_out := Some (front q) |}).
Proof.
  intros Hsome.
  unfold queue_remove, queue_remove_sem, queue_remove_condvar, cond_wait_loop.
  cbn [sem_wait_loop]. change (0 =? -1) with false. cbv iota.
  rewrite (proj2 (Z.eqb_neq (count q) 0)) by exact Hsome.
  destruct mode; reflexivity.
Qed.

Lemma step_add_at_once mode s msg errno evs :
  g_terminate_flag s = false ->
  count (g_queue s) < capacity (g_queue s) ->
  step mode s (Add msg (Return 0 errno :: evs))
  = {| g_queue := enqueue (g_queue s) msg;
       g_terminate_flag := false;
       produced := produced s ++ [msg];
       consumed := consumed s |}.
Proof.
  intros Hflag Hroom. cbn [step].
  rewrite Hflag, queue_add_at_once by exact Hroom. reflexivity.
Qed.

Lemma step_remove_at_once mode s errno evs :
  g_terminate_flag s = false ->
  count (g_queue s) <> 0 ->
  step mode s (Remove (Return 0 errno :: evs))
  = {| g_queue := dequeue (g_queue s);
       g_terminate_flag := false;
       produced := produced s;
       consumed := consumed s ++ [front (g_queue s)] |}.
Proof.
  intros Hflag Hsome. cbn [step].
  rewrite Hflag, queue_remove_at_once by exact Hsome. reflexivity.
Qed.

(** Additions answered at once, while there is room. *)
Lemma run_adds_at_once mode msgs : forall s,
  session_inv s ->
  g_terminate_flag s = false ->
  count (g_queue s) + Z.of_nat (length msgs) <= capacity (g_queue s) ->
  let s' := run mode (map (fun msg => Add msg at_once) msgs) s in
  session_inv s' /\
  g_terminate_flag s' = false /\
  produced s' = produced s ++ msgs /\
  consumed s' = consumed s /\
  count (g_queue s') = count (g_queue s) + Z.of_nat (length msgs).
Proof.
  induction msgs as [|msg msgs IH]; intros s Hinv Hflag Hroom.
  - cbn. rewrite app_nil_r, Z.add_0_r.
    split; [exact Hinv |]. split; [exact Hflag |]. repeat split.
  - cbn [map length] in *. unfold run in *. cbn [fold_left].
    pose proof (sess_queue s Hinv) as Hq.
    pose proof (inv_count _ Hq) as Hcount.
    pose proof (inv_capacity _ Hq) as Hcap.
    unfold MIN_QUEUE_CAPACITY, MAX_QUEUE_CAPACITY in Hcap.
    pose proof (step_inv mode s (Add msg at_once) Hinv) as Hinv'.
    unfold at_once in *.
    rewrite step_add_at_once in * by (assumption || lia).
    specialize (IH _ Hinv' eq_refl).
    cbn [g_queue g_terminate_flag produced consumed enqueue count capacity]
      in IH.
    rewrite (to_size_t_small (count (g_queue s) + 1)) in IH by lia.
    destruct IH as (Hi & Hf & Hp & Hc & Hn); [lia |].
    split; [exact Hi |]. split; [exact Hf |].
    split; [rewrite Hp, <- app_assoc; reflexivity |].
    split; [exact Hc |]. lia.
Qed.

(** Removals answered at once, while there are items. *)
Lemma run_removes_at_once mode n : forall s,
  session_inv s ->
  g_terminate_flag s = false ->
  Z.of_nat n <= count (g_queue s) ->
  let s' := run mode (replicate n (Remove at_once)) s in
  session_inv s' /\
  g_terminate_flag s' = false /\
  produced s' = produced s /\
  consumed s' = consumed s ++ firstn n (contents (g_queue s)) /\
  count (g_queue s') = count (g_queue s) - Z.of_nat n.
Proof.
  induction n as [|n IH]; intros s Hinv Hflag Hn.
  - cbn. rewrite app_nil_r, Z.sub_0_r.
    split; [exact Hinv |]. split; [exact Hflag |]. repeat split.
  - cbn [replicate]. unfold run in *. cbn [fold_left].
    pose proof (sess_queue s Hinv) as Hq.
    pose proof (inv_count _ Hq) as Hcount.
    pose proof (inv_capacity _ Hq) as Hcap.
    unfold MIN_QUEUE_CAPACITY, MAX_QUEUE_CAPACITY in Hcap.
    pose proof (step_inv mode s (Remove at_once) Hinv) as Hinv'.
    unfold at_once in *.
    rewrite step_remove_at_once in * by (assumption || lia).
    specialize (IH _ Hinv' eq_refl).
    cbn [g_queue g_terminate_flag produced consumed dequeue count capacity]
      in IH.
    rewrite (to_size_t_small (count (g_queue s) - 1)) in IH by lia.
    destruct IH as (Hi & Hf & Hp & Hc & Hm); [lia |].
    split; [exact Hi |]. split; [exact Hf |].
    split; [exact Hp |].
    split; [| lia].
    rewrite Hc, (contents_dequeue (g_queue s)) by (assumption || lia).
    rewrite <- app_assoc. reflexivity.
Qed.

(** ** Waits that end with the flag set *)



(** * The claims *)

(** C1 (FIFO order).  In either strategy, after a queue is created and any
    list of calls has run: the records returned by the successful
    [queue_remove] calls, followed by the items still held (oldest first),
    are exactly the records passed to the successful [queue_add] calls, in
    the order of those calls.  With the flag clear, a [queue_remove] whose
    wait is answered at once on a queue that holds an item returns 0 and
    stores the record that comes next in the order of addition; a
    [queue_add] whose wait is answered at once on a queue with room returns 0
    and puts its record last.  So records added one after the other, no more
    than the capacity, and then removed, come back as they were given. *)
Theorem fifo_order mode initial_capacity struct_ok heap init_ok q0 calls :
  queue_create initial_capacity mode struct_ok heap init_ok = Some q0 ->
  let s := run mode calls (start q0) in
  produced s = consumed s ++ contents (g_queue s) /\
  consumed s `prefix_of` produced s /\
  (count (g_queue s) = 0 -> consumed s = produced s) /\
  (g_terminate_flag s = false -> count (g_queue s) <> 0 ->
   forall receiver errno evs,
   exists m rest r q',
     produced s = consumed s ++ m :: rest /\
     queue_remove mode (Some (g_queue s)) (Some receiver) false
       (Return 0 errno :: evs) = (Some q', r) /\
     ret r = Some 0 /\
     msg_out r = Some m /\
     contents q' = rest /\
     consumed (step mode s (Remove (Return 0 errno :: evs)))
     = consumed s ++ [m]) /\
  (g_terminate_flag s = false -> count (g_queue s) < capacity (g_queue s) ->
   forall msg errno evs,
   exists r q',
     queue_add mode (Some (g_queue s)) (Some msg) false
       (Return 0 errno :: evs) = (Some q', r) /\
     ret r = Some 0 /\
     contents q' = contents (g_queue s) ++ [msg] /\
     produced (step mode s (Add msg (Return 0 errno :: evs)))
     = produced s ++ [msg]) /\
  (forall msgs,
     Z.of_nat (length msgs) <= capacity q0 ->
     let done :=
       run mode
         (map (fun msg => Add msg at_once) msgs
          ++ replicate (length msgs) (Remove at_once))
         (start q0) in
     produced done = msgs /\ consumed done = msgs).
Proof.
  intros Hcreate s.
  pose proof (created_run_inv _ _ _ _ _ _ calls Hcreate) as Hs.
  fold s in Hs. pose proof Hs as [Hq Hfifo _ _].
  split; [exact Hfifo |].
  split; [exists (contents (g_queue s)); exact Hfifo |].
  split.
  { intros Hempty. rewrite Hfifo. unfold contents. rewrite Hempty.
    simpl. rewrite app_nil_r. reflexivity. }
  split.
  { intros Hflag Hsome receiver errno evs.
    eexists (front (g_queue s)), (contents (dequeue (g_queue s))), _,
      (dequeue (g_queue s)).
    split.
    { rewrite <- (contents_dequeue (g_queue s)) by assumption. exact Hfifo. }
    split; [apply queue_remove_at_once; exact Hsome |].
    split; [reflexivity |]. split; [reflexivity |]. split; [reflexivity |].
    rewrite step_remove_at_once by assumption. reflexivity. }
  split.
  { intros Hflag Hroom msg errno evs.
    eexists _, (enqueue (g_queue s) msg).
    split; [apply queue_add_at_once; exact Hroom |].
    split; [reflexivity |].
    split; [apply contents_enqueue; assumption |].
    rewrite step_add_at_once by assumption. reflexivity. }
  intros msgs Hlen done. unfold done, run. rewrite fold_left_app.
  fold (run mode (map (fun msg => Add msg at_once) msgs) (start q0)).
  match goal with
  | |- context [fold_left (step mode) (replicate ?n ?c) ?s0] =>
      fold (run mode (replicate n c) s0)
  end.
  destruct (queue_create_inv _ _ _ _ _ _ Hcreate) as (Hq0 & Hc0 & Ha0 & He0).
  pose proof (start_inv q0 Hq0 Hc0 Ha0 He0) as Hstart.
  destruct (run_adds_at_once mode msgs (start q0) Hstart eq_refl)
    as (Hi & Hf & Hp & Hc & Hn); [cbn [start g_queue]; lia |].
  cbn [start g_queue produced consumed] in Hp, Hc, Hn.
  destruct (run_removes_at_once mode (length msgs) _ Hi Hf)
    as (_ & _ & Hp' & Hc' & _); [lia |].
  pose proof (sess_fifo _ Hi) as Hheld.
  rewrite Hp, Hc in Hheld. cbn [app] in Hheld.
  split; [rewrite Hp', Hp; reflexivity |].
  rewrite Hc', Hc, <- Hheld. cbn [app]. apply firstn_all.
Qed.

(** A, B, C are added to a queue of capacity 5 and three records are
    removed: they are A, B, C. *)
Lemma fifo_order_witness :
  let done :=
    run SYNC_MODE_SEM
      [Add (sample_message 65) at_once; Add (sample_message 66) at_once;
       Add (sample_message 67) at_once;
       Remove at_once; Remove at_once; Remove at_once]
      (start sample_created) in
  produced done = [sample_message 65; sample_message 66; sample_message 67] /\
  consumed done = [sample_message 65; sample_message 66; sample_message 67].
Proof.
  destruct (fifo_order SYNC_MODE_SEM 5 true (Some []) true sample_created []
              eq_refl) as (_ & _ & _ & _ & _ & Hround).
  apply (Hround [sample_message 65; sample_message 66; sample_message 67]).
  vm_compute. discriminate.
Defined.

(** C2 (queue invariant).  In every state reached from [queue_create] by
    calls of [queue_add], [queue_remove] and [queue_resize], in either
    strategy: [0 <= count <= capacity]; [(tail_idx - head_idx) mod capacity]
    is [count], or [count = capacity]; and [added_count_total -
    extracted_count_total == count] in the unsigned arithmetic of the
    counters, which is the plain difference as long as fewer than [2^64]
    records were added. *)
Theorem queue_invariant_reachable
    mode initial_capacity struct_ok heap init_ok q0 calls :
  queue_create initial_capacity mode struct_ok heap init_ok = Some q0 ->
  let s := run mode calls (start q0) in
  let q := g_queue s in
  0 <= count q <= capacity q /\
  ((tail_idx q - head_idx q) mod capacity q = count q \/ count q = capacity q) /\
  to_ulong (added_count_total q - extracted_count_total q) = count q /\
  (Z.of_nat (length (produced s)) < 2 ^ 64 ->
   added_count_total q - extracted_count_total q = count q).
Proof.
  intros Hcreate s q.
  pose proof (created_run_inv _ _ _ _ _ _ calls Hcreate) as Hs.
  fold s in Hs. destruct Hs as [Hq Hfifo Hadded Hextracted]. fold q in Hq.
  destruct Hq as [Hcap Hcount Hhead Htail Hblock Hadd Hext Htot].
  unfold MIN_QUEUE_CAPACITY, MAX_QUEUE_CAPACITY in Hcap.
  repeat split; try lia.
  - destruct (decide (count q = capacity q)) as [Hfull | Hroom];
      [right; exact Hfull | left].
    rewrite Htail, Zminus_mod_idemp_l.
    replace (head_idx q + count q - head_idx q) with (count q) by lia.
    apply Z.mod_small. lia.
  - intros Hfew. fold q in Hadded, Hextracted.
    assert (length (produced s)
            = (length (consumed s) + Z.to_nat (count q))%nat) as Hlen.
    { rewrite Hfifo, length_app, contents_length. reflexivity. }
    rewrite Hadded, Hextracted. rewrite !to_ulong_small by lia. lia.
Qed.

(** Three additions, a removal and a shrink by 2 on a queue of capacity 5. *)
Lemma queue_invariant_reachable_witness :
  let s := run SYNC_MODE_CONDVAR
             (sample_calls ++ [Remove at_once; Resize (-2) (Some []) []])
             (start sample_created) in
  let q := g_queue s in
  0 <= count q <= capacity q /\
  ((tail_idx q - head_idx q) mod capacity q = count q \/ count q = capacity q) /\
  to_ulong (added_count_total q - extracted_count_total q) = count q /\
  (Z.of_nat (length (produced s)) < 2 ^ 64 ->
   added_count_total q - extracted_count_total q = count q).
Proof.
  apply (queue_invariant_reachable SYNC_MODE_CONDVAR 5 true (Some []) true
           sample_created).
  reflexivity.
Defined.



(** C4 (resize keeps the order): fails on the earlier [queue_resize].  The
    items 4, 5, 6, 7 of a queue of capacity 5 lie in slots 3, 4, 0, 1.
    [queue_resize(q, -1)] of the earlier revision accepts the change and
    returns 0; [realloc] keeps slots 0 to 3, [head_idx] stays 3 and
    [tail_idx] stays 2: record 5 is lost, and four removals return 4, 6, 7
    and the stale record 3.  The later [queue_resize] returns 0 on the same
    queue and the removals return 4, 5, 6, 7. *)
Theorem earlier_resize_loses_order :
  queue_inv wrapped_queue /\
  (capacity wrapped_queue, count wrapped_queue,
   head_idx wrapped_queue, tail_idx wrapped_queue) = (5, 4, 3, 2) /\
  map type (contents wrapped_queue) = [4; 5; 6; 7] /\
  (let '(q, r) :=
     Earlier.queue_resize SYNC_MODE_CONDVAR (Some wrapped_queue) (-1)
       (Some []) false [] in
   ret r = Some 0 /\
   option_map (fun q => (capacity q, count q, head_idx q, tail_idx q)) q
   = Some (4, 4, 3, 2) /\
   option_map (fun q => map type (messages q)) q = Some [6; 7; 3; 4] /\
   option_map (fun q => map type (contents q)) q = Some [4; 6; 7; 3] /\
   option_map (fun q => map type (dequeue_all SYNC_MODE_CONDVAR 4 q)) q
   = Some [4; 6; 7; 3]) /\
  (let '(q, r) :=
     queue_resize SYNC_MODE_CONDVAR (Some wrapped_queue) (-1)
       (Some []) false [] in
   ret r = Some 0 /\
   option_map (fun q => map type (dequeue_all SYNC_MODE_CONDVAR 4 q)) q
   = Some [4; 5; 6; 7]).
Proof.
  split.
  { apply (sess_queue _
             (created_run_inv 5 SYNC_MODE_SEM true (Some []) true
                sample_created wrapped_calls eq_refl)). }
  vm_compute. repeat split.
Qed.

(** C5 (shrink below the item count is rejected).  For a queue that meets
    the invariant and a change whose clamped capacity is below [count],
    [queue_resize] returns -1, does no semaphore operation and leaves the
    queue as it was, whatever the strategy and the environment. *)
Theorem resize_rejects_truncation mode q change heap flag evs :
  queue_inv q ->
  INT_MIN <= change <= INT_MAX ->
  clamped_capacity (capacity q) change < count q ->
  queue_resize mode (Some q) change heap flag evs
  = (Some q, returns (-1) flag []).
Proof.
  intros Hinv Hchange Hsmall.
  pose proof (inv_capacity q Hinv) as Hcap.
  pose proof (inv_count q Hinv) as Hcount.
  unfold queue_resize.
  destruct (change =? 0); [reflexivity |].
  rewrite new_capacity_clamped by assumption.
  destruct (Z.eqb_spec (clamped_capacity (capacity q) change) (capacity q));
    [lia |].
  destruct (Z.ltb_spec (clamped_capacity (capacity q) change) (count q));
    [reflexivity | lia].
Qed.

(** Capacity 5 holding three items, shrunk by 3. *)
Lemma resize_rejects_truncation_witness :
  capacity sample_queue = 5 /\ count sample_queue = 3 /\
  queue_resize SYNC_MODE_SEM (Some sample_queue) (-3) (Some []) false at_once
  = (Some sample_queue, returns (-1) false []).
Proof.
  split; [reflexivity |]. split; [reflexivity |].
  apply (resize_rejects_truncation SYNC_MODE_SEM sample_queue (-3)).
  - by_evaluation.
  - by_evaluation.
  - reflexivity.
Defined.

(** C6 as the specification states it fails: with [change = 0] the call
    returns -1, not 0. *)
Lemma resize_zero_returns_failure :
  clamped_capacity (capacity sample_queue) 0 = capacity sample_queue /\
  ret (snd (queue_resize SYNC_MODE_CONDVAR (Some sample_queue) 0 (Some [])
              false []))
  <> Some 0.
Proof. split; [reflexivity | vm_compute; discriminate]. Qed.

(** C6, amended (resize without effect).  For a queue that meets the
    invariant and a change whose clamped capacity is the current capacity,
    [queue_resize] does no semaphore operation and leaves the queue as it
    was; it returns 0 when [change] is not 0, and -1 when [change] is 0. *)
Theorem resize_no_op mode q change heap flag evs :
  queue_inv q ->
  INT_MIN <= change <= INT_MAX ->
  clamped_capacity (capacity q) change = capacity q ->
  queue_resize mode (Some q) change heap flag evs
  = (Some q, returns (if change =? 0 then -1 else 0) flag []).
Proof.
  intros Hinv Hchange Hsame.
  pose proof (inv_capacity q Hinv) as Hcap.
  unfold queue_resize.
  destruct (change =? 0); [reflexivity |].
  rewrite new_capacity_clamped, Hsame, Z.eqb_refl by assumption.
  reflexivity.
Qed.

(** Capacity 1 shrunk by 1, and a change of 0. *)
Lemma resize_no_op_witness :
  queue_resize SYNC_MODE_SEM (Some sample_smallest) (-1) None false []
  = (Some sample_smallest, returns 0 false []) /\
  queue_resize SYNC_MODE_SEM (Some sample_queue) 0 None false []
  = (Some sample_queue, returns (-1) false []).
Proof.
  split.
  - apply (resize_no_op SYNC_MODE_SEM sample_smallest (-1)).
    + by_evaluation.
    + by_evaluation.
    + reflexivity.
  - apply (resize_no_op SYNC_MODE_SEM sample_queue 0).
    + by_evaluation.
    + by_evaluation.
    + reflexivity.
Defined.

Lemma earlier_sem_wait_loop_interrupted n : forall flag,
  Earlier.sem_wait_loop flag (replicate n (Return (-1) EINTR))
  = (Waiting, flag, []).
Proof.
  induction n as [|n IH]; intros flag; [reflexivity |].
  cbn [replicate Earlier.sem_wait_loop]. apply IH.
Qed.

(** C7 (the shrink wait can be cancelled): fails on the earlier
    [queue_resize].  In the semaphore strategy, with [g_terminate_flag] set,
    the shrink by 1 of a queue of capacity 5 that holds three items has
    replaced the block and waits for one slot; however often [sem_wait]
    returns -1 with [EINTR], the earlier revision calls it again: the call
    has not returned and has taken no permit.  The later [queue_resize]
    returns -1 at the first such return. *)
Theorem earlier_shrink_wait_ignores_flag (n : nat) :
  let interrupted := replicate n (Return (-1) EINTR) in
  let call :=
    Earlier.queue_resize SYNC_MODE_SEM (Some sample_queue) (-1) (Some [])
      true interrupted in
  ret (snd call) = None /\
  terminate (snd call) = true /\
  sems (snd call) = [] /\
  option_map capacity (fst call) = Some 4 /\
  (n <> 0%nat ->
   ret (snd (queue_resize SYNC_MODE_SEM (Some sample_queue) (-1) (Some [])
               true interrupted))
   = Some (-1)).
Proof.
  intros interrupted call.
  assert (Earlier.reclaim_slots 1 true interrupted = (Waiting, true, 0%nat))
    as Hwait.
  { cbn [Earlier.reclaim_slots]. unfold interrupted.
    rewrite earlier_sem_wait_loop_interrupted. reflexivity. }
  assert (call
          = (fst (Earlier.queue_resize SYNC_MODE_CONDVAR (Some sample_queue)
                    (-1) (Some []) true []),
             blocked true [])) as ->.
  { unfold call. clearbody interrupted. clear call.
    lazy -[Earlier.reclaim_slots] in *. rewrite Hwait. reflexivity. }
  split; [reflexivity |]. split; [reflexivity |]. split; [reflexivity |].
  split; [vm_compute; reflexivity |].
  intros Hn. unfold interrupted. destruct n as [|n]; [congruence |].
  vm_compute. reflexivity.
Qed.

(** C8 as the specification states it fails: with the step
    [h' = h*33 + h + byte] the record of kind 1 and length 0 hashes to 34,
    and [calculate_message_hash] gives 33. *)
Lemma hash_differs_from_spec_formula :
  message_ok (sample_message 1) /\
  calculate_message_hash (sample_message 1) = 33 /\
  spec_message_hash (sample_message 1) = 34 /\
  calculate_message_hash (sample_message 1)
  <> spec_message_hash (sample_message 1).
Proof.
  split; [| split; [reflexivity | split; [reflexivity | discriminate]]].
  apply sample_message_ok. lia.
Qed.

(** C8, amended (the checksum).  For every message,
    [calculate_message_hash] is the rolling hash [h' = (h << 5) + h + byte],
    that is [h*33 + byte], seeded at 0, folded over the kind, then the
    length, then the first [size] payload bytes in order, truncated to 16
    bits; the [hash] field of the message has no part in it. *)
Theorem hash_is_rolling_hash msg :
  message_ok msg ->
  calculate_message_hash msg = rolling_hash (hashed_bytes msg) /\
  forall h, calculate_message_hash (set_hash msg h) = calculate_message_hash msg.
Proof.
  intros [_ _ Hsize Hlen _]. split.
  - apply calculate_message_hash_rolling.
    rewrite Hlen. unfold MAX_DATA_SIZE. lia.
  - intros h. apply calculate_message_hash_set_hash.
Qed.

(** The record of kind 65 and length 0. *)
Lemma hash_is_rolling_hash_witness :
  calculate_message_hash (sample_message 65)
  = rolling_hash (hashed_bytes (sample_message 65)) /\
  forall h,
    calculate_message_hash (set_hash (sample_message 65) h)
    = calculate_message_hash (sample_message 65).
Proof.
  apply (hash_is_rolling_hash (sample_message 65)).
  apply sample_message_ok. lia.
Defined.

(** C9 (bytes that are not hashed).  Two messages that agree on [type],
    [size] and the first [size] bytes of [data] have the same
    [calculate_message_hash], whatever their [hash] fields and the remaining
    bytes.  So when every record handed to [queue_add] was built by a
    producer, whatever its stack held beyond [size], every record a
    successful [queue_remove] returns passes the consumer's check. *)
Theorem hash_ignores_unused_bytes :
  (forall m1 m2,
     type m1 = type m2 ->
     size m1 = size m2 ->
     firstn (Z.to_nat (size m1)) (data m1)
     = firstn (Z.to_nat (size m1)) (data m2) ->
     calculate_message_hash m1 = calculate_message_hash m2) /\
  (forall mode initial_capacity struct_ok heap init_ok q0 calls,
     queue_create initial_capacity mode struct_ok heap init_ok = Some q0 ->
     Forall made_by_producer (added_messages calls) ->
     Forall (fun msg => consumer_check msg = true)
       (consumed (run mode calls (start q0)))).
Proof.
  split.
  - exact calculate_message_hash_agree.
  - intros mode initial_capacity struct_ok heap init_ok q0 calls Hcreate Hmade.
    pose proof (created_run_inv _ _ _ _ _ _ calls Hcreate) as [_ Hfifo _ _].
    assert (Forall (fun msg => consumer_check msg = true)
              (produced (run mode calls (start q0)))) as Hall.
    { apply run_produced.
      - constructor.
      - eapply Forall_impl; [exact Hmade |].
        intros msg (stack & rnd & ->). apply consumer_check_producer_make. }
    rewrite Hfifo in Hall. apply Forall_app in Hall. tauto.
Qed.

(** Two records that differ in [hash] and beyond [size]; a record built by
    the producer, added and removed. *)
Lemma hash_ignores_unused_bytes_witness :
  calculate_message_hash
    {| type := 7; hash := 0; size := 2; data := [1; 2; 3; 4] |}
  = calculate_message_hash
      {| type := 7; hash := 99; size := 2; data := [1; 2; 8; 9] |} /\
  Forall (fun msg => consumer_check msg = true)
    (consumed
       (run SYNC_MODE_SEM
          [Add (producer_make (sample_message 0) [300; 2; 10; 11]) at_once;
           Remove at_once]
          (start sample_created))).
Proof.
  split.
  - apply (proj1 hash_ignores_unused_bytes); reflexivity.
  - apply (proj2 hash_ignores_unused_bytes SYNC_MODE_SEM 5 true (Some []) true).
    + reflexivity.
    + repeat constructor. exists (sample_message 0), [300; 2; 10; 11].
      reflexivity.
Defined.

(** C10 (NULL arguments).  With a NULL queue, or for [queue_add] and
    [queue_remove] a NULL message, the call touches nothing: [queue_add],
    [queue_remove] and [queue_resize] return -1, the four getters return 0,
    and [queue_destroy] releases nothing. *)
Theorem null_arguments_tolerated
    mode (q : option queue_t) (msg : option message_t) change heap flag evs :
  queue_add mode None msg flag evs = (None, returns (-1) flag []) /\
  queue_add mode q None flag evs = (q, returns (-1) flag []) /\
  queue_remove mode None msg flag evs = (None, returns (-1) flag []) /\
  queue_remove mode q None flag evs = (q, returns (-1) flag []) /\
  queue_resize mode None change heap flag evs = (None, returns (-1) flag []) /\
  queue_get_count None = 0 /\
  queue_get_capacity None = 0 /\
  queue_get_added_total None = 0 /\
  queue_get_extracted_total None = 0 /\
  queue_destroy None mode = [].
Proof.
  repeat split; try reflexivity; destruct q; reflexivity.
Qed.

(** * Further properties of the code *)

(** ** Creation and bounds *)

(** X1.  [queue_create] returns a queue exactly when the two allocations and
    the initialisation of the primitives succeed.  The queue is empty, its
    capacity is the requested one (10 when 0 is requested) clamped to
    [[1, 100]], and its buffer has that many records. *)
Theorem queue_create_result initial_capacity mode struct_ok heap init_ok :
  let wanted :=
    if initial_capacity =? 0 then INITIAL_QUEUE_CAPACITY else initial_capacity in
  let cap := Z.max MIN_QUEUE_CAPACITY (Z.min MAX_QUEUE_CAPACITY wanted) in
  match queue_create initial_capacity mode struct_ok heap init_ok with
  | Some q =>
      struct_ok = true /\ is_Some heap /\ init_ok = true /\
      capacity q = cap /\
      Z.of_nat (length (messages q)) = cap /\
      count q = 0 /\ contents q = [] /\
      head_idx q = 0 /\ tail_idx q = 0 /\
      added_count_total q = 0 /\ extracted_count_total q = 0
  | None => struct_ok = false \/ heap = None \/ init_ok = false
  end.
Proof.
  intros wanted cap. unfold queue_create. fold wanted.
  assert ((if (if wanted <? MIN_QUEUE_CAPACITY then MIN_QUEUE_CAPACITY
               else wanted) >? MAX_QUEUE_CAPACITY
           then MAX_QUEUE_CAPACITY
           else (if wanted <? MIN_QUEUE_CAPACITY then MIN_QUEUE_CAPACITY
                 else wanted)) = cap) as ->.
  { unfold cap, MIN_QUEUE_CAPACITY, MAX_QUEUE_CAPACITY.
    destruct (Z.ltb_spec wanted 1);
      match goal with |- context [?a >? 100] =>
        destruct (Z.gtb_spec a 100) end; lia. }
  assert (1 <= cap <= 100) as Hcap
    by (unfold cap, MIN_QUEUE_CAPACITY, MAX_QUEUE_CAPACITY; lia).
  destruct struct_ok; simpl; [| left; reflexivity].
  destruct heap as [garbage|]; simpl; [| right; left; reflexivity].
  destruct init_ok; simpl; [| right; right; reflexivity].
  repeat split; try reflexivity; eauto.
  rewrite length_resize. lia.
Qed.

(** X2.  In every state reached from [queue_create], the capacity is within
    [[1, 100]], the buffer has [capacity] records, and [head_idx] and
    [tail_idx] are indices of the buffer: the record [queue_add] writes and
    the record [queue_remove] reads lie inside the block. *)
Theorem reachable_indices_in_bounds
    mode initial_capacity struct_ok heap init_ok q0 calls :
  queue_create initial_capacity mode struct_ok heap init_ok = Some q0 ->
  let q := g_queue (run mode calls (start q0)) in
  MIN_QUEUE_CAPACITY <= capacity q <= MAX_QUEUE_CAPACITY /\
  length (messages q) = Z.to_nat (capacity q) /\
  (Z.to_nat (head_idx q) < length (messages q))%nat /\
  (Z.to_nat (tail_idx q) < length (messages q))%nat /\
  0 <= head_idx q /\ 0 <= tail_idx q.
Proof.
  intros Hcreate q.
  pose proof (created_run_inv _ _ _ _ _ _ calls Hcreate) as [Hq _ _ _].
  fold q in Hq.
  destruct Hq as [Hcap Hcount Hhead Htail Hblock _ _ _].
  pose proof Hcap as Hcap'. unfold MIN_QUEUE_CAPACITY, MAX_QUEUE_CAPACITY in Hcap'.
  pose proof (mod_index_range (head_idx q + count q) (capacity q)
                ltac:(unfold MIN_QUEUE_CAPACITY; lia)) as Hmod.
  rewrite <- Htail in Hmod.
  repeat split; try lia.
Qed.

(** Three additions and a removal, then a shrink by 2. *)
Lemma reachable_indices_in_bounds_witness :
  let q := g_queue (run SYNC_MODE_SEM
                      (sample_calls ++ [Remove at_once;
                                        Resize (-2) (Some []) [Return 0 0; Return 0 0]])
                      (start sample_created)) in
  MIN_QUEUE_CAPACITY <= capacity q <= MAX_QUEUE_CAPACITY /\
  length (messages q) = Z.to_nat (capacity q) /\
  (Z.to_nat (head_idx q) < length (messages q))%nat /\
  (Z.to_nat (tail_idx q) < length (messages q))%nat /\
  0 <= head_idx q /\ 0 <= tail_idx q.
Proof.
  apply (reachable_indices_in_bounds SYNC_MODE_SEM 5 true (Some []) true
           sample_created).
  reflexivity.
Defined.

(** X3.  In every state reached from [queue_create], what
    [queue_get_added_total] and [queue_get_extracted_total] return are the
    numbers of [queue_add] and [queue_remove] calls that returned 0, modulo
    [2^64], and [queue_get_count] returns their difference. *)
Theorem totals_count_successful_calls
    mode initial_capacity struct_ok heap init_ok q0 calls :
  queue_create initial_capacity mode struct_ok heap init_ok = Some q0 ->
  let s := run mode calls (start q0) in
  queue_get_added_total (Some (g_queue s))
  = to_ulong (Z.of_nat (length (produced s))) /\
  queue_get_extracted_total (Some (g_queue s))
  = to_ulong (Z.of_nat (length (consumed s))) /\
  queue_get_count (Some (g_queue s))
  = Z.of_nat (length (produced s)) - Z.of_nat (length (consumed s)).
Proof.
  intros Hcreate s.
  pose proof (created_run_inv _ _ _ _ _ _ calls Hcreate)
    as [Hq Hfifo Hadded Hextracted].
  fold s in Hq, Hfifo, Hadded, Hextracted.
  simpl. repeat split; try assumption.
  rewrite Hfifo, length_app, contents_length.
  pose proof (inv_count _ Hq). lia.
Qed.

(** Two additions and a removal. *)
Lemma totals_count_successful_calls_witness :
  let s := run SYNC_MODE_CONDVAR
             [Add (sample_message 65) []; Add (sample_message 66) [];
              Remove []; Remove []; Remove [Return 0 0]]
             (start sample_created) in
  queue_get_added_total (Some (g_queue s))
  = to_ulong (Z.of_nat (length (produced s))) /\
  queue_get_extracted_total (Some (g_queue s))
  = to_ulong (Z.of_nat (length (consumed s))) /\
  queue_get_count (Some (g_queue s))
  = Z.of_nat (length (produced s)) - Z.of_nat (length (consumed s)).
Proof.
  apply (totals_count_successful_calls SYNC_MODE_CONDVAR 5 true (Some []) true
           sample_created).
  reflexivity.
Defined.

(** ** What a single call does *)

(** X4.  Whatever the strategy, the flag and the events: [queue_add] on a
    queue with [count >= capacity] does not return 0 and leaves the queue as
    it is, and [queue_remove] on a queue with [count = 0] does not return 0,
    stores no record and leaves the queue as it is. *)
Theorem full_or_empty_queue_is_left_alone mode q msg flag evs :
  (count q >= capacity q ->
   exists r,
     queue_add mode (Some q) (Some msg) flag evs = (Some q, r) /\
     ret r <> Some 0) /\
  (count q = 0 ->
   exists r,
     queue_remove mode (Some q) (Some msg) flag evs = (Some q, r) /\
     ret r <> Some 0 /\ msg_out r = None).
Proof.
  split; intros Hcount.
  - destruct (queue_add_cases mode q msg flag evs)
      as (q' & r & Hcall & [(-> & Hret & _) | (_ & _ & Hroom & _)]).
    + exists r. split; assumption.
    + lia.
  - destruct (queue_remove_cases mode q msg flag evs)
      as (q' & r & Hcall & [(-> & Hret & Hout) | (_ & _ & _ & Hsome & _)]).
    + exists r. repeat split; assumption.
    + contradiction.
Qed.

(** A queue of capacity 1 holding one record, and an empty queue. *)
Lemma full_or_empty_queue_is_left_alone_witness :
  let full := enqueue sample_smallest (sample_message 65) in
  (exists r,
     queue_add SYNC_MODE_SEM (Some full) (Some (sample_message 66)) false
       at_once = (Some full, r) /\
     ret r <> Some 0) /\
  (exists r,
     queue_remove SYNC_MODE_SEM (Some sample_created) (Some zero_message) false
       at_once = (Some sample_created, r) /\
     ret r <> Some 0 /\ msg_out r = None).
Proof.
  intros full. split.
  - apply (proj1 (full_or_empty_queue_is_left_alone SYNC_MODE_SEM full
                    (sample_message 66) false at_once)).
    vm_compute. discriminate.
  - apply (proj2 (full_or_empty_queue_is_left_alone SYNC_MODE_SEM
                    sample_created zero_message false at_once)).
    reflexivity.
Defined.

(** X5.  A [queue_add] that returns 0 on a queue that meets the invariant
    found room, put [msg] behind the items already held and changed nothing
    else they contain; the count and the total of additions grew by one and
    the capacity is the same. *)
Theorem successful_add_appends mode q msg flag evs q' r :
  queue_inv q ->
  queue_add mode (Some q) (Some msg) flag evs = (Some q', r) ->
  ret r = Some 0 ->
  count q < capacity q /\
  contents q' = contents q ++ [msg] /\
  queue_get_count (Some q') = queue_get_count (Some q) + 1 /\
  queue_get_capacity (Some q') = queue_get_capacity (Some q) /\
  queue_get_added_total (Some q')
  = to_ulong (queue_get_added_total (Some q) + 1) /\
  queue_get_extracted_total (Some q') = queue_get_extracted_total (Some q) /\
  queue_inv q'.
Proof.
  intros Hinv Hcall Hret.
  destruct (queue_add_cases mode q msg flag evs)
    as (q1 & r1 & Hcall1 & Hcases).
  rewrite Hcall in Hcall1. injection Hcall1 as <- <-.
  destruct Hcases as [(_ & Hno & _) | (-> & _ & Hroom & _)];
    [contradiction |].
  pose proof (inv_capacity q Hinv) as Hcap.
  pose proof (inv_count q Hinv) as Hcount.
  unfold MIN_QUEUE_CAPACITY, MAX_QUEUE_CAPACITY in Hcap.
  split; [exact Hroom |].
  split; [apply contents_enqueue; assumption |].
  split; [simpl; apply to_size_t_small; lia |].
  repeat (split; [reflexivity |]).
  apply enqueue_inv; assumption.
Qed.

(** An addition to the queue holding A, B, C. *)
Lemma successful_add_appends_witness :
  let call :=
    queue_add SYNC_MODE_SEM (Some sample_queue) (Some (sample_message 68))
      false at_once in
  contents (default sample_queue (fst call))
  = contents sample_queue ++ [sample_message 68].
Proof.
  intros call.
  refine (proj1 (proj2 (successful_add_appends SYNC_MODE_SEM sample_queue
            (sample_message 68) false at_once
            (default sample_queue (fst call)) (snd call) _ _ _))).
  - by_evaluation.
  - reflexivity.
  - reflexivity.
Defined.

(** X6.  A [queue_remove] that returns 0 on a queue that meets the invariant
    stores the oldest item and leaves the other items in their order; the
    count fell by one, the total of removals grew by one and the capacity is
    the same. *)
Theorem successful_remove_takes_oldest mode q msg flag evs q' r :
  queue_inv q ->
  queue_remove mode (Some q) (Some msg) flag evs = (Some q', r) ->
  ret r = Some 0 ->
  exists m,
    msg_out r = Some m /\
    contents q = m :: contents q' /\
    queue_get_count (Some q') = queue_get_count (Some q) - 1 /\
    queue_get_capacity (Some q') = queue_get_capacity (Some q) /\
    queue_get_extracted_total (Some q')
    = to_ulong (queue_get_extracted_total (Some q) + 1) /\
    queue_get_added_total (Some q') = queue_get_added_total (Some q) /\
    queue_inv q'.
Proof.
  intros Hinv Hcall Hret.
  destruct (queue_remove_cases mode q msg flag evs)
    as (q1 & r1 & Hcall1 & Hcases).
  rewrite Hcall in Hcall1. injection Hcall1 as <- <-.
  destruct Hcases as [(_ & Hno & _) | (-> & _ & Hout & Hsome & _)];
    [contradiction |].
  pose proof (inv_capacity q Hinv) as Hcap.
  pose proof (inv_count q Hinv) as Hcount.
  unfold MIN_QUEUE_CAPACITY, MAX_QUEUE_CAPACITY in Hcap.
  exists (front q).
  split; [exact Hout |].
  split; [apply contents_dequeue; assumption |].
  split; [simpl; apply to_size_t_small; lia |].
  repeat (split; [reflexivity |]).
  apply dequeue_inv; assumption.
Qed.

(** A removal from the queue holding A, B, C. *)
Lemma successful_remove_takes_oldest_witness :
  let call :=
    queue_remove SYNC_MODE_CONDVAR (Some sample_queue) (Some zero_message)
      false [] in
  exists m,
    msg_out (snd call) = Some m /\
    contents sample_queue = m :: contents (default sample_queue (fst call)) /\
    queue_get_count (Some (default sample_queue (fst call)))
    = queue_get_count (Some sample_queue) - 1 /\
    queue_get_capacity (Some (default sample_queue (fst call)))
    = queue_get_capacity (Some sample_queue) /\
    queue_get_extracted_total (Some (default sample_queue (fst call)))
    = to_ulong (queue_get_extracted_total (Some sample_queue) + 1) /\
    queue_get_added_total (Some (default sample_queue (fst call)))
    = queue_get_added_total (Some sample_queue) /\
    queue_inv (default sample_queue (fst call)).
Proof.
  intros call.
  apply (successful_remove_takes_oldest SYNC_MODE_CONDVAR sample_queue
           zero_message false []).
  - by_evaluation.
  - reflexivity.
  - reflexivity.
Defined.

(** X7.  In the condition-variable strategy, with the flag clear, a
    [queue_add] on a queue with room and a [queue_remove] on a queue with an
    item return 0 without waiting: no event is looked at.  On a full queue,
    respectively an empty one, with no event they are blocked. *)
Theorem condvar_waits_only_when_needed q msg evs :
  (count q < capacity q ->
   queue_add SYNC_MODE_CONDVAR (Some q) (Some msg) false evs
   = (Some (enqueue q msg), returns 0 false [])) /\
  (count q = capacity q ->
   queue_add SYNC_MODE_CONDVAR (Some q) (Some msg) false []
   = (Some q, blocked false [])) /\
  (count q <> 0 ->
   queue_remove SYNC_MODE_CONDVAR (Some q) (Some msg) false evs
   = (Some (dequeue q),
      {| ret := Some 0; terminate := false; sems := [];
         msg_out := Some (front q) |})) /\
  (count q = 0 ->
   queue_remove SYNC_MODE_CONDVAR (Some q) (Some msg) false []
   = (Some q, blocked false [])).
Proof.
  unfold queue_add, queue_remove, queue_add_condvar, queue_remove_condvar,
    cond_wait_loop.
  repeat split; intros Hcount.
  - destruct (Z.eqb_spec (count q) (capacity q)); [lia |]. simpl.
    destruct (Z.geb_spec (count q) (capacity q)); [lia | reflexivity].
  - rewrite Hcount, Z.eqb_refl. reflexivity.
  - destruct (Z.eqb_spec (count q) 0); [contradiction | reflexivity].
  - rewrite Hcount. reflexivity.
Qed.

(** The empty queue of capacity 5 has room and no item. *)
Lemma condvar_waits_only_when_needed_witness :
  queue_add SYNC_MODE_CONDVAR (Some sample_created) (Some (sample_message 65))
    false [Return 7 7]
  = (Some (enqueue sample_created (sample_message 65)), returns 0 false []) /\
  queue_remove SYNC_MODE_CONDVAR (Some sample_created) (Some zero_message)
    false []
  = (Some sample_created, blocked false []).
Proof.
  destruct (condvar_waits_only_when_needed sample_created (sample_message 65)
              [Return 7 7]) as (Hadd & _ & _ & _).
  destruct (condvar_waits_only_when_needed sample_created zero_message [])
    as (_ & _ & _ & Hrem).
  split.
  - apply Hadd. reflexivity.
  - apply Hrem. reflexivity.
Defined.

(** ** Resizing by one step, and the semaphores *)

Lemma permits_held_app s log1 log2 :
  permits_held s (log1 ++ log2) = permits_held s log1 + permits_held s log2.
Proof.
  induction log1 as [|[s'|s'] log1 IH]; simpl; rewrite ?IH; lia.
Qed.

Lemma permits_held_waits s n :
  permits_held s (replicate n (SemWait empty_slots))
  = if decide (empty_slots = s) then Z.of_nat n else 0.
Proof.
  induction n as [|n IH]; simpl replicate; cbn [permits_held].
  - case_decide; reflexivity.
  - rewrite IH. case_decide; lia.
Qed.

Lemma permits_held_posts s n :
  permits_held s (replicate n (SemPost empty_slots))
  = if decide (empty_slots = s) then - Z.of_nat n else 0.
Proof.
  induction n as [|n IH]; simpl replicate; cbn [permits_held].
  - case_decide; reflexivity.
  - rewrite IH. case_decide; lia.
Qed.

Lemma reclaim_slots_taken n : forall flag evs w f taken,
  reclaim_slots n flag evs = (w, f, taken) ->
  (w = Acquired /\ taken = n) \/ (w <> Acquired /\ (taken < n)%nat).
Proof.
  induction n as [|n IH]; intros flag evs w f taken; simpl.
  - intros [= <- _ <-]. left. split; reflexivity.
  - destruct (sem_wait_loop flag evs) as [[w0 f0] rest].
    destruct w0; try (intros [= <- _ <-]; right; split; [discriminate | lia]).
    destruct (reclaim_slots n f0 rest) as [[w' f'] taken'] eqn:Hrec.
    intros [= <- _ <-].
    destruct (IH _ _ _ _ _ Hrec) as [[-> ->] | [Hw Hlt]].
    + left. split; reflexivity.
    + right. split; [exact Hw | lia].
Qed.

(** The semaphore operations of [queue_resize] in the semaphore strategy. *)
Lemma queue_resize_sem_cases q change heap flag evs q' r :
  queue_inv q ->
  queue_resize SYNC_MODE_SEM (Some q) change heap flag evs = (Some q', r) ->
  (q' = q /\ sems r = []) \/
  (exists block taken,
     let new_capacity := new_capacity_of (capacity q) change in
     malloc new_capacity heap = Some block /\
     q' = relocated q new_capacity block /\
     new_capacity <> capacity q /\
     count q <= new_capacity /\
     ((capacity q < new_capacity /\ ret r = Some 0 /\
       sems r = replicate (Z.to_nat (new_capacity - capacity q))
                  (SemPost empty_slots)) \/
      (new_capacity < capacity q /\
       sems r = replicate taken (SemWait empty_slots) /\
       ((ret r = Some 0 /\ Z.of_nat taken = capacity q - new_capacity) \/
        (ret r <> Some 0 /\ Z.of_nat taken < capacity q - new_capacity))))).
Proof.
  intros Hinv. unfold queue_resize.
  pose proof (inv_capacity q Hinv) as Hcap.
  pose proof (new_capacity_range (capacity q) change Hcap) as Hrange.
  unfold MIN_QUEUE_CAPACITY, MAX_QUEUE_CAPACITY in Hcap, Hrange.
  destruct (Z.eqb_spec change 0);
    [intros [= <- <-]; left; split; reflexivity |].
  destruct (Z.eqb_spec (new_capacity_of (capacity q) change) (capacity q))
    as [Hsame | Hdiff]; [intros [= <- <-]; left; split; reflexivity |].
  destruct (Z.ltb_spec (new_capacity_of (capacity q) change) (count q))
    as [Hsmall | Hfit]; [intros [= <- <-]; left; split; reflexivity |].
  destruct (malloc (new_capacity_of (capacity q) change) heap)
    as [block|] eqn:Hblock; [| intros [= <- <-]; left; split; reflexivity].
  cbv zeta.
  destruct (Z.gtb_spec (new_capacity_of (capacity q) change) (capacity q))
    as [Hgrow | Hshrink].
  - intros [= <- <-]. right. exists block, O.
    repeat split; try assumption. left.
    rewrite to_size_t_small by lia. repeat split. lia.
  - rewrite (to_size_t_small (capacity q - _)) by lia.
    destruct (reclaim_slots _ flag evs) as [[w f] taken] eqn:Hrec.
    destruct (reclaim_slots_taken _ _ _ _ _ _ Hrec) as [[-> ->] | [Hw Hlt]].
    + intros [= <- <-]. right. exists block, (Z.to_nat (capacity q - new_capacity_of (capacity q) change)).
      repeat split; try assumption. right.
      repeat split; try lia. left. split; [reflexivity | lia].
    + destruct w; try contradiction; intros [= <- <-]; right;
        exists block, taken; repeat split; try assumption; right;
        (repeat split; try lia); right; (split; [discriminate | lia]).
Qed.

(** X8.  The key [+]: on a queue that meets the invariant,
    [queue_resize(q, RESIZE_STEP)] at the largest capacity returns 0 and
    changes nothing; below it, when the new block is allocated, it returns 0
    with the capacity one larger and the items and their order unchanged, and
    in the semaphore strategy posts [empty_slots] exactly once; when the
    allocation fails it returns -1 and changes nothing. *)
Theorem grow_by_one_step mode q heap flag evs :
  queue_inv q ->
  (capacity q = MAX_QUEUE_CAPACITY ->
   queue_resize mode (Some q) RESIZE_STEP heap flag evs
   = (Some q, returns 0 flag [])) /\
  (capacity q < MAX_QUEUE_CAPACITY -> heap = None ->
   queue_resize mode (Some q) RESIZE_STEP heap flag evs
   = (Some q, returns (-1) flag [])) /\
  (capacity q < MAX_QUEUE_CAPACITY -> is_Some heap ->
   exists q',
     queue_resize mode (Some q) RESIZE_STEP heap flag evs
     = (Some q',
        returns 0 flag
          match mode with
          | SYNC_MODE_SEM => [SemPost empty_slots]
          | SYNC_MODE_CONDVAR => []
          end) /\
     capacity q' = capacity q + 1 /\
     count q' = count q /\
     contents q' = contents q /\
     queue_inv q').
Proof.
  intros Hinv.
  pose proof (inv_capacity q Hinv) as Hcap.
  pose proof (inv_count q Hinv) as Hcount.
  assert (new_capacity_of (capacity q) RESIZE_STEP
          = Z.min MAX_QUEUE_CAPACITY (capacity q + 1)) as Hnew.
  { rewrite new_capacity_clamped by (try assumption; by_evaluation).
    unfold clamped_capacity, RESIZE_STEP, MIN_QUEUE_CAPACITY,
      MAX_QUEUE_CAPACITY in *. lia. }
  unfold MIN_QUEUE_CAPACITY, MAX_QUEUE_CAPACITY in *.
  unfold queue_resize. change (RESIZE_STEP =? 0) with false. cbv iota.
  rewrite Hnew. repeat split.
  - intros Hmax. rewrite Z.min_l by lia. rewrite Hmax, Z.eqb_refl.
    reflexivity.
  - intros Hbelow ->. rewrite Z.min_r by lia.
    destruct (Z.eqb_spec (capacity q + 1) (capacity q)); [lia |].
    destruct (Z.ltb_spec (capacity q + 1) (count q)); [lia |].
    reflexivity.
  - intros Hbelow [garbage ->]. rewrite Z.min_r by lia.
    destruct (Z.eqb_spec (capacity q + 1) (capacity q)); [lia |].
    destruct (Z.ltb_spec (capacity q + 1) (count q)); [lia |].
    simpl malloc. cbv zeta.
    set (block := resize (Z.to_nat (capacity q + 1)) zero_message garbage).
    assert (length block = Z.to_nat (capacity q + 1)) as Hlen
      by apply length_resize.
    exists (relocated q (capacity q + 1) block). split.
    + destruct mode; [| reflexivity].
      destruct (Z.gtb_spec (capacity q + 1) (capacity q)); [| lia].
      replace (capacity q + 1 - capacity q) with 1 by lia. reflexivity.
    + split; [reflexivity |]. split; [reflexivity |]. split.
      * apply contents_relocated; try assumption;
          unfold MIN_QUEUE_CAPACITY, MAX_QUEUE_CAPACITY; lia.
      * apply relocated_inv; try assumption;
          unfold MIN_QUEUE_CAPACITY, MAX_QUEUE_CAPACITY; lia.
Qed.

(** Capacity 5 holding A, B, C grows to 6. *)
Lemma grow_by_one_step_witness :
  exists q',
    queue_resize SYNC_MODE_SEM (Some sample_queue) RESIZE_STEP (Some []) false []
    = (Some q', returns 0 false [SemPost empty_slots]) /\
    capacity q' = capacity sample_queue + 1 /\
    count q' = count sample_queue /\
    contents q' = contents sample_queue /\
    queue_inv q'.
Proof.
  refine (proj2 (proj2 (grow_by_one_step SYNC_MODE_SEM sample_queue (Some [])
                          false [] _)) _ _).
  - by_evaluation.
  - by_evaluation.
  - eexists. reflexivity.
Defined.

(** X9.  The key [-]: on a queue that meets the invariant,
    [queue_resize(q, -RESIZE_STEP)] at capacity 1 returns 0 and changes
    nothing; on a full queue of larger capacity it returns -1 and changes
    nothing; otherwise, when the new block is allocated, the capacity is one
    smaller and the items and their order are unchanged, and the call returns
    0 in the condition-variable strategy, and in the semaphore strategy once
    its [sem_wait] has returned 0, having taken one permit of
    [empty_slots]. *)
Theorem shrink_by_one_step mode q garbage flag errno evs :
  queue_inv q ->
  (capacity q = MIN_QUEUE_CAPACITY ->
   queue_resize mode (Some q) (- RESIZE_STEP) (Some garbage) flag evs
   = (Some q, returns 0 flag [])) /\
  (MIN_QUEUE_CAPACITY < capacity q -> count q = capacity q ->
   queue_resize mode (Some q) (- RESIZE_STEP) (Some garbage) flag evs
   = (Some q, returns (-1) flag [])) /\
  (MIN_QUEUE_CAPACITY < capacity q -> count q < capacity q ->
   exists q',
     queue_resize mode (Some q) (- RESIZE_STEP) (Some garbage) flag
       match mode with
       | SYNC_MODE_SEM => Return 0 errno :: evs
       | SYNC_MODE_CONDVAR => evs
       end
     = (Some q',
        returns 0 flag
          match mode with
          | SYNC_MODE_SEM => [SemWait empty_slots]
          | SYNC_MODE_CONDVAR => []
          end) /\
     capacity q' = capacity q - 1 /\
     count q' = count q /\
     contents q' = contents q /\
     queue_inv q').
Proof.
  intros Hinv.
  pose proof (inv_capacity q Hinv) as Hcap.
  pose proof (inv_count q Hinv) as Hcount.
  assert (new_capacity_of (capacity q) (- RESIZE_STEP)
          = Z.max MIN_QUEUE_CAPACITY (capacity q - 1)) as Hnew.
  { rewrite new_capacity_clamped by (try assumption; by_evaluation).
    unfold clamped_capacity, RESIZE_STEP, MIN_QUEUE_CAPACITY,
      MAX_QUEUE_CAPACITY in *. lia. }
  unfold MIN_QUEUE_CAPACITY, MAX_QUEUE_CAPACITY in *.
  unfold queue_resize. change (- RESIZE_STEP =? 0) with false. cbv iota.
  rewrite Hnew. repeat split.
  - intros Hmin. rewrite Z.max_l by lia. rewrite Hmin. reflexivity.
  - intros Habove Hfull. rewrite Z.max_r by lia.
    destruct (Z.eqb_spec (capacity q - 1) (capacity q)); [lia |].
    destruct (Z.ltb_spec (capacity q - 1) (count q)); [| lia].
    reflexivity.
  - intros Habove Hroom. rewrite Z.max_r by lia.
    destruct (Z.eqb_spec (capacity q - 1) (capacity q)); [lia |].
    destruct (Z.ltb_spec (capacity q - 1) (count q)); [lia |].
    simpl malloc. cbv zeta.
    set (block := resize (Z.to_nat (capacity q - 1)) zero_message garbage).
    assert (length block = Z.to_nat (capacity q - 1)) as Hlen
      by apply length_resize.
    exists (relocated q (capacity q - 1) block). split.
    + destruct mode; [| reflexivity].
      destruct (Z.gtb_spec (capacity q - 1) (capacity q)); [lia |].
      replace (capacity q - (capacity q - 1)) with 1 by lia. reflexivity.
    + split; [reflexivity |]. split; [reflexivity |]. split.
      * apply contents_relocated; try assumption;
          unfold MIN_QUEUE_CAPACITY, MAX_QUEUE_CAPACITY; lia.
      * apply relocated_inv; try assumption;
          unfold MIN_QUEUE_CAPACITY, MAX_QUEUE_CAPACITY; lia.
Qed.

(** Capacity 5 holding A, B, C shrinks to 4; capacity 1 stays. *)
Lemma shrink_by_one_step_witness :
  (exists q',
     queue_resize SYNC_MODE_SEM (Some sample_queue) (- RESIZE_STEP) (Some [])
       false [Return 0 0]
     = (Some q', returns 0 false [SemWait empty_slots]) /\
     capacity q' = capacity sample_queue - 1 /\
     count q' = count sample_queue /\
     contents q' = contents sample_queue /\
     queue_inv q') /\
  queue_resize SYNC_MODE_SEM (Some sample_smallest) (- RESIZE_STEP) (Some [])
    false []
  = (Some sample_smallest, returns 0 false []).
Proof.
  split.
  - refine (proj2 (proj2 (shrink_by_one_step SYNC_MODE_SEM sample_queue []
                            false 0 [] _)) _ _); by_evaluation.
  - refine (proj1 (shrink_by_one_step SYNC_MODE_SEM sample_smallest []
                     false 0 [] _) _); by_evaluation.
Defined.

(** The semaphore operations of a [queue_add] or [queue_remove] in the
    semaphore strategy, against what the call did to the queue. *)
Lemma queue_add_sem_ledger q msg flag evs q' r :
  queue_add SYNC_MODE_SEM (Some q) (Some msg) flag evs = (Some q', r) ->
  (q' = q /\ permits_held empty_slots (sems r) = 0 /\
   permits_held full_slots (sems r) = 0) \/
  (q' = enqueue q msg /\ count q < capacity q /\
   permits_held empty_slots (sems r) = 1 /\
   permits_held full_slots (sems r) = -1).
Proof.
  unfold queue_add, queue_add_sem.
  destruct (sem_wait_loop flag evs) as [[w f] rest].
  destruct w; try (intros [= <- <-]; left; repeat split).
  destruct f; [intros [= <- <-]; left; repeat split |].
  destruct (Z.geb_spec (count q) (capacity q)); intros [= <- <-].
  - left. repeat split.
  - right. repeat split. lia.
Qed.

Lemma queue_remove_sem_ledger q msg flag evs q' r :
  queue_remove SYNC_MODE_SEM (Some q) (Some msg) flag evs = (Some q', r) ->
  (q' = q /\ permits_held empty_slots (sems r) = 0 /\
   permits_held full_slots (sems r) = 0) \/
  (q' = dequeue q /\ count q <> 0 /\
   permits_held empty_slots (sems r) = -1 /\
   permits_held full_slots (sems r) = 1).
Proof.
  unfold queue_remove, queue_remove_sem.
  destruct (sem_wait_loop flag evs) as [[w f] rest].
  destruct w; try (intros [= <- <-]; left; repeat split).
  destruct f; [intros [= <- <-]; left; repeat split |].
  destruct (Z.eqb_spec (count q) 0); intros [= <- <-].
  - left. repeat split.
  - right. repeat split. assumption.
Qed.

(** One call of an execution keeps the two semaphores in step with the
    queue, unless it is a resize that stopped short. *)
Lemma step_ledger s c :
  session_inv s ->
  resizes_settled SYNC_MODE_SEM [c] s = true ->
  let s' := step SYNC_MODE_SEM s c in
  let log := sem_trace SYNC_MODE_SEM [c] s in
  permits_held empty_slots log
  = (capacity (g_queue s) - count (g_queue s))
    - (capacity (g_queue s') - count (g_queue s')) /\
  permits_held full_slots log = count (g_queue s) - count (g_queue s').
Proof.
  intros [Hq _ _ _] Hsettled s' log.
  pose proof (inv_capacity _ Hq) as Hcap.
  pose proof (inv_count _ Hq) as Hcount.
  unfold MIN_QUEUE_CAPACITY, MAX_QUEUE_CAPACITY in Hcap.
  subst s' log. cbn [sem_trace]. rewrite app_nil_r.
  destruct c as [msg evs | evs | change heap evs |]; cbn [call_reply step].
  - destruct (queue_add_cases SYNC_MODE_SEM (g_queue s) msg
                (g_terminate_flag s) evs) as (q' & r & Hcall & _).
    rewrite Hcall. cbn [snd g_queue].
    destruct (queue_add_sem_ledger _ _ _ _ _ _ Hcall)
      as [(-> & -> & ->) | (-> & Hroom & -> & ->)].
    + lia.
    + simpl. rewrite to_size_t_small by lia. lia.
  - destruct (queue_remove_cases SYNC_MODE_SEM (g_queue s) zero_message
                (g_terminate_flag s) evs) as (q' & r & Hcall & _).
    rewrite Hcall. cbn [snd g_queue].
    destruct (queue_remove_sem_ledger _ _ _ _ _ _ Hcall)
      as [(-> & -> & ->) | (-> & Hsome & -> & ->)].
    + lia.
    + simpl. rewrite to_size_t_small by lia. lia.
  - cbn [resizes_settled step] in Hsettled.
    destruct (queue_resize_cases SYNC_MODE_SEM (g_queue s) change heap
                (g_terminate_flag s) evs) as (q' & r & Hcall & _).
    rewrite Hcall in Hsettled |- *. cbn [snd g_queue] in Hsettled |- *.
    rewrite andb_true_r in Hsettled.
    destruct (queue_resize_sem_cases _ _ _ _ _ _ _ Hq Hcall)
      as [(-> & ->) | (block & taken & _ & -> & Hdiff & Hfit & Hops)].
    + simpl. lia.
    + cbn [relocated capacity count] in Hsettled |- *.
      destruct Hops as [(Hgrow & _ & ->)
                       | (Hshrink & -> & [(_ & Htaken) | (Hret & _)])].
      * rewrite !permits_held_posts.
        rewrite decide_True by reflexivity.
        rewrite decide_False by discriminate. lia.
      * rewrite !permits_held_waits.
        rewrite decide_True by reflexivity.
        rewrite decide_False by discriminate. lia.
      * exfalso. apply orb_true_iff in Hsettled as [Hzero | Hsame].
        -- apply bool_decide_eq_true in Hzero. contradiction.
        -- apply Z.eqb_eq in Hsame. contradiction.
  - simpl. lia.
Qed.

Lemma run_ledger calls : forall s,
  session_inv s ->
  resizes_settled SYNC_MODE_SEM calls s = true ->
  let s' := run SYNC_MODE_SEM calls s in
  let log := sem_trace SYNC_MODE_SEM calls s in
  permits_held empty_slots log
  = (capacity (g_queue s) - count (g_queue s))
    - (capacity (g_queue s') - count (g_queue s')) /\
  permits_held full_slots log = count (g_queue s) - count (g_queue s').
Proof.
  induction calls as [|c calls IH]; intros s Hs Hsettled.
  - simpl. lia.
  - assert (resizes_settled SYNC_MODE_SEM [c] s = true
            /\ resizes_settled SYNC_MODE_SEM calls (step SYNC_MODE_SEM s c)
               = true) as [Hc Hrest].
    { cbn [resizes_settled] in Hsettled |- *.
      apply andb_true_iff in Hsettled as [H1 H2].
      rewrite H1, H2. split; reflexivity. }
    pose proof (step_ledger s c Hs Hc) as [He Hf].
    pose proof (IH _ (step_inv SYNC_MODE_SEM s c Hs) Hrest) as [He' Hf'].
    cbn [sem_trace] in He, Hf |- *. rewrite app_nil_r in He, Hf.
    cbn zeta. rewrite !permits_held_app.
    change (run SYNC_MODE_SEM (c :: calls) s)
      with (run SYNC_MODE_SEM calls (step SYNC_MODE_SEM s c)).
    cbn zeta in He, Hf, He', Hf'. lia.
Qed.

(** X10.  In the semaphore strategy, after any calls from [queue_create]
    none of which is a resize that stopped short: the value of [empty_slots]
    (initialised to the capacity) is the number of free slots,
    [capacity - count], and the value of [full_slots] (initialised to 0) is
    [count]. *)
Theorem semaphores_match_slots
    initial_capacity struct_ok heap init_ok q0 calls :
  queue_create initial_capacity SYNC_MODE_SEM struct_ok heap init_ok
  = Some q0 ->
  resizes_settled SYNC_MODE_SEM calls (start q0) = true ->
  let q := g_queue (run SYNC_MODE_SEM calls (start q0)) in
  let log := sem_trace SYNC_MODE_SEM calls (start q0) in
  sem_value (capacity q0) empty_slots log = capacity q - count q /\
  sem_value 0 full_slots log = count q.
Proof.
  intros Hcreate Hsettled q log.
  destruct (queue_create_inv _ _ _ _ _ _ Hcreate) as (Hinv & Hc & Ha & He).
  pose proof (run_ledger calls (start q0)
                (start_inv q0 Hinv Hc Ha He) Hsettled) as [Hempty Hfull].
  cbn zeta in Hempty, Hfull. fold q log in Hempty, Hfull.
  cbn [start g_queue] in Hempty, Hfull.
  unfold sem_value. rewrite Hempty, Hfull, Hc. lia.
Qed.

(** Three additions, a removal, a growth by 2, a refused addition with the
    flag set, and a shrink by 1. *)
Lemma semaphores_match_slots_witness :
  let calls :=
    sample_calls ++ [Remove at_once; Resize 2 (Some []) [];
                     Resize (-1) (Some []) at_once;
                     Add (sample_message 68) [Signal; Return 0 0]] in
  let q := g_queue (run SYNC_MODE_SEM calls (start sample_created)) in
  let log := sem_trace SYNC_MODE_SEM calls (start sample_created) in
  sem_value (capacity sample_created) empty_slots log = capacity q - count q /\
  sem_value 0 full_slots log = count q.
Proof.
  apply (semaphores_match_slots 5 true (Some []) true sample_created).
  - reflexivity.
  - reflexivity.
Defined.

(** X11.  In the semaphore strategy, a [queue_resize] that has changed the
    capacity and does not return 0 (its shrink loop was cancelled, failed or
    is still blocked) has made the queue smaller with the items and their
    order unchanged, and has taken fewer permits of [empty_slots] than the
    slots it removed: the semaphore is left above the number of free
    slots. *)
Theorem cut_short_shrink_leaves_permits q change heap flag evs q' r :
  queue_inv q ->
  queue_resize SYNC_MODE_SEM (Some q) change heap flag evs = (Some q', r) ->
  capacity q' <> capacity q ->
  ret r <> Some 0 ->
  capacity q' < capacity q /\
  count q' = count q /\
  contents q' = contents q /\
  queue_inv q' /\
  0 <= permits_held empty_slots (sems r) < capacity q - capacity q' /\
  permits_held full_slots (sems r) = 0.
Proof.
  intros Hinv Hcall Hmoved Hret.
  pose proof (inv_capacity q Hinv) as Hcap.
  pose proof (new_capacity_range (capacity q) change Hcap) as Hrange.
  destruct (queue_resize_sem_cases _ _ _ _ _ _ _ Hinv Hcall)
    as [(-> & _) | (block & taken & Hblock & -> & Hdiff & Hfit & Hops)];
    [contradiction |].
  cbv zeta in Hblock, Hdiff, Hfit, Hops. apply malloc_length in Hblock.
  destruct Hops as [(_ & Hzero & _)
                   | (Hshrink & -> & [(Hzero & _) | (_ & Htaken)])];
    try contradiction.
  cbn [relocated capacity count].
  split; [exact Hshrink |]. split; [reflexivity |].
  split; [apply contents_relocated; assumption |].
  split; [apply relocated_inv; assumption |].
  rewrite !permits_held_waits.
  rewrite decide_True by reflexivity. rewrite decide_False by discriminate.
  lia.
Qed.

(** A shrink by 2 of the queue holding A, B, C, cancelled after one of the
    two permits. *)
Lemma cut_short_shrink_leaves_permits_witness :
  let call :=
    queue_resize SYNC_MODE_SEM (Some sample_queue) (-2) (Some []) true
      [Return 0 0; Return (-1) EINTR] in
  let q' := default sample_queue (fst call) in
  capacity q' < capacity sample_queue /\
  count q' = count sample_queue /\
  contents q' = contents sample_queue /\
  queue_inv q' /\
  0 <= permits_held empty_slots (sems (snd call))
    < capacity sample_queue - capacity q' /\
  permits_held full_slots (sems (snd call)) = 0.
Proof.
  intros call q'.
  apply (cut_short_shrink_leaves_permits sample_queue (-2) (Some []) true
           [Return 0 0; Return (-1) EINTR]).
  - by_evaluation.
  - reflexivity.
  - vm_compute. discriminate.
  - vm_compute. discriminate.
Defined.

(** ** Messages: what the producer builds, what the checksum detects *)

Lemma fill_data_length rnd n : forall i data,
  length (fill_data rnd i n data) = length data.
Proof.
  revert rnd. induction n as [|n IH]; intros rnd i data; simpl.
  - reflexivity.
  - rewrite IH, length_insert. reflexivity.
Qed.

Lemma fill_data_nth n : forall rnd i data j,
  (i + n <= length data)%nat ->
  nth j (fill_data rnd i n data) 0
  = if decide (i <= j < i + n)%nat
    then to_uchar (Z.rem (nth (j - i) rnd 0) 256)
    else nth j data 0.
Proof.
  induction n as [|n IH]; intros rnd i data j Hlen; simpl.
  - case_decide; [lia | reflexivity].
  - rewrite IH by (rewrite length_insert; lia).
    destruct (decide (j = i)) as [-> | Hne].
    + rewrite decide_False by lia. rewrite decide_True by lia.
      rewrite Nat.sub_diag.
      rewrite !nth_lookup, list_lookup_insert_eq by lia.
      destruct rnd; reflexivity.
    + rewrite !nth_lookup, list_lookup_insert_ne by congruence.
      destruct (decide (S i <= j < S i + n)%nat) as [Hin | Hout].
      * rewrite decide_True by lia.
        replace (j - i)%nat with (S (j - S i)) by lia.
        destruct rnd as [|x rnd]; simpl; [destruct (j - S i)%nat |];
          reflexivity.
      * rewrite decide_False by lia. reflexivity.
Qed.

Lemma to_uchar_range z : 0 <= to_uchar z < 256.
Proof. unfold to_uchar. apply Z.mod_pos_bound. lia. Qed.

(** X12.  The record a producer builds in an automatic variable whose
    [data] array has [MAX_DATA_SIZE] bytes: [type] and [size] are bytes,
    the first [size] bytes of [data] are the random numbers that follow,
    reduced to bytes, every byte from index [size] on is what the variable
    held before (no byte at or beyond [size] is written, and the array keeps its
    length), and [hash] is the checksum of the record, a 16-bit value. *)
Theorem producer_make_fields stack rnd :
  length (data stack) = Z.to_nat MAX_DATA_SIZE ->
  let msg := producer_make stack rnd in
  type msg = to_uchar (Z.rem (nth 0 rnd 0) 256) /\
  size msg = to_uchar (Z.rem (nth 1 rnd 0) MAX_DATA_SIZE) /\
  0 <= size msg < MAX_DATA_SIZE /\
  length (data msg) = Z.to_nat MAX_DATA_SIZE /\
  (forall j, Z.of_nat j < size msg ->
     nth j (data msg) 0 = to_uchar (Z.rem (nth (2 + j) rnd 0) 256)) /\
  (forall j, size msg <= Z.of_nat j ->
     nth j (data msg) 0 = nth j (data stack) 0) /\
  hash msg = calculate_message_hash msg /\
  0 <= hash msg < 65536 /\
  (Forall (fun b => 0 <= b < 256) (data stack) -> message_ok msg).
Proof.
  intros Hlen msg.
  set (size' := to_uchar (Z.rem (hd 0 (tl rnd)) MAX_DATA_SIZE)).
  assert (0 <= size' < 256) as Hsize by apply to_uchar_range.
  assert (forall j,
            nth j (data msg) 0
            = if decide (j < Z.to_nat size')%nat
              then to_uchar (Z.rem (nth (2 + j) rnd 0) 256)
              else nth j (data stack) 0) as Hnth.
  { intros j. unfold msg, producer_make. cbn [set_hash data]. fold size'.
    rewrite fill_data_nth
      by (rewrite Hlen; unfold MAX_DATA_SIZE; lia).
    rewrite Nat.sub_0_r.
    destruct rnd as [|r0 [|r1 rnd]]; simpl;
      repeat case_decide; try lia; try reflexivity;
      destruct j; reflexivity. }
  assert (length (data msg) = Z.to_nat MAX_DATA_SIZE) as Hlen'.
  { unfold msg, producer_make. cbn [set_hash data].
    rewrite fill_data_length. exact Hlen. }
  assert (hash msg = calculate_message_hash msg) as Hhash.
  { unfold msg, producer_make.
    rewrite calculate_message_hash_set_hash. reflexivity. }
  assert (type msg = to_uchar (Z.rem (nth 0 rnd 0) 256)) as Htype
    by (destruct rnd; reflexivity).
  assert (size msg = size') as Hsz by reflexivity.
  split; [exact Htype |].
  split; [destruct rnd as [|r0 [|r1 rnd]]; reflexivity |].
  split; [rewrite Hsz; exact Hsize |].
  split; [exact Hlen' |].
  split; [intros j Hj; rewrite Hnth, decide_True by lia; reflexivity |].
  split; [intros j Hj; rewrite Hnth, decide_False by lia; reflexivity |].
  split; [exact Hhash |].
  split; [rewrite Hhash; apply calculate_message_hash_range |].
  intros Hbytes. constructor.
  - rewrite Htype. apply to_uchar_range.
  - rewrite Hhash. apply calculate_message_hash_range.
  - rewrite Hsz. exact Hsize.
  - exact Hlen'.
  - apply Forall_forall. intros b Hb.
    apply list_elem_of_In, (In_nth _ _ 0) in Hb as (j & Hj & <-).
    rewrite Hnth. case_decide; [apply to_uchar_range |].
    rewrite Forall_forall in Hbytes. apply Hbytes.
    apply list_elem_of_In, nth_In. rewrite Hlen, <- Hlen'. exact Hj.
Qed.

(** The variable holds 256 bytes 9; the random numbers are 300, 2, 10, 11. *)
Lemma producer_make_fields_witness :
  let stack := {| type := 0; hash := 0; size := 0; data := replicate 256 9 |} in
  let msg := producer_make stack [300; 2; 10; 11] in
  type msg = 44 /\ size msg = 2 /\
  nth 0 (data msg) 0 = 10 /\ nth 1 (data msg) 0 = 11 /\
  nth 2 (data msg) 0 = 9 /\ message_ok msg.
Proof.
  intros stack msg.
  destruct (producer_make_fields stack [300; 2; 10; 11] eq_refl)
    as (Htype & Hsize & _ & _ & Hfirst & Hrest & _ & _ & Hok).
  fold msg in Htype, Hsize, Hfirst, Hrest, Hok.
  split; [exact Htype |].
  split; [exact Hsize |].
  split; [apply (Hfirst 0%nat); rewrite Hsize; reflexivity |].
  split; [apply (Hfirst 1%nat); rewrite Hsize; reflexivity |].
  split; [apply (Hrest 2%nat); rewrite Hsize; discriminate |].
  apply Hok. apply Forall_replicate. lia.
Defined.

(** The step of the hash is linear in the value carried. *)
Lemma fold_rolling_step_linear bytes : forall h,
  fold_left rolling_step bytes h
  = h * 33 ^ Z.of_nat (length bytes) + fold_left rolling_step bytes 0.
Proof.
  induction bytes as [|b bytes IH]; intros h.
  - simpl. lia.
  - cbn [fold_left length]. rewrite (IH (rolling_step h b)), (IH (rolling_step 0 b)).
    rewrite Nat2Z.inj_succ, Z.pow_succ_r by lia.
    unfold rolling_step. lia.
Qed.

(** 33 is a unit modulo [2^16]: a multiple of a power of 33 is 0 only when
    the factor is. *)
Lemma power_of_33_cancels n d :
  0 <= n -> (d * 33 ^ n) mod 65536 = 0 -> d mod 65536 = 0.
Proof.
  intros Hn. revert d. pattern n. apply natlike_ind; [| | exact Hn].
  - intros d. rewrite Z.pow_0_r, Z.mul_1_r. trivial.
  - intros m Hm IH d. rewrite Z.pow_succ_r by exact Hm.
    rewrite Z.mul_assoc. intros Hzero. apply IH in Hzero.
    replace d with (d * 33 * 33761 - d * 17 * 65536) by lia.
    rewrite Zminus_mod, Z_mod_mult, Z.sub_0_r, Z.mod_mod by lia.
    rewrite <- Z.mul_mod_idemp_l, Hzero by lia. reflexivity.
Qed.

(** Two byte sequences that differ in one byte have different hashes. *)
Lemma rolling_hash_one_byte prefix suffix b b' :
  0 <= b < 256 -> 0 <= b' < 256 ->
  rolling_hash (prefix ++ b :: suffix) = rolling_hash (prefix ++ b' :: suffix) ->
  b = b'.
Proof.
  intros Hb Hb'. unfold rolling_hash, to_ushort.
  rewrite !fold_left_app. cbn [fold_left].
  rewrite (fold_rolling_step_linear suffix (rolling_step _ b)).
  rewrite (fold_rolling_step_linear suffix (rolling_step _ b')).
  unfold rolling_step. change (2 ^ 16) with 65536. intros Heq.
  assert (((b - b') * 33 ^ Z.of_nat (length suffix)) mod 65536 = 0) as Hzero.
  { match type of Heq with ?x mod _ = ?y mod _ =>
      replace ((b - b') * 33 ^ Z.of_nat (length suffix)) with (x - y) by lia
    end.
    rewrite Zminus_mod, Heq, Z.sub_diag. reflexivity. }
  apply power_of_33_cancels in Hzero; [| lia].
  destruct (Z.eq_dec b b') as [| Hne]; [assumption |].
  apply Z.mod_divide in Hzero; [| lia].
  destruct Hzero as [k Hk]. lia.
Qed.

(** X13.  For a message that passes the consumer's check, replacing one of
    the first [size] payload bytes by another byte, or the [type] byte by
    another byte, or the [hash] field by another value, gives a message that
    fails the check. *)
Theorem single_byte_corruption_detected msg :
  message_ok msg ->
  consumer_check msg = true ->
  (forall i b,
     Z.of_nat i < size msg -> 0 <= b < 256 -> b <> nth i (data msg) 0 ->
     consumer_check (set_data_byte msg i b) = false) /\
  (forall t,
     0 <= t < 256 -> t <> type msg ->
     consumer_check (set_type msg t) = false) /\
  (forall h, h <> hash msg -> consumer_check (set_hash msg h) = false).
Proof.
  intros [Htype _ Hsize Hlen Hbytes] Hcheck.
  unfold consumer_check in Hcheck.
  rewrite calculate_message_hash_set_hash in Hcheck.
  apply Z.eqb_eq in Hcheck.
  unfold MAX_DATA_SIZE in Hlen.
  assert (size msg <= Z.of_nat (length (data msg))) as Hfits by lia.
  repeat split.
  - intros i b Hi Hb Hne. unfold consumer_check.
    rewrite calculate_message_hash_set_hash. cbn [set_data_byte hash].
    apply Z.eqb_neq. rewrite Hcheck. intros Heq. apply Hne.
    assert (i < length (data msg))%nat as Hin by lia.
    destruct (lookup_lt_is_Some_2 _ _ Hin) as [b0 Hb0].
    assert (nth i (data msg) 0 = b0) as Hold
      by (rewrite nth_lookup, Hb0; reflexivity).
    assert (0 <= b0 < 256) as Hb0range.
    { rewrite Forall_forall in Hbytes. apply Hbytes.
      eapply list_elem_of_lookup_2. exact Hb0. }
    rewrite Hold.
    rewrite !calculate_message_hash_rolling in Heq
      by (cbn [set_data_byte size data]; rewrite ?length_insert; exact Hfits).
    unfold hashed_bytes in Heq. cbn [set_data_byte type size data] in Heq.
    assert (take (Z.to_nat (size msg)) (data msg) !! i = Some b0) as Htake
      by (rewrite lookup_take_lt by lia; exact Hb0).
    rewrite take_insert_lt in Heq by lia.
    rewrite insert_take_drop in Heq by (rewrite length_take; lia).
    rewrite <- (take_drop_middle _ _ _ Htake) in Heq at 1.
    symmetry.
    apply (rolling_hash_one_byte
             (type msg :: size msg
                :: take i (take (Z.to_nat (size msg)) (data msg)))
             (drop (S i) (take (Z.to_nat (size msg)) (data msg))));
      [assumption | assumption |].
    exact Heq.
  - intros t Ht Hne. unfold consumer_check.
    rewrite calculate_message_hash_set_hash. cbn [set_type hash].
    apply Z.eqb_neq. rewrite Hcheck. intros Heq. apply Hne.
    rewrite !calculate_message_hash_rolling in Heq
      by (cbn [set_type size data]; exact Hfits).
    unfold hashed_bytes in Heq. cbn [set_type type size data] in Heq.
    symmetry.
    apply (rolling_hash_one_byte []
             (size msg :: take (Z.to_nat (size msg)) (data msg)));
      [assumption | assumption |].
    exact Heq.
  - intros h Hne. unfold consumer_check.
    rewrite !calculate_message_hash_set_hash. cbn [set_hash hash].
    apply Z.eqb_neq. rewrite <- Hcheck. exact Hne.
Qed.

(** A record built by the producer with two payload bytes 10 and 11; the
    second is turned into 12. *)
Lemma single_byte_corruption_detected_witness :
  let msg := producer_make (sample_message 0) [300; 2; 10; 11] in
  consumer_check msg = true /\
  consumer_check (set_data_byte msg 1 12) = false /\
  consumer_check (set_type msg 45) = false.
Proof.
  intros msg.
  assert (message_ok msg) as Hok.
  { constructor; [by_evaluation .. |].
    apply (bool_decide_unpack _). vm_compute. exact I. }
  destruct (single_byte_corruption_detected msg Hok eq_refl)
    as (Hdata & Htype & _).
  split; [reflexivity |]. split.
  - apply Hdata; [reflexivity | lia | discriminate].
  - apply Htype; [lia | discriminate].
Defined.

(** X14.  For every value [rand_r] can return, the pause a producer asks
    [nanosleep] for has [tv_sec = 0] and [tv_nsec] from 100,000,000 to
    499,999,000, and the pause of a consumer has [tv_sec = 0] and [tv_nsec]
    from 200,000,000 to 599,999,000: both are valid requests, below one
    second. *)
Theorem worker_pauses_are_valid r :
  0 <= r <= INT_MAX ->
  fst (producer_delay r) = 0 /\
  100000000 <= snd (producer_delay r) <= 499999000 /\
  fst (consumer_delay r) = 0 /\
  200000000 <= snd (consumer_delay r) <= 599999000.
Proof.
  intros Hr. unfold producer_delay, consumer_delay, delay_req. cbn [fst snd].
  pose proof (Z.rem_bound_pos r 400000 ltac:(lia) ltac:(lia)) as Hrem.
  rewrite (Z.quot_small (Z.rem r 400000 + 100000)) by lia.
  rewrite (Z.quot_small (Z.rem r 400000 + 200000)) by lia.
  rewrite (Z.rem_small (Z.rem r 400000 + 100000)) by lia.
  rewrite (Z.rem_small (Z.rem r 400000 + 200000)) by lia.
  lia.
Qed.

(** With [rand_r] returning 1,234,567. *)
Lemma worker_pauses_are_valid_witness :
  producer_delay 1234567 = (0, 134567000) /\
  fst (consumer_delay 1234567) = 0 /\
  200000000 <= snd (consumer_delay 1234567) <= 599999000.
Proof.
  split; [reflexivity |].
  apply (proj2 (proj2 (worker_pauses_are_valid 1234567 ltac:(by_evaluation)))).
Defined.

(** ** The terminal *)

(** The line of [setup_terminal_noecho_nonblock] that changes [c_lflag]
    removes the bits of [ICANON | ECHO] and nothing else: the complement is
    taken in [unsigned long], wider than [tcflag_t]. *)
Lemma clear_canonical_echo_ldiff `{platform} (l : Z) :
  0 <= l < 2 ^ 32 ->
  clear_canonical_echo l = Z.ldiff l (Z.lor ICANON ECHO).
Proof.
  intros Hl. apply Z.bits_inj'. intros n Hn.
  unfold clear_canonical_echo, to_tcflag_t, to_ulong.
  rewrite Z.ldiff_spec, Z.testbit_mod_pow2, Z.land_spec by lia.
  rewrite Z.testbit_mod_pow2, Z.lnot_spec, Z.testbit_mod_pow2 by lia.
  destruct (Z.ltb_spec n 32) as [Hlow | Hhigh].
  - rewrite (proj2 (Z.ltb_lt n 64)) by lia. reflexivity.
  - rewrite <- (Z.mod_small l (2 ^ 32)) at 2 by lia.
    rewrite Z.testbit_mod_pow2 by lia.
    rewrite (proj2 (Z.ltb_ge n 32)) by lia. reflexivity.
Qed.

(** X15.  When standard input is a terminal and the four calls succeed,
    [setup_terminal_noecho_nonblock] returns with [terminal_modified] 1 and
    the attributes and flags it found saved; in [c_lflag] exactly the bits of
    [ICANON] and [ECHO] are cleared, [c_cc[VMIN]] and [c_cc[VTIME]] are 0 and
    the other control characters and flag words are as before; the file
    status flags are those found with [O_NONBLOCK] added. *)
Theorem setup_gives_raw_mode `{platform} (env : setup_env)
    (st : utils_static) (stdin : tty) :
  isatty stdin = true ->
  tcgetattr_ok env = true -> tcsetattr_ok env = true ->
  F_GETFL_ok env = true -> F_SETFL_ok env = true ->
  0 <= c_lflag (attributes stdin) < 2 ^ 32 ->
  0 <= file_status_flags stdin ->
  let '(fin, st', stdin') := setup_terminal_noecho_nonblock env st stdin in
  fin = Returned /\
  terminal_modified st' = 1 /\
  original_termios st' = attributes stdin /\
  original_fcntl_flags st' = file_status_flags stdin /\
  isatty stdin' = true /\
  file_status_flags stdin' = Z.lor (file_status_flags stdin) O_NONBLOCK /\
  (forall n, 0 <= n ->
     Z.testbit (c_lflag (attributes stdin')) n
     = Z.testbit (c_lflag (attributes stdin)) n
       && negb (Z.testbit ICANON n || Z.testbit ECHO n)) /\
  c_iflag (attributes stdin') = c_iflag (attributes stdin) /\
  c_oflag (attributes stdin') = c_oflag (attributes stdin) /\
  c_cflag (attributes stdin') = c_cflag (attributes stdin) /\
  (forall i, (i < length (c_cc (attributes stdin)))%nat ->
     c_cc (attributes stdin') !! i
     = if decide (i = VMIN \/ i = VTIME) then Some 0
       else c_cc (attributes stdin) !! i).
Proof.
  intros Htty Hget Hset Hgetfl Hsetfl Hl Hfl.
  unfold setup_terminal_noecho_nonblock, tcgetattr, tcsetattr,
    fcntl_F_GETFL, fcntl_F_SETFL.
  rewrite Htty, Hget, Hset, Hgetfl, Hsetfl.
  cbn [negb original_termios terminal_modified original_fcntl_flags
       file_status_flags attributes isatty].
  change (0 =? -1) with false. cbv iota.
  rewrite (proj2 (Z.eqb_neq (file_status_flags stdin) (-1))) by lia.
  cbn [original_termios terminal_modified original_fcntl_flags
       file_status_flags attributes isatty c_lflag c_iflag c_oflag c_cflag
       c_cc].
  split; [reflexivity |]. split; [reflexivity |]. split; [reflexivity |].
  split; [reflexivity |]. split; [reflexivity |]. split; [reflexivity |].
  split.
  { intros n Hn. rewrite clear_canonical_echo_ldiff by exact Hl.
    rewrite Z.ldiff_spec, Z.lor_spec. reflexivity. }
  split; [reflexivity |]. split; [reflexivity |]. split; [reflexivity |].
  intros i Hi.
  destruct (decide (i = VTIME)) as [-> | Htime].
  - rewrite list_lookup_insert_eq by (rewrite length_insert; exact Hi).
    rewrite decide_True by (right; reflexivity). reflexivity.
  - rewrite list_lookup_insert_ne by congruence.
    destruct (decide (i = VMIN)) as [-> | Hmin].
    + rewrite list_lookup_insert_eq by exact Hi.
      rewrite decide_True by (left; reflexivity). reflexivity.
    + rewrite list_lookup_insert_ne by congruence.
      rewrite decide_False by (intros [|]; congruence). reflexivity.
Qed.

(** On Linux, for a terminal in canonical mode with echo ([c_lflag] 0x8a3b)
    opened for reading and writing. *)
Lemma setup_gives_raw_mode_witness :
  let '(fin, st', stdin') :=
    @setup_terminal_noecho_nonblock linux all_succeed sample_utils sample_tty in
  fin = Returned /\
  terminal_modified st' = 1 /\
  original_termios st' = sample_termios /\
  original_fcntl_flags st' = 2 /\
  isatty stdin' = true /\
  file_status_flags stdin' = Z.lor 2 2048 /\
  (forall n, 0 <= n ->
     Z.testbit (c_lflag (attributes stdin')) n
     = Z.testbit 35387 n && negb (Z.testbit 2 n || Z.testbit 8 n)) /\
  c_iflag (attributes stdin') = 17664 /\
  c_oflag (attributes stdin') = 5 /\
  c_cflag (attributes stdin') = 191 /\
  (forall i, (i < 32)%nat ->
     c_cc (attributes stdin') !! i
     = if decide (i = 6%nat \/ i = 5%nat) then Some 0
       else replicate 32 1 !! i).
Proof.
  apply (@setup_gives_raw_mode linux all_succeed sample_utils sample_tty);
    by_evaluation.
Defined.

(** The ways [setup_terminal_noecho_nonblock] ends. *)
Lemma setup_cases `{platform} (env : setup_env) (st : utils_static)
    (stdin : tty) :
  let '(fin, st', stdin') := setup_terminal_noecho_nonblock env st stdin in
  match fin with
  | Exited status =>
      status = EXIT_FAILURE /\
      terminal_modified st' = terminal_modified st /\
      (undo_ok env = true -> stdin' = stdin)
  | Returned =>
      (isatty stdin = false /\ st' = st /\ stdin' = stdin) \/
      (isatty stdin = true /\ isatty stdin' = true /\
       terminal_modified st' = 1 /\
       original_termios st' = attributes stdin /\
       original_fcntl_flags st' = file_status_flags stdin)
  end.
Proof.
  destruct stdin as [tty' attrs flags].
  unfold setup_terminal_noecho_nonblock, tcgetattr, tcsetattr,
    fcntl_F_GETFL, fcntl_F_SETFL.
  cbn [isatty attributes file_status_flags].
  destruct tty'; cbn [negb]; [| left; repeat split].
  destruct (undo_ok env), (tcgetattr_ok env), (tcsetattr_ok env),
    (F_GETFL_ok env), (F_SETFL_ok env);
    cbn [original_termios terminal_modified original_fcntl_flags
         isatty attributes file_status_flags];
    repeat first [ change (0 =? -1) with false; cbv iota
                 | change (-1 =? -1) with true; cbv iota ];
    try destruct (Z.eqb_spec flags (-1)) as [Hminus | Hflags];
    cbn [original_termios terminal_modified original_fcntl_flags
         isatty attributes file_status_flags];
    try (right; repeat split; fail);
    (split; [reflexivity |]; split; [reflexivity |];
     intros Hundo; first [reflexivity | discriminate Hundo]).
Qed.

(** [restore_terminal] when there is something to restore and its two calls
    succeed. *)
Lemma restore_terminal_restores (renv : restore_env) (st : utils_static)
    (stdin : tty) :
  terminal_modified st <> 0 -> isatty stdin = true ->
  restore_F_SETFL_ok renv = true -> restore_tcsetattr_ok renv = true ->
  restore_terminal renv st stdin
  = ({| original_termios := original_termios st;
        terminal_modified := 0;
        original_fcntl_flags := original_fcntl_flags st |},
     {| isatty := true;
        attributes := original_termios st;
        file_status_flags := original_fcntl_flags st |}).
Proof.
  intros Hmod Htty Hfl Hattr. unfold restore_terminal, fcntl_F_SETFL, tcsetattr.
  rewrite (proj2 (Z.eqb_neq _ _) Hmod), Htty, Hfl, Hattr. reflexivity.
Qed.

(** [restore_terminal] when nothing was changed, or when standard input is
    no terminal. *)
Lemma restore_terminal_idle (renv : restore_env) (st : utils_static)
    (stdin : tty) :
  terminal_modified st = 0 \/ isatty stdin = false ->
  restore_terminal renv st stdin = (st, stdin).
Proof.
  intros [Hmod | Htty]; unfold restore_terminal.
  - rewrite Hmod. reflexivity.
  - rewrite Htty, andb_false_r. reflexivity.
Qed.

(** X16.  Whatever the calls of [setup_terminal_noecho_nonblock] answer, if
    the [tcsetattr] that undoes the change succeeds, then: when the function
    ends the process, the terminal is as it was found; when it returns, a
    [restore_terminal] whose two calls succeed puts the terminal back as it
    was found and clears [terminal_modified], and a further
    [restore_terminal] changes nothing, whatever its calls would answer. *)
Theorem terminal_round_trip `{platform} (env : setup_env)
    (renv renv' : restore_env) (st : utils_static) (stdin : tty) :
  terminal_modified st = 0 ->
  undo_ok env = true ->
  restore_F_SETFL_ok renv = true ->
  restore_tcsetattr_ok renv = true ->
  let '(fin, st', stdin') := setup_terminal_noecho_nonblock env st stdin in
  match fin with
  | Exited status =>
      status = EXIT_FAILURE /\ stdin' = stdin /\ terminal_modified st' = 0
  | Returned =>
      let '(st'', stdin'') := restore_terminal renv st' stdin' in
      stdin'' = stdin /\ terminal_modified st'' = 0 /\
      restore_terminal renv' st'' stdin'' = (st'', stdin'')
  end.
Proof.
  intros Hmod Hundo Hfl Hattr.
  pose proof (setup_cases env st stdin) as Hcases.
  destruct (setup_terminal_noecho_nonblock env st stdin) as [[fin st'] stdin'].
  destruct fin as [| status].
  - destruct Hcases as [(Htty & -> & ->) | (Htty & Htty' & Hmod' & Ht & Hf)].
    + rewrite restore_terminal_idle by (left; exact Hmod).
      repeat split; [exact Hmod |].
      apply restore_terminal_idle. left. exact Hmod.
    + rewrite restore_terminal_restores by (assumption || lia).
      rewrite Ht, Hf. destruct stdin as [tty' attrs flags].
      cbn [isatty attributes file_status_flags] in *. subst tty'.
      repeat split.
  - destruct Hcases as (-> & -> & Hsame).
    repeat split; [apply Hsame, Hundo | exact Hmod].
Qed.

(** On Linux: the terminal of the sample is set up, then restored. *)
Lemma terminal_round_trip_witness :
  let '(fin, st', stdin') :=
    @setup_terminal_noecho_nonblock linux all_succeed sample_utils sample_tty in
  match fin with
  | Exited status =>
      status = EXIT_FAILURE /\ stdin' = sample_tty /\ terminal_modified st' = 0
  | Returned =>
      let '(st'', stdin'') := restore_terminal (RestoreEnv true true) st' stdin' in
      stdin'' = sample_tty /\ terminal_modified st'' = 0 /\
      restore_terminal (RestoreEnv false false) st'' stdin'' = (st'', stdin'')
  end.
Proof.
  apply (@terminal_round_trip linux all_succeed (RestoreEnv true true)
           (RestoreEnv false false) sample_utils sample_tty);
    reflexivity.
Defined.

(** ** The main thread *)

Lemma turn_ok_same (p : Main.progress) (s : Main.state) :
  Main.table_ok s -> Main.turn_ok s (p, s, []).
Proof.
  intros Hok. unfold Main.turn_ok.
  split; [exact Hok |]. split; [reflexivity |]. split; [constructor |].
  repeat split.
Qed.

Lemma turn_ok_trans (s s1 s2 : Main.state) (p1 p2 : Main.progress)
    (a1 a2 : list Main.action) :
  Main.turn_ok s (p1, s1, a1) -> Main.turn_ok s1 (p2, s2, a2) ->
  Main.turn_ok s (p2, s2, a1 ++ a2).
Proof.
  unfold Main.turn_ok.
  intros (_ & Hperm1 & Hall1 & Hu1 & Hin1 & Hm1)
         (Hok & Hperm2 & Hall2 & Hu2 & Hin2 & Hm2).
  split; [exact Hok |]. split.
  - unfold Main.created, Main.joined in *. rewrite !omap_app.
    rewrite <- !app_assoc.
    rewrite Permutation_app_swap_app, Hperm1.
    rewrite Permutation_app_swap_app, Hperm2. reflexivity.
  - split; [apply Forall_app; split; assumption |].
    repeat split; congruence.
Qed.

Lemma turn_ok_frame (s s0 : Main.state)
    (r : Main.progress * Main.state * list Main.action) :
  Main.live s0 = Main.live s -> Main.utils s0 = Main.utils s ->
  Main.stdin s0 = Main.stdin s -> Main.g_sync_mode s0 = Main.g_sync_mode s ->
  Main.turn_ok s0 r -> Main.turn_ok s r.
Proof.
  intros Hlive Hu Hin Hm. destruct r as [[p s'] actions]. unfold Main.turn_ok.
  rewrite Hlive, Hu, Hin, Hm. trivial.
Qed.

Lemma set_queue_table_ok q flag s :
  Main.table_ok s -> Main.table_ok (Main.set_queue q flag s).
Proof. intros [? ? ? ?]. constructor; assumption. Qed.

Lemma workers_table_ok calls s :
  Main.table_ok s -> Main.table_ok (Main.workers calls s).
Proof.
  intros Hok. unfold Main.workers. destruct (Main.g_queue s); [| exact Hok].
  apply set_queue_table_ok, Hok.
Qed.

Lemma workers_frame calls s :
  Main.live (Main.workers calls s) = Main.live s /\
  Main.utils (Main.workers calls s) = Main.utils s /\
  Main.stdin (Main.workers calls s) = Main.stdin s /\
  Main.g_sync_mode (Main.workers calls s) = Main.g_sync_mode s.
Proof.
  unfold Main.workers. destruct (Main.g_queue s); repeat split; reflexivity.
Qed.

Lemma live_grows (threads : list Z) (created_count thread : Z) :
  0 <= created_count -> (Z.to_nat created_count < length threads)%nat ->
  take (Z.to_nat (created_count + 1))
    (<[Z.to_nat created_count := thread]> threads)
  = take (Z.to_nat created_count) threads ++ [thread].
Proof.
  intros Hn Hlen.
  replace (Z.to_nat (created_count + 1)) with (S (Z.to_nat created_count))
    by lia.
  rewrite (take_S_r _ _ thread) by (apply list_lookup_insert_eq; exact Hlen).
  rewrite take_insert_ge by lia. reflexivity.
Qed.

Lemma live_shrinks (threads : list Z) (created_count : Z) :
  0 < created_count -> (Z.to_nat created_count <= length threads)%nat ->
  take (Z.to_nat created_count) threads
  = take (Z.to_nat (created_count - 1)) threads
    ++ [threads !!! Z.to_nat (created_count - 1)].
Proof.
  intros Hn Hlen.
  replace (Z.to_nat created_count) with (S (Z.to_nat (created_count - 1)))
    at 1 by lia.
  apply take_S_r, list_lookup_lookup_total_lt. lia.
Qed.

Lemma add_producer_ok env s :
  Main.table_ok s -> Main.turn_ok s (Main.add_producer env s).
Proof.
  intros Hok. pose proof Hok as [Hp Hpl Hc Hcl]. unfold Main.add_producer.
  unfold MAX_PRODUCERS in *.
  destruct (Z.ltb_spec (Main.producer_created_count s) 10) as [Hroom | Hfull];
    [| apply turn_ok_same, Hok].
  destruct (Main.args_ok env); cbn [negb]; [| apply turn_ok_same, Hok].
  destruct (Z.eqb_spec (Main.create_ret env) 0) as [Hret | Hret].
  - unfold Main.turn_ok. split.
    { constructor; cbn; rewrite ?length_insert; unfold MAX_PRODUCERS; lia || assumption. }
    split.
    { unfold Main.created, Main.joined, Main.live, Main.live_producers,
        Main.live_consumers.
      cbn [omap list_omap Main.set_producers Main.producer_threads
           Main.producer_created_count Main.consumer_threads
           Main.consumer_created_count].
      rewrite Hret. cbn.
      rewrite live_grows by lia.
      rewrite <- app_assoc. cbn.
      apply Permutation_middle. }
    split; [repeat constructor; unfold MAX_PRODUCERS; lia |].
    repeat split.
  - unfold Main.turn_ok. split.
    { constructor; cbn; rewrite ?length_insert; unfold MAX_PRODUCERS; lia || assumption. }
    split.
    { unfold Main.created, Main.joined, Main.live, Main.live_producers,
        Main.live_consumers.
      cbn [omap list_omap Main.set_producers Main.producer_threads
           Main.producer_created_count Main.consumer_threads
           Main.consumer_created_count].
      rewrite (proj2 (Z.eqb_neq _ _) Hret). cbn.
      rewrite take_insert_ge by lia. reflexivity. }
    split; [repeat constructor; unfold MAX_PRODUCERS; lia |].
    repeat split.
Qed.

Lemma add_consumer_ok env s :
  Main.table_ok s -> Main.turn_ok s (Main.add_consumer env s).
Proof.
  intros Hok. pose proof Hok as [Hp Hpl Hc Hcl]. unfold Main.add_consumer.
  unfold MAX_CONSUMERS in *.
  destruct (Z.ltb_spec (Main.consumer_created_count s) 10) as [Hroom | Hfull];
    [| apply turn_ok_same, Hok].
  destruct (Main.args_ok env); cbn [negb]; [| apply turn_ok_same, Hok].
  destruct (Z.eqb_spec (Main.create_ret env) 0) as [Hret | Hret].
  - unfold Main.turn_ok. split.
    { constructor; cbn; rewrite ?length_insert; unfold MAX_CONSUMERS; lia || assumption. }
    split.
    { unfold Main.created, Main.joined, Main.live, Main.live_producers,
        Main.live_consumers.
      cbn [omap list_omap Main.set_consumers Main.producer_threads
           Main.producer_created_count Main.consumer_threads
           Main.consumer_created_count].
      rewrite Hret. cbn.
      rewrite live_grows by lia.
      rewrite app_assoc. apply Permutation_cons_append. }
    split; [repeat constructor; unfold MAX_CONSUMERS; lia |].
    repeat split.
  - unfold Main.turn_ok. split.
    { constructor; cbn; rewrite ?length_insert; unfold MAX_CONSUMERS; lia || assumption. }
    split.
    { unfold Main.created, Main.joined, Main.live, Main.live_producers,
        Main.live_consumers.
      cbn [omap list_omap Main.set_consumers Main.producer_threads
           Main.producer_created_count Main.consumer_threads
           Main.consumer_created_count].
      rewrite (proj2 (Z.eqb_neq _ _) Hret). cbn.
      rewrite take_insert_ge by lia. reflexivity. }
    split; [repeat constructor; unfold MAX_CONSUMERS; lia |].
    repeat split.
Qed.

Lemma remove_last_producer_ok env s :
  Main.table_ok s -> Main.turn_ok s (Main.remove_last_producer env s).
Proof.
  intros Hok. pose proof Hok as [Hp Hpl Hc Hcl].
  unfold Main.remove_last_producer. unfold MAX_PRODUCERS in *.
  destruct (Z.gtb_spec (Main.producer_created_count s) 0) as [Hsome | Hnone];
    [| apply turn_ok_same, Hok].
  destruct (Z.eqb_spec (Main.cancel_ret env) 0) as [Hcancel | Hcancel].
  2: { unfold Main.turn_ok. split; [exact Hok |]. split; [reflexivity |].
       split; [repeat constructor |]. repeat split. }
  destruct (Z.eqb_spec (Main.join_ret env) 0) as [Hjoin | Hjoin].
  - unfold Main.turn_ok. split.
    { constructor; cbn; unfold MAX_PRODUCERS; lia || assumption. }
    split.
    { unfold Main.created, Main.joined, Main.live, Main.live_producers,
        Main.live_consumers.
      cbn [omap list_omap Main.set_producers Main.producer_threads
           Main.producer_created_count Main.consumer_threads
           Main.consumer_created_count].
      rewrite Hjoin. cbn [Z.eqb app].
      rewrite (live_shrinks (Main.producer_threads s)
                 (Main.producer_created_count s)) by lia.
      rewrite <- app_assoc. symmetry. apply Permutation_middle. }
    split; [repeat constructor |].
    repeat split.
  - unfold Main.turn_ok. split; [exact Hok |]. split.
    { unfold Main.created, Main.joined. cbn [omap list_omap].
      rewrite (proj2 (Z.eqb_neq _ _) Hjoin). reflexivity. }
    split; [repeat constructor |]. repeat split.
Qed.

Lemma remove_last_consumer_ok env s :
  Main.table_ok s -> Main.turn_ok s (Main.remove_last_consumer env s).
Proof.
  intros Hok. pose proof Hok as [Hp Hpl Hc Hcl].
  unfold Main.remove_last_consumer. unfold MAX_CONSUMERS in *.
  destruct (Z.gtb_spec (Main.consumer_created_count s) 0) as [Hsome | Hnone];
    [| apply turn_ok_same, Hok].
  destruct (Z.eqb_spec (Main.cancel_ret env) 0) as [Hcancel | Hcancel].
  2: { unfold Main.turn_ok. split; [exact Hok |]. split; [reflexivity |].
       split; [repeat constructor |]. repeat split. }
  destruct (Z.eqb_spec (Main.join_ret env) 0) as [Hjoin | Hjoin].
  - unfold Main.turn_ok. split.
    { constructor; cbn; unfold MAX_CONSUMERS; lia || assumption. }
    split.
    { unfold Main.created, Main.joined, Main.live, Main.live_producers,
        Main.live_consumers.
      cbn [omap list_omap Main.set_consumers Main.producer_threads
           Main.producer_created_count Main.consumer_threads
           Main.consumer_created_count].
      rewrite Hjoin. cbn [Z.eqb app].
      rewrite (live_shrinks (Main.consumer_threads s)
                 (Main.consumer_created_count s)) by lia.
      rewrite app_assoc. symmetry. apply Permutation_cons_append. }
    split; [repeat constructor |].
    repeat split.
  - unfold Main.turn_ok. split; [exact Hok |]. split.
    { unfold Main.created, Main.joined. cbn [omap list_omap].
      rewrite (proj2 (Z.eqb_neq _ _) Hjoin). reflexivity. }
    split; [repeat constructor |]. repeat split.
Qed.

Lemma map_Sem_threads (log : list sem_op) :
  Main.created (map Main.Sem log) = [] /\
  Main.joined (map Main.Sem log) = [] /\
  Forall Main.create_in_bounds (map Main.Sem log).
Proof.
  induction log as [|op log (IHc & IHj & IHall)].
  - repeat split. constructor.
  - repeat split; [exact IHc | exact IHj |]. constructor; [exact I | exact IHall].
Qed.

Lemma resize_command_ok change env s :
  Main.table_ok s -> Main.turn_ok s (Main.resize_command change env s).
Proof.
  intros Hok. unfold Main.resize_command.
  destruct (queue_resize _ _ _ _ _ _) as [q r].
  destruct (map_Sem_threads (sems r)) as (Hc & Hj & Hall).
  unfold Main.turn_ok. rewrite Hc, Hj.
  split; [apply set_queue_table_ok, Hok |].
  split; [reflexivity |]. split; [exact Hall |]. repeat split.
Qed.

Lemma handle_command_ok command env s :
  Main.table_ok s -> Main.turn_ok s (Main.handle_command command env s).
Proof.
  intros Hok.
  destruct command as [[] [] [] [] [] [] [] []];
    cbv beta iota delta [Main.handle_command];
    first [ apply add_producer_ok, Hok
          | apply add_consumer_ok, Hok
          | apply remove_last_producer_ok, Hok
          | apply remove_last_consumer_ok, Hok
          | apply resize_command_ok, Hok
          | apply turn_ok_same, Hok
          | idtac ].
  destruct Hok as [? ? ? ?]. unfold Main.turn_ok.
  split; [constructor; assumption |]. split; [reflexivity |].
  split; [constructor |]. repeat split.
Qed.

Lemma main_loop_eq inputs s :
  Main.main_loop inputs s
  = if Main.g_terminate_flag s then (Main.LoopLeft, s, [])
    else
      match inputs with
      | [] => (Main.Looping, s, [])
      | Main.Workers calls :: inputs' =>
          Main.main_loop inputs' (Main.workers calls s)
      | Main.Poll r ungetc_ok env :: inputs' =>
          match kbhit (Main.utils s) r ungetc_ok with
          | (_, 1, Some command) =>
              match Main.handle_command command env s with
              | (Main.Looping, s, actions) =>
                  let '(p, s, actions') := Main.main_loop inputs' s in
                  (p, s, actions ++ actions')
              | stopped => stopped
              end
          | _ => Main.main_loop inputs' s
          end
      end.
Proof. destruct inputs; reflexivity. Qed.

(** What [kbhit] answers: 1 with the byte read, or 0. *)
Lemma kbhit_cases st r ungetc_ok :
  (exists c, terminal_modified st <> 0 /\ r = ReadByte c /\
             kbhit st r ungetc_ok = (true, 1, Some c)) \/
  (exists called, kbhit st r ungetc_ok = (called, 0, None)).
Proof.
  unfold kbhit. destruct (Z.eqb_spec (terminal_modified st) 0) as [Hz | Hnz].
  - right. exists false. reflexivity.
  - destruct r as [c | | errno];
      [destruct ungetc_ok; [left; exists c; auto | right; exists true; reflexivity]
      | right; exists true; reflexivity ..].
Qed.

Lemma main_loop_ok inputs : forall s,
  Main.table_ok s -> Main.turn_ok s (Main.main_loop inputs s).
Proof.
  induction inputs as [|i inputs IH]; intros s Hok; rewrite main_loop_eq.
  - destruct (Main.g_terminate_flag s); apply turn_ok_same, Hok.
  - destruct (Main.g_terminate_flag s); [apply turn_ok_same, Hok |].
    destruct i as [r ungetc_ok env | calls].
    + destruct (kbhit_cases (Main.utils s) r ungetc_ok)
        as [(c & _ & _ & ->) | (called & ->)]; [| apply IH, Hok].
      pose proof (handle_command_ok c env s Hok) as Hturn.
      destruct (Main.handle_command c env s) as [[p s1] a1].
      assert (Main.table_ok s1) as Hok1 by apply Hturn.
      specialize (IH s1 Hok1).
      destruct p; try exact Hturn.
      destruct (Main.main_loop inputs s1) as [[p2 s2] a2].
      eapply turn_ok_trans; eassumption.
    + destruct (workers_frame calls s) as (Hlive & Hu & Hin & Hm).
      apply (turn_ok_frame s (Main.workers calls s)); try assumption.
      apply IH, workers_table_ok, Hok.
Qed.

Lemma join_all_threads (threads : list Z) (join_ret : nat -> Z) :
  forall indices : list nat,
  let actions :=
    map (fun i => Main.PthreadJoin (threads !!! i) (join_ret i)) indices in
  Main.created actions = [] /\
  Main.released actions = [] /\
  Forall Main.create_in_bounds actions /\
  Main.join_calls actions = map (fun i => threads !!! i) indices.
Proof.
  induction indices as [|i indices (IHc & IHr & IHall & IHj)]; cbn.
  - repeat split. constructor.
  - split; [exact IHc |]. split; [exact IHr |].
    split; [constructor; [exact I | exact IHall] |].
    unfold Main.join_calls in *. cbn. f_equal. exact IHj.
Qed.

Lemma lookups_take (threads : list Z) (n : nat) :
  (n <= length threads)%nat ->
  map (fun i => threads !!! i) (seq 0 n) = take n threads.
Proof.
  induction n as [|n IH]; intros Hlen.
  - reflexivity.
  - rewrite seq_S, map_app, IH by lia. cbn [map Nat.add].
    symmetry. apply take_S_r, list_lookup_lookup_total_lt. lia.
Qed.

Lemma join_all_calls (threads : list Z) (created_count : Z)
    (join_ret : nat -> Z) :
  (Z.to_nat created_count <= length threads)%nat ->
  Main.join_calls (Main.join_all threads created_count join_ret)
  = take (Z.to_nat created_count) threads.
Proof.
  intros Hlen. unfold Main.join_all.
  destruct (join_all_threads threads join_ret (seq 0 (Z.to_nat created_count)))
    as (_ & _ & _ & ->).
  apply lookups_take, Hlen.
Qed.

Lemma map_Release_threads (l : list release) :
  Main.created (map Main.Release l) = [] /\
  Main.join_calls (map Main.Release l) = [] /\
  Forall Main.create_in_bounds (map Main.Release l) /\
  Main.released (map Main.Release l) = l.
Proof.
  induction l as [|r l (IHc & IHj & IHall & IHr)].
  - repeat split. constructor.
  - split; [exact IHc |]. split; [exact IHj |].
    split; [constructor; [exact I | exact IHall] |].
    unfold Main.released in *. cbn. f_equal. exact IHr.
Qed.

(** The calls of [cleanup_threads]: first those that wake the threads, then
    the joins, then what [queue_destroy] releases. *)
Lemma cleanup_threads_actions (cenv : Main.cleanup_env) (s : Main.state) :
  exists wake,
    snd (Main.cleanup_threads cenv s)
    = wake
      ++ Main.join_all (Main.producer_threads s)
           (Main.producer_created_count s) (Main.producer_join_ret cenv)
      ++ Main.join_all (Main.consumer_threads s)
           (Main.consumer_created_count s) (Main.consumer_join_ret cenv)
      ++ map Main.Release
           (queue_destroy (Main.g_queue s) (Main.g_sync_mode s)) /\
    Main.created wake = [] /\
    Main.join_calls wake = [] /\
    Main.released wake = [] /\
    Forall Main.create_in_bounds wake.
Proof.
  unfold Main.cleanup_threads.
  cbn [snd Main.set_terminal Main.set_flag Main.set_producers
       Main.set_consumers Main.set_queue
       Main.g_queue Main.g_sync_mode Main.producer_threads
       Main.producer_created_count Main.consumer_threads
       Main.consumer_created_count].
  eexists. split; [reflexivity |].
  destruct (Main.g_queue s) as [q |]; [| repeat split; constructor].
  destruct (Main.g_sync_mode s).
  - repeat split. vm_compute. repeat constructor.
  - destruct (Main.trylock_ret cenv =? 0); repeat split; repeat constructor.
Qed.

Lemma cleanup_threads_state (cenv : Main.cleanup_env) (s : Main.state) :
  let s' := fst (Main.cleanup_threads cenv s) in
  Main.g_terminate_flag s' = true /\
  Main.producer_created_count s' = 0 /\
  Main.consumer_created_count s' = 0 /\
  Main.producer_threads s' = Main.producer_threads s /\
  Main.consumer_threads s' = Main.consumer_threads s /\
  Main.g_queue s' = None /\
  Main.g_sync_mode s' = Main.g_sync_mode s /\
  (Main.utils s', Main.stdin s')
  = restore_terminal (Main.cleanup_restore cenv) (Main.utils s) (Main.stdin s).
Proof.
  unfold Main.cleanup_threads. cbn. repeat split.
  destruct (restore_terminal _ _ _). reflexivity.
Qed.

Lemma initial_table_ok original terminal :
  Main.table_ok (Main.initial original terminal).
Proof. constructor; cbn; unfold MAX_PRODUCERS, MAX_CONSUMERS; lia || reflexivity. Qed.

(** X17.  Whatever is typed and whatever the calls answer, at every point
    of a run of [main] the two counts are between 0 and 10, the tables keep
    their 10 entries, and every [pthread_create] is given an [id] between 1
    and 10: the entry it writes, [id - 1], is inside the table. *)
Theorem thread_tables_stay_in_bounds `{platform} (mode : sync_mode_t)
    (env : Main.main_env) (inputs : list Main.input)
    (original : termios) (terminal : tty) :
  let '(_, s, actions) :=
    Main.main mode env inputs (Main.initial original terminal) in
  Main.table_ok s /\ Forall Main.create_in_bounds actions.
Proof.
  pose proof (initial_table_ok original terminal) as Hok.
  set (s0 := Main.initial original terminal) in *. clearbody s0.
  unfold Main.main.
  match goal with
  | |- context [setup_terminal_noecho_nonblock ?e ?u ?t] =>
      destruct (setup_terminal_noecho_nonblock e u t) as [[fin st] term]
  end.
  assert (forall t q flag,
            Main.table_ok
              (Main.set_queue q flag
                 (Main.set_terminal t
                    {| Main.g_terminate_flag := Main.g_terminate_flag s0;
                       Main.g_sync_mode := mode;
                       Main.producer_threads := Main.producer_threads s0;
                       Main.producer_created_count :=
                         Main.producer_created_count s0;
                       Main.consumer_threads := Main.consumer_threads s0;
                       Main.consumer_created_count :=
                         Main.consumer_created_count s0;
                       Main.g_queue := Main.g_queue s0;
                       Main.utils := Main.utils s0;
                       Main.stdin := Main.stdin s0 |})))
    as Hstart by (intros; destruct Hok; constructor; assumption).
  destruct fin as [| status].
  2: { split; [destruct Hok; constructor; assumption | constructor]. }
  cbn [Main.g_queue Main.set_queue].
  destruct (queue_create _ _ _ _ _) as [q |].
  2: { split; [destruct Hok; constructor; assumption | constructor]. }
  destruct (Main.handlers_ok env); cbn [negb].
  2: { split; [apply Hstart | constructor]. }
  destruct (Main.atexit_ok env); cbn [negb].
  2: { split; [destruct Hok; constructor; assumption |].
       apply map_Release_threads. }
  match goal with
  | |- context [Main.main_loop inputs ?s] =>
      pose proof (main_loop_ok inputs s (Hstart _ _ _)) as Hloop;
      destruct (Main.main_loop inputs s) as [[p s1] actions]
  end.
  destruct Hloop as (Hok1 & _ & Hall & _).
  destruct p; try (split; assumption).
  pose proof (cleanup_threads_state (Main.cleanup env) s1) as Hstate.
  destruct (cleanup_threads_actions (Main.cleanup env) s1)
    as (wake & Hacts & _ & _ & _ & Hwake).
  destruct (Main.cleanup_threads (Main.cleanup env) s1) as [s2 actions'].
  cbn [fst snd] in Hstate, Hacts.
  destruct Hstate as (_ & Hpc & Hcc & Hpt & Hct & _).
  destruct Hok1 as [? ? ? ?].
  split.
  - constructor; rewrite ?Hpc, ?Hcc, ?Hpt, ?Hct;
      unfold MAX_PRODUCERS, MAX_CONSUMERS; lia || assumption.
  - rewrite Hacts. repeat (apply Forall_app; split); try assumption.
    + apply join_all_threads.
    + apply join_all_threads.
    + apply map_Release_threads.
Qed.

(** X18.  From a state with empty tables, after any inputs and then
    [cleanup_threads]: the threads created successfully are, counted with
    repetition, the threads joined successfully by the commands P and C
    together with the threads [cleanup_threads] joins; [cleanup_threads]
    joins exactly the threads the tables hold, producers first, each in
    table order; and all its joins come before anything of the queue is
    released. *)
Theorem created_threads_are_joined (inputs : list Main.input)
    (s0 : Main.state) (cenv : Main.cleanup_env) :
  Main.table_ok s0 ->
  Main.producer_created_count s0 = 0 ->
  Main.consumer_created_count s0 = 0 ->
  let '(_, s, actions) := Main.main_loop inputs s0 in
  let '(_, actions') := Main.cleanup_threads cenv s in
  Permutation (Main.created actions)
    (Main.joined actions ++ Main.join_calls actions') /\
  Main.join_calls actions' = Main.live s /\
  exists before,
    actions'
    = before
      ++ map Main.Release (queue_destroy (Main.g_queue s) (Main.g_sync_mode s)) /\
    Main.released before = [] /\
    Main.join_calls before = Main.live s.
Proof.
  intros Hok Hp Hc.
  pose proof (main_loop_ok inputs s0 Hok) as Hloop.
  destruct (Main.main_loop inputs s0) as [[p s] actions].
  destruct Hloop as (Hok' & Hperm & _).
  destruct (cleanup_threads_actions cenv s)
    as (wake & Hacts & _ & Hwj & Hwr & _).
  destruct (Main.cleanup_threads cenv s) as [s' actions'].
  cbn [snd] in Hacts.
  assert (Main.live s0 = []) as Hempty.
  { unfold Main.live, Main.live_producers, Main.live_consumers.
    rewrite Hp, Hc. reflexivity. }
  rewrite Hempty, app_nil_r in Hperm.
  pose proof Hok' as [Hpb Hpl Hcb Hcl].
  assert (Main.join_calls
            (wake
             ++ Main.join_all (Main.producer_threads s)
                  (Main.producer_created_count s) (Main.producer_join_ret cenv)
             ++ Main.join_all (Main.consumer_threads s)
                  (Main.consumer_created_count s) (Main.consumer_join_ret cenv))
          = Main.live s) as Hjoins.
  { unfold Main.join_calls at 1. rewrite !omap_app.
    fold (Main.join_calls wake).
    fold (Main.join_calls
            (Main.join_all (Main.producer_threads s)
               (Main.producer_created_count s) (Main.producer_join_ret cenv))).
    fold (Main.join_calls
            (Main.join_all (Main.consumer_threads s)
               (Main.consumer_created_count s) (Main.consumer_join_ret cenv))).
    rewrite Hwj, !join_all_calls by lia. reflexivity. }
  assert (Main.join_calls actions' = Main.live s) as Hall.
  { rewrite Hacts, !app_assoc. unfold Main.join_calls at 1.
    rewrite omap_app.
    fold (Main.join_calls
            (map Main.Release
               (queue_destroy (Main.g_queue s) (Main.g_sync_mode s)))).
    destruct (map_Release_threads
                (queue_destroy (Main.g_queue s) (Main.g_sync_mode s)))
      as (_ & -> & _).
    rewrite app_nil_r, <- !app_assoc. exact Hjoins. }
  split; [rewrite Hall; exact Hperm |].
  split; [exact Hall |].
  eexists. split; [rewrite Hacts, !app_assoc; reflexivity |].
  split.
  - unfold Main.released. rewrite !omap_app.
    fold (Main.released wake). rewrite Hwr.
    destruct (join_all_threads (Main.producer_threads s)
                (Main.producer_join_ret cenv)
                (seq 0 (Z.to_nat (Main.producer_created_count s))))
      as (_ & Hrp & _).
    destruct (join_all_threads (Main.consumer_threads s)
                (Main.consumer_join_ret cenv)
                (seq 0 (Z.to_nat (Main.consumer_created_count s))))
      as (_ & Hrc & _).
    unfold Main.released, Main.join_all in *. rewrite Hrp, Hrc. reflexivity.
  - rewrite <- !app_assoc. exact Hjoins.
Qed.

(** Keys p, c, p, P, q: threads 101, 201 and 102 are created, 102 is
    cancelled and joined by P, 101 and 201 are joined at the end. *)
Lemma created_threads_are_joined_witness :
  let '(_, s, actions) := Main.main_loop Main.sample_inputs Main.sample_started in
  let '(_, actions') := Main.cleanup_threads Main.sample_cleanup s in
  Permutation (Main.created actions)
    (Main.joined actions ++ Main.join_calls actions') /\
  Main.join_calls actions' = Main.live s /\
  exists before,
    actions'
    = before
      ++ map Main.Release (queue_destroy (Main.g_queue s) (Main.g_sync_mode s)) /\
    Main.released before = [] /\
    Main.join_calls before = Main.live s.
Proof.
  apply (created_threads_are_joined Main.sample_inputs Main.sample_started
           Main.sample_cleanup);
    by_evaluation.
Defined.

(** The run of the sample, evaluated. *)
Example sample_run_threads :
  let '(p, s, actions) := Main.main_loop Main.sample_inputs Main.sample_started in
  let '(_, actions') := Main.cleanup_threads Main.sample_cleanup s in
  p = Main.LoopLeft /\
  Main.created actions = [101; 201; 102] /\
  Main.joined actions = [102] /\
  Main.join_calls actions' = [101; 201].
Proof. vm_compute. repeat split. Qed.

Lemma restore_terminal_twice (renv renv' : restore_env) (st : utils_static)
    (stdin : tty) :
  let '(st', stdin') := restore_terminal renv st stdin in
  restore_terminal renv' st' stdin' = (st', stdin').
Proof.
  unfold restore_terminal at 1.
  destruct (negb (terminal_modified st =? 0) && isatty stdin) eqn:Hcond.
  - unfold fcntl_F_SETFL, tcsetattr.
    destruct (restore_F_SETFL_ok renv), (restore_tcsetattr_ok renv);
      apply restore_terminal_idle; left; reflexivity.
  - unfold restore_terminal. rewrite Hcond. reflexivity.
Qed.

(** X19.  After [cleanup_threads] the flag is set, both counts are 0 and
    [g_queue] is [NULL]; run again, whatever its calls would answer, it
    joins no thread, posts no semaphore, releases nothing and leaves the
    state as it is. *)
Theorem cleanup_threads_runs_once (cenv cenv' : Main.cleanup_env)
    (s : Main.state) :
  let '(s', _) := Main.cleanup_threads cenv s in
  Main.g_terminate_flag s' = true /\
  Main.producer_created_count s' = 0 /\
  Main.consumer_created_count s' = 0 /\
  Main.g_queue s' = None /\
  Main.cleanup_threads cenv' s' = (s', []).
Proof.
  pose proof (restore_terminal_twice (Main.cleanup_restore cenv)
                (Main.cleanup_restore cenv') (Main.utils s) (Main.stdin s))
    as Htwice.
  unfold Main.cleanup_threads.
  destruct (restore_terminal (Main.cleanup_restore cenv) (Main.utils s)
              (Main.stdin s)) as [st' stdin'].
  cbn [fst snd Main.set_terminal Main.set_flag Main.set_producers
       Main.set_consumers Main.set_queue
       Main.g_queue Main.g_sync_mode Main.producer_threads
       Main.producer_created_count Main.consumer_threads
       Main.consumer_created_count Main.g_terminate_flag
       Main.utils Main.stdin].
  rewrite Htwice.
  repeat split.
Qed.

Lemma main_loop_only_workers (inputs : list Main.input) : forall s,
  terminal_modified (Main.utils s) = 0 ->
  Main.main_loop inputs s = Main.main_loop (Main.only_workers inputs) s.
Proof.
  induction inputs as [|i inputs IH]; intros s Hmod; [reflexivity |].
  destruct i as [r ungetc_ok env | calls]; cbn [Main.only_workers].
  - rewrite main_loop_eq. unfold kbhit. rewrite Hmod. cbn [Z.eqb].
    rewrite <- IH by exact Hmod.
    rewrite (main_loop_eq inputs s).
    destruct (Main.g_terminate_flag s); reflexivity.
  - rewrite main_loop_eq, (main_loop_eq (_ :: _)).
    destruct (Main.g_terminate_flag s); [reflexivity |].
    apply IH. destruct (workers_frame calls s) as (_ & -> & _). exact Hmod.
Qed.

Lemma main_loop_workers_actions (inputs : list Main.input) : forall s,
  snd (Main.main_loop (Main.only_workers inputs) s) = [].
Proof.
  induction inputs as [|i inputs IH]; intros s.
  - rewrite main_loop_eq. destruct (Main.g_terminate_flag s); reflexivity.
  - destruct i as [r ungetc_ok env | calls]; cbn [Main.only_workers];
      [apply IH |].
    rewrite main_loop_eq. destruct (Main.g_terminate_flag s); [reflexivity |].
    apply IH.
Qed.

(** X20.  When standard input is no terminal, the run of [main] is the one
    in which nothing is typed: [kbhit] answers 0 without reading, no command
    is handled, and the loop makes no call on threads or on the queue. *)
Theorem keys_ignored_without_terminal `{platform} (mode : sync_mode_t)
    (env : Main.main_env) (inputs : list Main.input) (s0 : Main.state) :
  isatty (Main.stdin s0) = false ->
  terminal_modified (Main.utils s0) = 0 ->
  Main.main mode env inputs s0
  = Main.main mode env (Main.only_workers inputs) s0 /\
  (forall r ungetc_ok, kbhit (Main.utils s0) r ungetc_ok = (false, 0, None)) /\
  (forall s, snd (Main.main_loop (Main.only_workers inputs) s) = []).
Proof.
  intros Htty Hmod. split; [| split].
  - unfold Main.main, setup_terminal_noecho_nonblock.
    cbn [Main.stdin Main.utils]. rewrite Htty. cbn [negb].
    cbn [Main.g_queue Main.set_queue Main.set_terminal fst snd
         Main.g_sync_mode Main.g_terminate_flag Main.utils Main.stdin].
    destruct (queue_create _ _ _ _ _) as [q |]; [| reflexivity].
    destruct (Main.handlers_ok env); cbn [negb]; [| reflexivity].
    destruct (Main.atexit_ok env); cbn [negb]; [| reflexivity].
    rewrite <- main_loop_only_workers by exact Hmod. reflexivity.
  - intros r ungetc_ok. unfold kbhit. rewrite Hmod. reflexivity.
  - apply main_loop_workers_actions.
Qed.

(** Standard input is a pipe; p and q are sent, then SIGINT arrives. *)
Lemma keys_ignored_without_terminal_witness :
  let inputs :=
    [Main.key "p" 101; Main.key "q" 0; Main.Workers [Interrupt]] in
  let s0 := Main.initial sample_termios Main.sample_pipe in
  @Main.main linux SYNC_MODE_SEM Main.sample_main_env inputs s0
  = @Main.main linux SYNC_MODE_SEM Main.sample_main_env
      [Main.Workers [Interrupt]] s0 /\
  (forall r ungetc_ok, kbhit (Main.utils s0) r ungetc_ok = (false, 0, None)) /\
  (forall s, snd (Main.main_loop [Main.Workers [Interrupt]] s) = []).
Proof.
  apply (@keys_ignored_without_terminal linux SYNC_MODE_SEM
           Main.sample_main_env
           [Main.key "p" 101; Main.key "q" 0; Main.Workers [Interrupt]]
           (Main.initial sample_termios Main.sample_pipe));
    reflexivity.
Defined.

Lemma handle_command_terminal command env s :
  Main.utils (snd (fst (Main.handle_command command env s))) = Main.utils s /\
  Main.stdin (snd (fst (Main.handle_command command env s))) = Main.stdin s.
Proof.
  destruct command as [[] [] [] [] [] [] [] []];
    cbv beta iota delta [Main.handle_command];
    unfold Main.add_producer, Main.add_consumer, Main.remove_last_producer,
      Main.remove_last_consumer, Main.resize_command;
    repeat case_match; split; reflexivity.
Qed.

(** The command loop does not touch the terminal. *)
Lemma main_loop_terminal (inputs : list Main.input) : forall s,
  Main.utils (snd (fst (Main.main_loop inputs s))) = Main.utils s /\
  Main.stdin (snd (fst (Main.main_loop inputs s))) = Main.stdin s.
Proof.
  induction inputs as [|i inputs IH]; intros s; rewrite main_loop_eq.
  - destruct (Main.g_terminate_flag s); split; reflexivity.
  - destruct (Main.g_terminate_flag s); [split; reflexivity |].
    destruct i as [r ungetc_ok env | calls].
    + destruct (kbhit_cases (Main.utils s) r ungetc_ok)
        as [(c & _ & _ & ->) | (called & ->)]; [| apply IH].
      pose proof (handle_command_terminal c env s) as (Hu & Hin).
      destruct (Main.handle_command c env s) as [[p s1] a1].
      cbn [fst snd] in Hu, Hin.
      destruct p; try (split; assumption).
      specialize (IH s1).
      destruct (Main.main_loop inputs s1) as [[p2 s2] a2].
      cbn [fst snd] in *. split; [rewrite <- Hu | rewrite <- Hin]; apply IH.
    + destruct (workers_frame calls s) as (_ & Hu & Hin & _).
      rewrite <- Hu, <- Hin. apply IH.
Qed.

(** X21.  If the calls that restore the terminal succeed and the signal
    handlers are registered, then however [main] ends the process with
    [exit] or [return] (failure of the set-up, of [queue_create], of
    [atexit], or the end of the command loop), the terminal is left as it
    was found and [terminal_modified] is 0. *)
Theorem main_leaves_terminal_as_found `{platform} (mode : sync_mode_t)
    (env : Main.main_env) (inputs : list Main.input) (s0 : Main.state) :
  terminal_modified (Main.utils s0) = 0 ->
  undo_ok (Main.setup env) = true ->
  restore_F_SETFL_ok (Main.early_restore env) = true ->
  restore_tcsetattr_ok (Main.early_restore env) = true ->
  restore_F_SETFL_ok (Main.cleanup_restore (Main.cleanup env)) = true ->
  restore_tcsetattr_ok (Main.cleanup_restore (Main.cleanup env)) = true ->
  Main.handlers_ok env = true ->
  let '(e, s, _) := Main.main mode env inputs s0 in
  match e with
  | Main.Exit _ =>
      Main.stdin s = Main.stdin s0 /\ terminal_modified (Main.utils s) = 0
  | Main.Abort | Main.Running => True
  end.
Proof.
  intros Hmod Hundo Hefl Heattr Hcfl Hcattr Hhandlers.
  pose proof (setup_cases (Main.setup env) (Main.utils s0) (Main.stdin s0))
    as Hcases.
  unfold Main.main. cbn [Main.utils Main.stdin].
  destruct (setup_terminal_noecho_nonblock (Main.setup env) (Main.utils s0)
              (Main.stdin s0)) as [[fin st] term].
  destruct fin as [| status'].
  2: { cbn [Main.set_terminal Main.utils Main.stdin fst snd].
       destruct Hcases as (_ & -> & Hsame).
       split; [apply Hsame, Hundo | exact Hmod]. }
  assert (forall renv,
            restore_F_SETFL_ok renv = true ->
            restore_tcsetattr_ok renv = true ->
            snd (restore_terminal renv st term) = Main.stdin s0 /\
            terminal_modified (fst (restore_terminal renv st term)) = 0)
    as Hrestore.
  { intros renv Hfl Hattr.
    destruct Hcases as [(Htty & -> & ->) | (Htty & Htty' & Hmod' & Ht & Hf)].
    - rewrite restore_terminal_idle by (left; exact Hmod).
      split; [reflexivity | exact Hmod].
    - rewrite restore_terminal_restores by (assumption || lia).
      cbn [fst snd terminal_modified]. split; [| reflexivity].
      rewrite Ht, Hf, <- Htty. destruct (Main.stdin s0). reflexivity. }
  cbn [Main.g_queue Main.set_queue Main.set_terminal fst snd
       Main.g_sync_mode Main.g_terminate_flag Main.utils Main.stdin].
  destruct (queue_create _ _ _ _ _) as [q |].
  2: { cbn [Main.set_terminal Main.utils Main.stdin].
       destruct (Hrestore _ Hefl Heattr) as (Hin & Hu). split; assumption. }
  rewrite Hhandlers. cbn [negb].
  destruct (Main.atexit_ok env); cbn [negb].
  2: { cbn [Main.set_terminal Main.utils Main.stdin].
       destruct (Hrestore _ Hefl Heattr) as (Hin & Hu). split; assumption. }
  match goal with
  | |- context [Main.main_loop inputs ?s] =>
      pose proof (main_loop_terminal inputs s) as (Hu & Hin);
      destruct (Main.main_loop inputs s) as [[p s1] actions]
  end.
  cbn [fst snd Main.utils Main.stdin Main.set_queue Main.set_terminal]
    in Hu, Hin.
  destruct p; [exact I | | exact I | exact I].
  pose proof (cleanup_threads_state (Main.cleanup env) s1) as Hstate.
  destruct (Main.cleanup_threads (Main.cleanup env) s1) as [s2 actions'].
  cbn [fst snd] in Hstate.
  destruct Hstate as (_ & _ & _ & _ & _ & _ & _ & Hterm).
  rewrite Hu, Hin in Hterm.
  destruct (Hrestore _ Hcfl Hcattr) as (Hin' & Hu').
  rewrite <- Hterm in Hin', Hu'. cbn [fst snd] in Hin', Hu'.
  split; assumption.
Qed.

(** On Linux, in semaphore mode: keys p, c, p, P, q on the sample terminal. *)
Lemma main_leaves_terminal_as_found_witness :
  let '(e, s, _) :=
    @Main.main linux SYNC_MODE_SEM Main.sample_main_env Main.sample_inputs
      (Main.initial sample_termios sample_tty) in
  match e with
  | Main.Exit _ =>
      Main.stdin s = sample_tty /\ terminal_modified (Main.utils s) = 0
  | Main.Abort | Main.Running => True
  end.
Proof.
  apply (@main_leaves_terminal_as_found linux SYNC_MODE_SEM
           Main.sample_main_env Main.sample_inputs
           (Main.initial sample_termios sample_tty));
    reflexivity.
Defined.

(** The run of the sample ends with status 0; while the loop runs the
    terminal is in raw mode. *)
Example sample_run_ends :
  fst (fst (@Main.main linux SYNC_MODE_SEM Main.sample_main_env
              Main.sample_inputs (Main.initial sample_termios sample_tty)))
  = Main.Exit EXIT_SUCCESS /\
  c_lflag
    (attributes
       (Main.stdin
          (snd (fst (@Main.main linux SYNC_MODE_SEM Main.sample_main_env []
                       (Main.initial sample_termios sample_tty)))))) = 35377.
Proof. vm_compute. split; reflexivity. Qed.

(** X22.  When standard input is a terminal, the set-up and [queue_create]
    succeed and registering the signal handlers fails, [main] ends the
    process with [EXIT_FAILURE] before [cleanup_threads] is registered:
    [terminal_modified] is still 1, the terminal keeps [ICANON] and [ECHO]
    cleared and [O_NONBLOCK] set, and nothing of the queue is released. *)
Theorem handler_failure_leaves_raw_mode `{platform} (mode : sync_mode_t)
    (env : Main.main_env) (inputs : list Main.input) (s0 : Main.state) :
  isatty (Main.stdin s0) = true ->
  tcgetattr_ok (Main.setup env) = true ->
  tcsetattr_ok (Main.setup env) = true ->
  F_GETFL_ok (Main.setup env) = true ->
  F_SETFL_ok (Main.setup env) = true ->
  0 <= file_status_flags (Main.stdin s0) ->
  Main.struct_ok env = true ->
  Main.heap env <> None ->
  Main.init_ok env = true ->
  Main.handlers_ok env = false ->
  let '(e, s, actions) := Main.main mode env inputs s0 in
  e = Main.Exit EXIT_FAILURE /\
  actions = [] /\
  Main.g_queue s <> None /\
  terminal_modified (Main.utils s) = 1 /\
  c_lflag (attributes (Main.stdin s))
  = clear_canonical_echo (c_lflag (attributes (Main.stdin s0))) /\
  file_status_flags (Main.stdin s)
  = Z.lor (file_status_flags (Main.stdin s0)) O_NONBLOCK.
Proof.
  intros Htty Hget Hset Hgetfl Hsetfl Hfl Hstruct Hheap Hinit Hhandlers.
  unfold Main.main, setup_terminal_noecho_nonblock, tcgetattr, tcsetattr,
    fcntl_F_GETFL, fcntl_F_SETFL.
  cbn [Main.utils Main.stdin].
  rewrite Htty, Hget, Hset, Hgetfl, Hsetfl.
  cbn [negb original_termios terminal_modified original_fcntl_flags
       file_status_flags attributes isatty].
  change (0 =? -1) with false. cbv iota.
  rewrite (proj2 (Z.eqb_neq (file_status_flags (Main.stdin s0)) (-1))) by lia.
  cbn [Main.g_queue Main.set_queue Main.set_terminal fst snd
       Main.g_sync_mode Main.g_terminate_flag Main.utils Main.stdin].
  unfold queue_create, malloc. rewrite Hstruct, Hinit.
  destruct (Main.heap env) as [garbage |]; [| congruence].
  rewrite Hhandlers.
  cbn. repeat split. discriminate.
Qed.

(** On Linux, with the sample terminal. *)
Lemma handler_failure_leaves_raw_mode_witness :
  let env :=
    {| Main.setup := all_succeed;
       Main.struct_ok := true;
       Main.heap := Some [];
       Main.init_ok := true;
       Main.early_restore := RestoreEnv true true;
       Main.handlers_ok := false;
       Main.atexit_ok := true;
       Main.cleanup := Main.sample_cleanup |} in
  let '(e, s, actions) :=
    @Main.main linux SYNC_MODE_SEM env Main.sample_inputs
      (Main.initial sample_termios sample_tty) in
  e = Main.Exit EXIT_FAILURE /\
  actions = [] /\
  Main.g_queue s <> None /\
  terminal_modified (Main.utils s) = 1 /\
  c_lflag (attributes (Main.stdin s))
  = @clear_canonical_echo linux 35387 /\
  file_status_flags (Main.stdin s) = Z.lor 2 2048.
Proof.
  intros env.
  apply (@handler_failure_leaves_raw_mode linux SYNC_MODE_SEM env
           Main.sample_inputs (Main.initial sample_termios sample_tty));
    by_evaluation.
Defined.

(** ** The later revision of [queue_resize] *)

(** X23.  The later [queue_resize] keeps the order.  When it accepts a change (the
    clamped capacity differs from the current one and is at least [count],
    and the new block is allocated), the queue has the new capacity and a
    block of that many records whose first [count] records are the items,
    oldest first; [head_idx] is 0, [tail_idx] is [count], or 0 when [count]
    is the new capacity; [count] and the items in order are unchanged; and
    removing all the items afterwards gives the same records in the same
    order as removing them before. *)
Theorem resize_keeps_order mode q change garbage flag evs :
  queue_inv q ->
  INT_MIN <= change <= INT_MAX ->
  let new_capacity := clamped_capacity (capacity q) change in
  new_capacity <> capacity q ->
  count q <= new_capacity ->
  exists q' r,
    queue_resize mode (Some q) change (Some garbage) flag evs = (Some q', r) /\
    capacity q' = new_capacity /\
    Z.of_nat (length (messages q')) = new_capacity /\
    firstn (Z.to_nat (count q)) (messages q') = contents q /\
    head_idx q' = 0 /\
    tail_idx q' = (if count q =? new_capacity then 0 else count q) /\
    count q' = count q /\
    contents q' = contents q /\
    dequeue_all mode (Z.to_nat (count q)) q' = contents q /\
    dequeue_all mode (Z.to_nat (count q)) q = contents q.
Proof.
  intros Hinv Hchange new_capacity Hdiff Hfit.
  pose proof (inv_capacity q Hinv) as Hcap.
  pose proof (inv_count q Hinv) as Hcount.
  assert (new_capacity_of (capacity q) change = new_capacity) as Hnew
    by (apply new_capacity_clamped; assumption).
  pose proof (new_capacity_range (capacity q) change Hcap) as Hrange.
  rewrite Hnew in Hrange.
  assert (change <> 0) as Hnz.
  { intros ->. unfold new_capacity, clamped_capacity, MIN_QUEUE_CAPACITY,
      MAX_QUEUE_CAPACITY in *. lia. }
  set (block := resize (Z.to_nat new_capacity) zero_message garbage).
  assert (length block = Z.to_nat new_capacity) as Hlen
    by apply length_resize.
  destruct (queue_resize_accepted mode q change (Some garbage) block flag evs)
    as [r Hcall]; rewrite ?Hnew; try assumption; try reflexivity.
  rewrite Hnew in Hcall.
  exists (relocated q new_capacity block), r. split; [exact Hcall |].
  pose proof (relocated_inv q new_capacity block Hinv Hrange Hfit Hlen)
    as Hinv'.
  pose proof (contents_relocated q new_capacity block Hinv Hrange Hfit Hlen)
    as Hsame.
  unfold MIN_QUEUE_CAPACITY, MAX_QUEUE_CAPACITY in Hrange, Hcap.
  repeat split.
  - simpl. rewrite copy_messages_length, Hlen. lia.
  - apply relocated_block; assumption.
  - simpl. destruct (Z.eqb_spec (count q) new_capacity).
    + replace (new_capacity >? 0) with true
        by (symmetry; apply Z.gtb_lt; lia).
      reflexivity.
    + simpl. apply to_int_small. lia.
  - exact Hsame.
  - rewrite dequeue_all_contents by (simpl; first [assumption | lia]).
    rewrite Hsame, <- (contents_length q). apply firstn_all.
  - rewrite dequeue_all_contents by (first [assumption | lia]).
    rewrite <- (contents_length q). apply firstn_all.
Qed.

(** Capacity 5 holding A, B, C, shrunk by 2. *)
Lemma resize_keeps_order_witness :
  let new_capacity := clamped_capacity (capacity sample_queue) (-2) in
  exists q' r,
    queue_resize SYNC_MODE_CONDVAR (Some sample_queue) (-2) (Some []) false []
    = (Some q', r) /\
    capacity q' = new_capacity /\
    Z.of_nat (length (messages q')) = new_capacity /\
    firstn (Z.to_nat (count sample_queue)) (messages q') = contents sample_queue /\
    head_idx q' = 0 /\
    tail_idx q' = (if count sample_queue =? new_capacity then 0
                   else count sample_queue) /\
    count q' = count sample_queue /\
    contents q' = contents sample_queue /\
    dequeue_all SYNC_MODE_CONDVAR (Z.to_nat (count sample_queue)) q'
    = contents sample_queue /\
    dequeue_all SYNC_MODE_CONDVAR (Z.to_nat (count sample_queue)) sample_queue
    = contents sample_queue.
Proof.
  apply (resize_keeps_order SYNC_MODE_CONDVAR sample_queue (-2) [] false []).
  - by_evaluation.
  - by_evaluation.
  - vm_compute. discriminate.
  - vm_compute. discriminate.
Defined.

(** X24.  The shrink wait of the later [queue_resize] can be cancelled.  In
    the semaphore strategy, when it is blocked taking back the slots of a shrink and
    [g_terminate_flag] is set, a [sem_wait] that returns -1 with [EINTR] makes
    the call return -1 there: it takes no further permit, whatever events
    follow, and the queue is as the blocked call had left it. *)
Theorem shrink_wait_cancellable q change heap flag pre post :
  let parked := queue_resize SYNC_MODE_SEM (Some q) change heap flag pre in
  ret (snd parked) = None ->
  terminate (snd parked) = true ->
  queue_resize SYNC_MODE_SEM (Some q) change heap flag
    (pre ++ Return (-1) EINTR :: post)
  = (fst parked, returns (-1) true (sems (snd parked))).
Proof.
  unfold queue_resize.
  destruct (change =? 0); [discriminate |].
  destruct (new_capacity_of (capacity q) change =? capacity q);
    [discriminate |].
  destruct (new_capacity_of (capacity q) change <? count q); [discriminate |].
  destruct (malloc (new_capacity_of (capacity q) change) heap)
    as [new_messages_buffer|]; [| discriminate].
  cbv zeta.
  destruct (new_capacity_of (capacity q) change >? capacity q);
    [discriminate |].
  destruct (reclaim_slots _ flag pre) as [[w f] taken] eqn:Hpre.
  destruct w; try discriminate.
  simpl. intros _ ->.
  rewrite (reclaim_slots_interrupted _ _ _ _ _ post Hpre eq_refl).
  reflexivity.
Qed.

(** A shrink by 2 that takes one slot back, sees the signal and is then
    interrupted. *)
Lemma shrink_wait_cancellable_witness :
  let parked :=
    queue_resize SYNC_MODE_SEM (Some sample_queue) (-2) (Some []) false
      [Return 0 0; Signal] in
  sems (snd parked) = [SemWait empty_slots] /\
  queue_resize SYNC_MODE_SEM (Some sample_queue) (-2) (Some []) false
    ([Return 0 0; Signal] ++ Return (-1) EINTR :: [Return 0 0])
  = (fst parked, returns (-1) true (sems (snd parked))).
Proof.
  split; [reflexivity |].
  apply (shrink_wait_cancellable sample_queue (-2) (Some []) false
           [Return 0 0; Signal] [Return 0 0]).
  - reflexivity.
  - reflexivity.
Defined.
